(** * SmartModbus: a shallow embedding of the optimisation and framing core

    The C sources are rendered as Rocq functions over [Z].  A [uint8_t],
    [uint16_t] or [uint32_t] value is a [Z] in the range of its type and every
    narrowing conversion of the source is written out ([to_u8], [to_u16],
    [to_u32], [to_i16]).  Arrays are lists; a function that reports failure
    through its [int] return value and its result through out-parameters
    returns a [result].  Pointer arguments are always valid in the embedding,
    so the [NULL] guards of the source have no counterpart (the one call
    that passes an integer where an array is expected, in
    [mb_optimize_request], is written out), and [malloc] is taken to
    succeed. *)

From Stdlib Require Import ZArith List Bool Lia Sorted Permutation.
Import ListNotations.

Local Open Scope Z_scope.

(** ** Machine integers *)

Definition u8 (z : Z) : Prop := 0 <= z < 256.
Definition u16 (z : Z) : Prop := 0 <= z < 65536.
Definition u32 (z : Z) : Prop := 0 <= z < 4294967296.

Definition to_u8 (z : Z) : Z := z mod 256.
Definition to_u16 (z : Z) : Z := z mod 65536.
Definition to_u32 (z : Z) : Z := z mod 4294967296.

(** Conversion of an [int] to [int16_t]: the value is reduced modulo 2^16
    into the signed range (what the supported compilers do). *)
Definition to_i16 (z : Z) : Z :=
  let w := z mod 65536 in if w <? 32768 then w else w - 65536.

(** Length of an array, as the integer the source passes along with it. *)
Definition len {A : Type} (l : list A) : Z := Z.of_nat (length l).

(** ** mb_error.h *)

Inductive mb_error_t : Set :=
| MB_SUCCESS
| MB_ERROR_INVALID_PARAM
| MB_ERROR_BUFFER_TOO_SMALL
| MB_ERROR_TIMEOUT
| MB_ERROR_CRC_MISMATCH
| MB_ERROR_LRC_MISMATCH
| MB_ERROR_INVALID_FRAME
| MB_ERROR_EXCEPTION_RESPONSE
| MB_ERROR_TRANSPORT
| MB_ERROR_OUT_OF_MEMORY
| MB_ERROR_NOT_SUPPORTED
| MB_ERROR_INVALID_FC
| MB_ERROR_INVALID_ADDRESS
| MB_ERROR_INVALID_QUANTITY
| MB_ERROR_NO_BLOCKS
| MB_ERROR_TOO_MANY_BLOCKS
| MB_ERROR_PDU_TOO_LARGE
| MB_ERROR_TOO_MANY_PLANS
| MB_ERROR_NO_MEMORY.

(** Outcome of a call: [Ok v] stands for the return value [MB_SUCCESS] (or a
    positive frame length) with [v] stored through the out-parameters,
    [Err e] for the negative return value [e]. *)
Inductive result (A : Type) : Type :=
| Ok (v : A)
| Err (e : mb_error_t).

Arguments Ok {A} v.
Arguments Err {A} e.

(** ** mb_types.h *)

Inductive mb_mode_t : Set := MB_MODE_RTU | MB_MODE_ASCII | MB_MODE_TCP.

Definition MB_FC_READ_COILS : Z := 1.
Definition MB_FC_READ_DISCRETE_INPUTS : Z := 2.
Definition MB_FC_READ_HOLDING_REGISTERS : Z := 3.
Definition MB_FC_READ_INPUT_REGISTERS : Z := 4.
Definition MB_FC_WRITE_SINGLE_COIL : Z := 5.
Definition MB_FC_WRITE_SINGLE_REGISTER : Z := 6.
Definition MB_FC_WRITE_MULTIPLE_COILS : Z := 15.
Definition MB_FC_WRITE_MULTIPLE_REGISTERS : Z := 16.
Definition MB_FC_MASK_WRITE_REGISTER : Z := 22.
Definition MB_FC_READ_WRITE_MULTIPLE_REGISTERS : Z := 23.

Record mb_block_t : Set := mk_block {
  blk_slave_id : Z;        (* uint8_t  *)
  blk_function_code : Z;   (* uint8_t  *)
  blk_start_address : Z;   (* uint16_t *)
  blk_quantity : Z;        (* uint16_t *)
  blk_is_merged : bool
}.

Record mb_pdu_t : Set := mk_pdu {
  pdu_slave_id : Z;
  pdu_function_code : Z;
  pdu_start_address : Z;
  pdu_quantity : Z;
  pdu_total_chars : Z
}.

Record mb_cost_params_t : Set := mk_cost {
  cp_req_fixed_chars : Z;   (* uint8_t *)
  cp_resp_fixed_chars : Z;  (* uint8_t *)
  cp_gap_chars : Z;         (* uint8_t *)
  cp_latency_chars : Z      (* uint8_t *)
}.

Record mb_fc_policy_t : Set := mk_policy {
  fc : Z;
  supports_merge : bool;
  is_read : bool;
  req_fixed_chars : Z;
  resp_fixed_chars : Z;
  extra_unit_chars : Z;
  max_quantity : Z
}.

(** Values that fit the fields of the C structures. *)
Definition block_wf (b : mb_block_t) : Prop :=
  u8 (blk_slave_id b) /\ u8 (blk_function_code b) /\
  u16 (blk_start_address b) /\ u16 (blk_quantity b).

Definition cost_wf (c : mb_cost_params_t) : Prop :=
  u8 (cp_req_fixed_chars c) /\ u8 (cp_resp_fixed_chars c) /\
  u8 (cp_gap_chars c) /\ u8 (cp_latency_chars c).

(** ** fc_policy.c *)

Definition fc_policy_table : list mb_fc_policy_t :=
  [ mk_policy 1 true true 6 5 12 2000;
    mk_policy 2 true true 6 5 12 2000;
    mk_policy 3 true true 6 5 200 125;
    mk_policy 4 true true 6 5 200 125;
    mk_policy 5 false false 6 6 0 1;
    mk_policy 6 false false 6 6 0 1;
    mk_policy 15 false false 7 6 0 1968;
    mk_policy 16 false false 7 6 0 123;
    mk_policy 22 false false 8 8 0 1;
    mk_policy 23 false true 11 5 0 121 ].

Definition mb_fc_get_policy (f : Z) : option mb_fc_policy_t :=
  find (fun p => fc p =? f) fc_policy_table.

Definition mb_fc_supports_merge (f : Z) : bool :=
  match mb_fc_get_policy f with
  | Some p => supports_merge p
  | None => false
  end.

Definition mb_fc_is_read (f : Z) : bool :=
  match mb_fc_get_policy f with
  | Some p => is_read p
  | None => false
  end.

Definition mb_fc_is_write (f : Z) : bool :=
  match mb_fc_get_policy f with
  | Some p => negb (is_read p)
  | None => false
  end.

Definition mb_fc_get_unit_size (f : Z) : Z :=
  if (f =? 1) || (f =? 2) || (f =? 5) || (f =? 15) then 1
  else if (f =? 3) || (f =? 4) || (f =? 6) || (f =? 16) || (f =? 22) || (f =? 23)
       then 2
       else 0.

Definition mb_fc_get_extra_unit_chars (f : Z) : Z :=
  match mb_fc_get_policy f with
  | Some p => extra_unit_chars p
  | None => 0
  end.

Definition mb_fc_get_max_quantity (f : Z) : Z :=
  match mb_fc_get_policy f with
  | Some p => max_quantity p
  | None => 0
  end.

Definition mb_fc_is_valid (f : Z) : bool :=
  match mb_fc_get_policy f with
  | Some _ => true
  | None => false
  end.

(** ** block_utils.c *)

Definition mb_block_are_compatible (a b : mb_block_t) : bool :=
  (blk_slave_id a =? blk_slave_id b) &&
  (blk_function_code a =? blk_function_code b).

(** [a_end] is computed in [uint32_t], where the sum of two 16-bit values
    cannot wrap. *)
Definition mb_block_are_adjacent (a b : mb_block_t) : bool :=
  if negb (mb_block_are_compatible a b) then false
  else
    let a_end := blk_start_address a + blk_quantity a in
    a_end =? blk_start_address b.

Definition mb_block_calc_gap (a b : mb_block_t) : Z :=
  let '(a, b) :=
    if blk_start_address a >? blk_start_address b then (b, a) else (a, b) in
  let a_end := blk_start_address a + blk_quantity a in
  if a_end >=? blk_start_address b then 0
  else to_u16 (blk_start_address b - a_end).

Definition mb_block_merge (a b : mb_block_t) : result mb_block_t :=
  if negb (mb_block_are_compatible a b) then Err MB_ERROR_INVALID_PARAM
  else
    let '(a, b) :=
      if blk_start_address a >? blk_start_address b then (b, a) else (a, b) in
    let a_end := blk_start_address a + blk_quantity a in
    let b_end := blk_start_address b + blk_quantity b in
    let end_ := if a_end >? b_end then a_end else b_end in
    Ok (mk_block (blk_slave_id a) (blk_function_code a) (blk_start_address a)
          (to_u16 (end_ - blk_start_address a)) true).

Definition mb_block_calc_data_size (b : mb_block_t) : Z :=
  let unit_size := mb_fc_get_unit_size (blk_function_code b) in
  if unit_size =? 1 then to_u16 ((blk_quantity b + 7) / 8)
  else if unit_size =? 2 then to_u16 (blk_quantity b * 2)
  else 0.

(** ** char_model.c *)

Definition mb_calc_gap_cost (f gap_units : Z) : Z :=
  if gap_units =? 0 then 0
  else
    let extra := mb_fc_get_extra_unit_chars f in
    (* first assignment of the source; overwritten on both branches below *)
    let cost := to_u32 (gap_units * extra) / 100 in
    let cost :=
      if (f =? MB_FC_READ_COILS) || (f =? MB_FC_READ_DISCRETE_INPUTS)
      then (gap_units + 7) / 8
      else gap_units * 2 in
    to_u16 cost.

Definition mb_calc_merge_savings (gap_units f : Z) (cost_params : mb_cost_params_t) : Z :=
  let overhead_cost :=
    to_u16 (cp_req_fixed_chars cost_params + cp_resp_fixed_chars cost_params +
            cp_gap_chars cost_params + cp_latency_chars cost_params) in
  let gap_cost := mb_calc_gap_cost f gap_units in
  to_i16 (overhead_cost - gap_cost).

Definition mb_init_cost_params (mode : mb_mode_t) (f latency_chars : Z)
  (params : mb_cost_params_t) : mb_cost_params_t :=
  match mb_fc_get_policy f with
  | None => params
  | Some policy =>
      mk_cost (req_fixed_chars policy) (resp_fixed_chars policy)
        (match mode with MB_MODE_TCP => 0 | _ => 4 end) latency_chars
  end.

Definition mb_calc_overhead_chars (mode : mb_mode_t) (f gap_chars latency_chars : Z) : Z :=
  match mb_fc_get_policy f with
  | None => 0
  | Some policy =>
      let overhead := 0 in
      let overhead := to_u16 (overhead + req_fixed_chars policy) in
      let overhead := to_u16 (overhead + resp_fixed_chars policy) in
      let overhead :=
        match mode with
        | MB_MODE_RTU | MB_MODE_ASCII => to_u16 (overhead + gap_chars)
        | MB_MODE_TCP => overhead
        end in
      to_u16 (overhead + latency_chars)
  end.

Definition mb_get_extra_unit_chars (f : Z) : Z := mb_fc_get_extra_unit_chars f.

Definition mb_calc_request_cost (block : mb_block_t) (mode : mb_mode_t)
  (gap_chars latency_chars : Z) : Z :=
  let overhead :=
    mb_calc_overhead_chars mode (blk_function_code block) gap_chars latency_chars in
  let unit_size := mb_fc_get_unit_size (blk_function_code block) in
  let data_cost :=
    if unit_size =? 1 then to_u16 ((blk_quantity block + 7) / 8)
    else if unit_size =? 2 then to_u16 (blk_quantity block * 2)
    else 0 in
  to_u16 (overhead + data_cost).

(** ** gap_merge.c *)

Definition mb_should_merge_blocks (block_a block_b : mb_block_t)
  (cost_params : mb_cost_params_t) : bool :=
  if negb (mb_block_are_compatible block_a block_b) then false
  else if negb (mb_fc_supports_merge (blk_function_code block_a)) then false
  else if mb_block_are_adjacent block_a block_b then true
  else
    let gap_units := mb_block_calc_gap block_a block_b in
    if gap_units =? 0 then true
    else
      let savings :=
        mb_calc_merge_savings gap_units (blk_function_code block_a) cost_params in
      savings >? 0.

Definition mb_merge_two_blocks (block_a block_b : mb_block_t) : result mb_block_t :=
  mb_block_merge block_a block_b.

(** The merge pass of [mb_merge_block_array]: [current] absorbs the blocks
    that follow while [mb_should_merge_blocks] holds (the inner [while]); a
    refusal writes [current] out and restarts from the refusing block (the
    outer [while]). *)
Fixpoint merge_pass (cost_params : mb_cost_params_t) (current : mb_block_t)
  (rest : list mb_block_t) : result (list mb_block_t) :=
  match rest with
  | [] => Ok [current]
  | next :: rest' =>
      if mb_should_merge_blocks current next cost_params then
        match mb_merge_two_blocks current next with
        | Ok merged => merge_pass cost_params merged rest'
        | Err e => Err e
        end
      else
        match merge_pass cost_params next rest' with
        | Ok out => Ok (current :: out)
        | Err e => Err e
        end
  end.

(** [qsort] with a comparison on one key.  The C library leaves the order of
    elements with equal keys open; the embedding keeps them in the order of
    the input (an insertion sort from the right: [b] passes the elements
    that the comparison puts strictly before it). *)
Fixpoint insert_block (before : mb_block_t -> mb_block_t -> bool)
  (b : mb_block_t) (l : list mb_block_t) : list mb_block_t :=
  match l with
  | [] => [b]
  | x :: t => if before x b then x :: insert_block before b t else b :: l
  end.

Definition sort_blocks (before : mb_block_t -> mb_block_t -> bool)
  (l : list mb_block_t) : list mb_block_t :=
  fold_right (insert_block before) [] l.

(** [compare_blocks_by_address a b] is negative. *)
Definition mb_block_sort_by_address (blocks : list mb_block_t) : list mb_block_t :=
  sort_blocks (fun a b => blk_start_address a <? blk_start_address b) blocks.

(** [compare_blocks_by_quantity_desc a b] is negative. *)
Definition mb_block_sort_by_quantity_desc (blocks : list mb_block_t) : list mb_block_t :=
  sort_blocks (fun a b => blk_quantity a >? blk_quantity b) blocks.

Definition mb_merge_block_array (blocks : list mb_block_t)
  (cost_params : mb_cost_params_t) : result (list mb_block_t) :=
  match mb_block_sort_by_address blocks with
  | [] => Ok []
  | first :: rest => merge_pass cost_params first rest
  end.

(** [mb_merge_blocks_greedy] returns the number of merges and leaves the
    merged array behind.  [cost_params] is a local of the source that
    [mb_init_cost_params] does not touch when the function code of the first
    block has no policy; [uninitialised] is its content on entry.  The
    merge pass cannot fail (it merges compatible blocks only), so the
    branch for its error, where the source returns 0 with the array as the
    pass has left it, is never taken. *)
Definition mb_merge_blocks_greedy (blocks : list mb_block_t) (mode : mb_mode_t)
  (latency_chars : Z) (uninitialised : mb_cost_params_t) : Z * list mb_block_t :=
  match blocks with
  | [] => (0, blocks)
  | first :: _ =>
      let original_count := len blocks in
      let f := blk_function_code first in
      let cost_params := mb_init_cost_params mode f latency_chars uninitialised in
      match mb_merge_block_array blocks cost_params with
      | Err _ => (0, blocks)
      | Ok merged => (to_u16 (original_count - len merged), merged)
      end
  end.

(** [Ok tt] is [MB_SUCCESS]. *)
Definition mb_block_validate (block : mb_block_t) : result unit :=
  if (blk_slave_id block =? 0) || (blk_slave_id block >? 247)
  then Err MB_ERROR_INVALID_ADDRESS
  else if negb (mb_fc_is_valid (blk_function_code block)) then Err MB_ERROR_INVALID_FC
  else if blk_quantity block =? 0 then Err MB_ERROR_INVALID_QUANTITY
  else
    let max_qty := mb_fc_get_max_quantity (blk_function_code block) in
    if blk_quantity block >? max_qty then Err MB_ERROR_INVALID_QUANTITY
    else
      let end_address := blk_start_address block + blk_quantity block in
      if end_address >? 65536 then Err MB_ERROR_INVALID_ADDRESS
      else Ok tt.

(** ** block_utils.c: address folding *)

(** One run of the inner loop of the bubble sort, started with [x] in hand:
    the larger of two neighbours moves right. *)
Fixpoint bubble_from (x : Z) (l : list Z) : list Z :=
  match l with
  | [] => [x]
  | y :: t => if x >? y then y :: bubble_from x t else x :: bubble_from y t
  end.

(** The inner loop for one value of [i]: it touches the first [n = count - i]
    cells only. *)
Definition bubble_pass (n : nat) (l : list Z) : list Z :=
  match firstn n l with
  | [] => l
  | x :: t => bubble_from x t ++ skipn n l
  end.

(** [passes] iterations of the outer loop, the next one working on [n] cells. *)
Fixpoint bubble_passes (passes n : nat) (l : list Z) : list Z :=
  match passes with
  | O => l
  | S k => bubble_passes k (pred n) (bubble_pass n l)
  end.

Definition bubble_sort (l : list Z) : list Z :=
  bubble_passes (pred (length l)) (length l) l.

(** The grouping loop.  [blocks] are the blocks written so far
    ([num_blocks] is their number), [prev] is [sorted_addresses[i - 1]]. *)
Fixpoint group_blocks (slave_id f max_blocks : Z) (blocks : list mb_block_t)
  (block_start block_quantity prev : Z) (rest : list Z) : result (list mb_block_t) :=
  match rest with
  | [] =>
      if len blocks >=? max_blocks then Err MB_ERROR_TOO_MANY_BLOCKS
      else Ok (blocks ++ [mk_block slave_id f block_start block_quantity false])
  | cur :: rest' =>
      if cur =? prev + 1 then
        group_blocks slave_id f max_blocks blocks
          block_start (to_u16 (block_quantity + 1)) cur rest'
      else if len blocks >=? max_blocks then Err MB_ERROR_TOO_MANY_BLOCKS
      else
        group_blocks slave_id f max_blocks
          (blocks ++ [mk_block slave_id f block_start block_quantity false])
          cur 1 cur rest'
  end.

Definition mb_addresses_to_blocks (addresses : list Z) (slave_id f max_blocks : Z)
  : result (list mb_block_t) :=
  if len addresses =? 0 then Ok []
  else if negb (mb_fc_is_valid f) then Err MB_ERROR_INVALID_FC
  else
    match bubble_sort addresses with
    | [] => Ok []
    | first :: rest => group_blocks slave_id f max_blocks [] first 1 first rest
    end.

(** ** ffd_pack.c *)

Definition mb_init_pdu (slave_id f : Z) : mb_pdu_t :=
  mk_pdu slave_id f 0 0 0.

Definition mb_calc_pdu_data_size (pdu : mb_pdu_t) : Z :=
  if pdu_quantity pdu =? 0 then 0
  else
    let unit_size := mb_fc_get_unit_size (pdu_function_code pdu) in
    if unit_size =? 1 then to_u16 ((pdu_quantity pdu + 7) / 8)
    else if unit_size =? 2 then to_u16 (pdu_quantity pdu * 2)
    else 0.

Definition mb_block_fits_pdu (block : mb_block_t) (pdu : mb_pdu_t)
  (max_pdu_chars : Z) : bool :=
  if pdu_quantity pdu =? 0 then
    mb_block_calc_data_size block <=? max_pdu_chars
  else if negb ((blk_slave_id block =? pdu_slave_id pdu) &&
                (blk_function_code block =? pdu_function_code pdu)) then false
  else
    let min_addr :=
      if blk_start_address block <? pdu_start_address pdu
      then blk_start_address block else pdu_start_address pdu in
    let block_end := blk_start_address block + blk_quantity block in
    let pdu_end := pdu_start_address pdu + pdu_quantity pdu in
    let max_end := if block_end >? pdu_end then block_end else pdu_end in
    let merged_quantity := to_u16 (max_end - min_addr) in
    let max_qty := mb_fc_get_max_quantity (blk_function_code block) in
    if merged_quantity >? max_qty then false
    else
      let unit_size := mb_fc_get_unit_size (blk_function_code block) in
      if unit_size =? 1 then to_u16 ((merged_quantity + 7) / 8) <=? max_pdu_chars
      else if unit_size =? 2 then to_u16 (merged_quantity * 2) <=? max_pdu_chars
      else false.

Definition mb_add_block_to_pdu (block : mb_block_t) (pdu : mb_pdu_t) : mb_pdu_t :=
  if pdu_quantity pdu =? 0 then
    mk_pdu (blk_slave_id block) (blk_function_code block)
      (blk_start_address block) (blk_quantity block)
      (mb_block_calc_data_size block)
  else
    let min_addr :=
      if blk_start_address block <? pdu_start_address pdu
      then blk_start_address block else pdu_start_address pdu in
    let block_end := blk_start_address block + blk_quantity block in
    let pdu_end := pdu_start_address pdu + pdu_quantity pdu in
    let max_end := if block_end >? pdu_end then block_end else pdu_end in
    let grown :=
      mk_pdu (pdu_slave_id pdu) (pdu_function_code pdu) min_addr
        (to_u16 (max_end - min_addr)) (pdu_total_chars pdu) in
    mk_pdu (pdu_slave_id grown) (pdu_function_code grown)
      (pdu_start_address grown) (pdu_quantity grown)
      (mb_calc_pdu_data_size grown).

(** The first-fit scan over the PDUs opened so far: [Some] with the block
    added to the first PDU that takes it, [None] when none does. *)
Fixpoint first_fit (block : mb_block_t) (max_pdu_chars : Z)
  (pdus : list mb_pdu_t) : option (list mb_pdu_t) :=
  match pdus with
  | [] => None
  | p :: ps =>
      if mb_block_fits_pdu block p max_pdu_chars
      then Some (mb_add_block_to_pdu block p :: ps)
      else option_map (cons p) (first_fit block max_pdu_chars ps)
  end.

(** The packing loop over the sorted blocks. *)
Fixpoint ffd_place (blocks : list mb_block_t) (max_pdu_chars max_pdus : Z)
  (pdus : list mb_pdu_t) : result (list mb_pdu_t) :=
  match blocks with
  | [] => Ok pdus
  | block :: rest =>
      match first_fit block max_pdu_chars pdus with
      | Some pdus' => ffd_place rest max_pdu_chars max_pdus pdus'
      | None =>
          if len pdus >=? max_pdus then Err MB_ERROR_TOO_MANY_BLOCKS
          else
            ffd_place rest max_pdu_chars max_pdus
              (pdus ++ [mb_add_block_to_pdu block
                          (mb_init_pdu (blk_slave_id block) (blk_function_code block))])
      end
  end.

Definition mb_ffd_pack (blocks : list mb_block_t) (max_pdu_chars max_pdus : Z)
  : result (list mb_pdu_t) :=
  if len blocks =? 0 then Ok []
  else ffd_place (mb_block_sort_by_quantity_desc blocks) max_pdu_chars max_pdus [].

(** ** request_optimizer.c *)

Record mb_request_plan_t : Set := mk_plan {
  plan_slave_id : Z;
  plan_function_code : Z;
  plan_start_address : Z;
  plan_quantity : Z
}.

Record mb_read_request_t : Set := mk_request {
  req_slave_id : Z;
  req_function_code : Z;
  req_addresses : list Z     (* [address_count] is the length of the array *)
}.

Definition address_count (request : mb_read_request_t) : Z :=
  len (req_addresses request).

(** How the intermediate arrays are obtained: from the heap, sized for the
    worst case, or ([MB_USE_STATIC_MEMORY]) from arrays of [MB_MAX_BLOCKS]
    and [MB_MAX_PDUS] cells. *)
Inductive mb_memory_t : Set :=
| heap_memory
| static_memory (MB_MAX_BLOCKS MB_MAX_PDUS : Z).

Definition plan_of_pdu (p : mb_pdu_t) : mb_request_plan_t :=
  mk_plan (pdu_slave_id p) (pdu_function_code p) (pdu_start_address p) (pdu_quantity p).

(** [mb_addresses_to_blocks] as [mb_optimize_request] calls it.  The call
    lists its arguments as (slave_id, function_code, addresses,
    address_count, ...) where the function declares (addresses, count,
    slave_id, fc, ...): the callee's [addresses] is [request->slave_id]
    converted to a pointer, its [count] is [request->function_code], its
    [slave_id] is the low byte of the address of the array and its [fc] the
    low byte of [address_count].  These are the checks of the function in
    the order of the source, up to its first read through [addresses]: no
    array lives at an address below 256, the read has no defined behaviour,
    and the call has no result there ([None]). *)
Definition mb_addresses_to_blocks_at (address count f max_blocks : Z)
  : option (result (list mb_block_t)) :=
  if address =? 0 then Some (Err MB_ERROR_INVALID_PARAM)
  else if count =? 0 then Some (Ok [])
  else if negb (mb_fc_is_valid f) then Some (Err MB_ERROR_INVALID_FC)
  else None.

(** [Some r]: the call returns [r]; [None]: it runs into the read described
    above.  With [heap_memory] every allocation is granted, the one of zero
    bytes for [pdus] included (where [malloc(0)] gives a null pointer the
    call returns [MB_ERROR_NO_MEMORY] instead).  [cost_params] is a local
    that [mb_init_cost_params] leaves as it is when the function code has no
    policy; the merger does not read it when there is no block. *)
Definition mb_optimize_request (memory : mb_memory_t) (request : mb_read_request_t)
  (mode : mb_mode_t) (max_pdu_chars latency_chars max_plans : Z)
  : option (result (list mb_request_plan_t)) :=
  if address_count request =? 0 then Some (Ok [])
  else if max_plans =? 0 then Some (Err MB_ERROR_INVALID_PARAM)
  else
    let max_blocks :=
      match memory with
      | heap_memory => address_count request
      | static_memory mb _ => mb
      end in
    match mb_addresses_to_blocks_at (req_slave_id request) (req_function_code request)
            (to_u8 (address_count request)) max_blocks with
    | None => None
    | Some (Err e) => Some (Err e)
    | Some (Ok blocks) =>
        let cost_params :=
          mb_init_cost_params mode (req_function_code request) latency_chars
            (mk_cost 0 0 0 0) in
        match mb_merge_block_array blocks cost_params with
        | Err e => Some (Err e)
        | Ok blocks =>
            let max_pdus :=
              match memory with
              | heap_memory => len blocks
              | static_memory _ mp => mp
              end in
            match mb_ffd_pack blocks max_pdu_chars max_pdus with
            | Err e => Some (Err e)
            | Ok pdus =>
                if len pdus >? max_plans then Some (Err MB_ERROR_TOO_MANY_PLANS)
                else Some (Ok (map plan_of_pdu pdus))
            end
        end
    end.

(** ** Checksums *)

(** Modelled from the spec: [crc16.c] is not among the sources (its header,
    its unit test and its callers are).  CRC-16/Modbus: reflected polynomial
    0xA001, initial value 0xFFFF, no final XOR, one byte at a time, least
    significant bit first. *)
Definition crc16_shift (crc : Z) : Z :=
  if Z.testbit crc 0 then Z.lxor (Z.shiftr crc 1) 40961 (* 0xA001 *)
  else Z.shiftr crc 1.

Definition crc16_update (crc byte : Z) : Z :=
  Nat.iter 8 crc16_shift (Z.lxor crc byte).

Definition mb_crc16 (data : list Z) : Z :=
  fold_left crc16_update data 65535 (* 0xFFFF *).

(** Modelled from the spec: [mb_crc16_verify] of the absent [crc16.c]
    recomputes the CRC over all but the last two bytes and compares it with
    those two bytes read as (low, high).  The unit test has it reject a frame
    that is too short to hold a CRC; as [mb_lrc_verify] does, the model asks
    for one byte of data before the check bytes. *)
Definition mb_crc16_verify (frame : list Z) : bool :=
  if len frame <? 3 then false
  else
    let n := (length frame - 2)%nat in
    let calculated_crc := mb_crc16 (firstn n frame) in
    let frame_crc := Z.lor (nth n frame 0) (Z.shiftl (nth (S n) frame 0) 8) in
    calculated_crc =? frame_crc.

(** lrc.c *)

Definition to_i8 (z : Z) : Z :=
  let w := z mod 256 in if w <? 128 then w else w - 256.

Definition mb_lrc (data : list Z) : Z :=
  if len data =? 0 then 0
  else
    let lrc := fold_left (fun lrc byte => to_u8 (lrc + byte)) data 0 in
    to_u8 (- to_i8 lrc).

Definition mb_lrc_verify (frame : list Z) : bool :=
  if len frame <? 2 then false
  else
    let n := (length frame - 1)%nat in
    let calculated_lrc := mb_lrc (firstn n frame) in
    let frame_lrc := nth n frame 0 in
    calculated_lrc =? frame_lrc.

(** ** rtu_frame.c *)

(** [frame_data[i]] *)
Definition byte_at (frame : list Z) (i : Z) : Z := nth (Z.to_nat i) frame 0.

(** The decoded fields of a frame. *)
Record mb_frame_t : Set := mk_frame {
  frame_slave_id : Z;
  frame_fc : Z;
  frame_pdu : list Z
}.

Definition mb_rtu_build_frame (slave_id f : Z) (pdu_data : list Z)
  (buffer_size : Z) : result (list Z) :=
  let pdu_length := len pdu_data in
  let required_size := to_u16 (1 + 1 + pdu_length + 2) in
  if buffer_size <? required_size then Err MB_ERROR_BUFFER_TOO_SMALL
  else
    let body := slave_id :: f :: pdu_data in
    let crc := mb_crc16 body in
    Ok (body ++ [to_u8 (Z.land crc 255); to_u8 (Z.land (Z.shiftr crc 8) 255)]).

Definition mb_rtu_parse_frame (frame_data : list Z) : result mb_frame_t :=
  let frame_length := len frame_data in
  if frame_length <? 4 then Err MB_ERROR_INVALID_FRAME
  else if negb (mb_crc16_verify frame_data) then Err MB_ERROR_CRC_MISMATCH
  else
    let pdu_length := to_u16 (frame_length - 4) in
    Ok (mk_frame (byte_at frame_data 0) (byte_at frame_data 1)
          (firstn (Z.to_nat pdu_length) (skipn 2 frame_data))).

(** ** tcp_frame.c *)

Definition mb_tcp_build_frame (transaction_id unit_id f : Z) (pdu_data : list Z)
  (buffer_size : Z) : result (list Z) :=
  let pdu_length := len pdu_data in
  let required_size := to_u16 (7 + 1 + pdu_length) in
  if buffer_size <? required_size then Err MB_ERROR_BUFFER_TOO_SMALL
  else
    let length := to_u16 (1 + 1 + pdu_length) in
    Ok ([ to_u8 (Z.land (Z.shiftr transaction_id 8) 255);
          to_u8 (Z.land transaction_id 255);
          0; 0;
          to_u8 (Z.land (Z.shiftr length 8) 255);
          to_u8 (Z.land length 255);
          unit_id; f ] ++ pdu_data).

(** Big-endian pair [(hi << 8) | lo] as a [uint16_t]. *)
Definition be16 (hi lo : Z) : Z := to_u16 (Z.lor (Z.shiftl hi 8) lo).

Definition mb_tcp_parse_frame (frame_data : list Z) : result (Z * mb_frame_t) :=
  let frame_length := len frame_data in
  if frame_length <? 8 then Err MB_ERROR_INVALID_FRAME
  else
    let transaction_id := be16 (byte_at frame_data 0) (byte_at frame_data 1) in
    let protocol_id := be16 (byte_at frame_data 2) (byte_at frame_data 3) in
    if negb (protocol_id =? 0) then Err MB_ERROR_INVALID_FRAME
    else
      let length := be16 (byte_at frame_data 4) (byte_at frame_data 5) in
      if negb (6 + length =? frame_length) then Err MB_ERROR_INVALID_FRAME
      else
        let pdu_length := to_u16 (length - 2) in
        Ok (transaction_id,
            mk_frame (byte_at frame_data 6) (byte_at frame_data 7)
              (firstn (Z.to_nat pdu_length) (skipn 8 frame_data))).

(** ** ascii_frame.c *)

(** Character constants, as the bytes they are stored as. *)
Definition ch_0 : Z := 48.
Definition ch_9 : Z := 57.
Definition ch_A : Z := 65.
Definition ch_F : Z := 70.
Definition ch_a : Z := 97.
Definition ch_f : Z := 102.
Definition ch_colon : Z := 58.
Definition ch_CR : Z := 13.
Definition ch_LF : Z := 10.

(** ["0123456789ABCDEF"] *)
Definition hex_chars : list Z :=
  [48; 49; 50; 51; 52; 53; 54; 55; 56; 57; 65; 66; 67; 68; 69; 70].

Definition byte_to_hex (byte : Z) : list Z :=
  [ nth (Z.to_nat (Z.land (Z.shiftr byte 4) 15)) hex_chars 0;
    nth (Z.to_nat (Z.land byte 15)) hex_chars 0 ].

(** One nibble of [hex_to_byte]; [None] stands for its [return -1]. *)
Definition hex_nibble (c : Z) : option Z :=
  if (c >=? ch_0) && (c <=? ch_9) then Some (to_u8 (c - ch_0))
  else if (c >=? ch_A) && (c <=? ch_F) then Some (to_u8 (c - ch_A + 10))
  else if (c >=? ch_a) && (c <=? ch_f) then Some (to_u8 (c - ch_a + 10))
  else None.

Definition hex_to_byte (hex0 hex1 : Z) : option Z :=
  match hex_nibble hex0 with
  | None => None
  | Some high =>
      match hex_nibble hex1 with
      | None => None
      | Some low => Some (to_u8 (Z.lor (Z.shiftl high 4) low))
      end
  end.

(** The source computes the LRC over a copy of the slave id, the function
    code and the PDU in [lrc_data[256]].  A PDU of more than 254 bytes does
    not fit that array, and a call that gets past the size check with such
    a PDU has no defined behaviour: the embedding describes the calls with
    [pdu_length <= 254] or [buffer_size <= 518]. *)
Definition mb_ascii_build_frame (slave_id f : Z) (pdu_data : list Z)
  (buffer_size : Z) : result (list Z) :=
  let pdu_length := len pdu_data in
  let required_size := to_u16 (1 + 2 + 2 + pdu_length * 2 + 2 + 2) in
  if buffer_size <? required_size then Err MB_ERROR_BUFFER_TOO_SMALL
  else
    let lrc_data := slave_id :: f :: pdu_data in
    let lrc := mb_lrc lrc_data in
    Ok ([ch_colon] ++ byte_to_hex slave_id ++ byte_to_hex f ++
        flat_map byte_to_hex pdu_data ++
        byte_to_hex lrc ++ [ch_CR; ch_LF]).

(** The PDU loop of the parser: [n] bytes are decoded from position [pos];
    [None] stands for the [MB_ERROR_INVALID_FRAME] exit inside the loop. *)
Fixpoint parse_hex_pdu (frame_data : list Z) (pos : Z) (n : nat) : option (list Z) :=
  match n with
  | O => Some []
  | S k =>
      match hex_to_byte (byte_at frame_data pos) (byte_at frame_data (pos + 1)) with
      | None => None
      | Some b =>
          match parse_hex_pdu frame_data (pos + 2) k with
          | None => None
          | Some bs => Some (b :: bs)
          end
      end
  end.

(** The LRC is verified over a copy of the slave id, the function code and
    the decoded PDU in [lrc_data[256]].  A frame of 519 characters or more
    decodes to more than 254 PDU bytes, which do not fit that array: the
    embedding describes the calls with [frame_length <= 518]. *)
Definition mb_ascii_parse_frame (frame_data : list Z) : result mb_frame_t :=
  let frame_length := len frame_data in
  if frame_length <? 9 then Err MB_ERROR_INVALID_FRAME
  else if negb (byte_at frame_data 0 =? ch_colon) then Err MB_ERROR_INVALID_FRAME
  else if negb (byte_at frame_data (frame_length - 2) =? ch_CR) ||
          negb (byte_at frame_data (frame_length - 1) =? ch_LF)
       then Err MB_ERROR_INVALID_FRAME
  else
    match hex_to_byte (byte_at frame_data 1) (byte_at frame_data 2) with
    | None => Err MB_ERROR_INVALID_FRAME
    | Some slave_id =>
        match hex_to_byte (byte_at frame_data 3) (byte_at frame_data 4) with
        | None => Err MB_ERROR_INVALID_FRAME
        | Some f =>
            let pdu_hex_len := to_u16 (frame_length - 1 - 2 - 2 - 2 - 2) in
            let pdu_length := pdu_hex_len / 2 in
            match parse_hex_pdu frame_data 5 (Z.to_nat pdu_length) with
            | None => Err MB_ERROR_INVALID_FRAME
            | Some pdu_data =>
                let pos := if pdu_length >? 0 then 5 + 2 * pdu_length
                           else to_u16 (5 + pdu_hex_len) in
                match hex_to_byte (byte_at frame_data pos)
                        (byte_at frame_data (pos + 1)) with
                | None => Err MB_ERROR_INVALID_FRAME
                | Some frame_lrc =>
                    let calculated_lrc := mb_lrc (slave_id :: f :: pdu_data) in
                    if negb (calculated_lrc =? frame_lrc)
                    then Err MB_ERROR_LRC_MISMATCH
                    else Ok (mk_frame slave_id f pdu_data)
                end
            end
        end
    end.

(** ** frame_builder.c (all three variants compiled in) *)

Definition mb_build_frame (slave_id f : Z) (pdu_data : list Z) (mode : mb_mode_t)
  (buffer_size : Z) : result (list Z) :=
  match mode with
  | MB_MODE_RTU => mb_rtu_build_frame slave_id f pdu_data buffer_size
  | MB_MODE_ASCII => mb_ascii_build_frame slave_id f pdu_data buffer_size
  | MB_MODE_TCP => mb_tcp_build_frame 0 slave_id f pdu_data buffer_size
  end.

Definition mb_parse_frame (frame_data : list Z) (mode : mb_mode_t) : result mb_frame_t :=
  match mode with
  | MB_MODE_RTU => mb_rtu_parse_frame frame_data
  | MB_MODE_ASCII => mb_ascii_parse_frame frame_data
  | MB_MODE_TCP =>
      match mb_tcp_parse_frame frame_data with
      | Ok (_, fr) => Ok fr
      | Err e => Err e
      end
  end.

Definition mb_rtu_calc_frame_length (pdu_length : Z) : Z :=
  to_u16 (1 + 1 + pdu_length + 2).

Definition mb_ascii_calc_frame_length (pdu_length : Z) : Z :=
  to_u16 (1 + 2 + 2 + pdu_length * 2 + 2 + 2).

Definition mb_tcp_calc_frame_length (pdu_length : Z) : Z :=
  to_u16 (7 + 1 + pdu_length).

Definition mb_calc_frame_length (pdu_length : Z) (mode : mb_mode_t) : Z :=
  match mode with
  | MB_MODE_RTU => mb_rtu_calc_frame_length pdu_length
  | MB_MODE_ASCII => mb_ascii_calc_frame_length pdu_length
  | MB_MODE_TCP => mb_tcp_calc_frame_length pdu_length
  end.

(** ** response_parser.c *)

(** What a read response leaves in the caller's buffer: bytes for the bit
    kinds ([uint8_t *]), words for the register kinds ([uint16_t *]). *)
Inductive mb_read_data_t : Set :=
| read_bits (bytes : list Z)
| read_registers (words : list Z).

Definition parse_read_bits_response (pdu_data : list Z) (quantity : Z)
  : result (list Z) :=
  let pdu_length := len pdu_data in
  if pdu_length <? 1 then Err MB_ERROR_INVALID_FRAME
  else
    let byte_count := byte_at pdu_data 0 in
    let expected_bytes := to_u16 ((quantity + 7) / 8) in
    if negb (byte_count =? expected_bytes) || (pdu_length <? 1 + byte_count)
    then Err MB_ERROR_INVALID_FRAME
    else Ok (firstn (Z.to_nat byte_count) (skipn 1 pdu_data)).

(** The conversion loop: cell [i] of the output is the big-endian pair at
    offset [1 + 2 i]. *)
Fixpoint read_register_words (pdu_data : list Z) (i : Z) (n : nat) : list Z :=
  match n with
  | O => []
  | S k =>
      let offset := to_u16 (1 + i * 2) in
      be16 (byte_at pdu_data offset) (byte_at pdu_data (offset + 1))
        :: read_register_words pdu_data (i + 1) k
  end.

Definition parse_read_registers_response (pdu_data : list Z) (quantity : Z)
  : result (list Z) :=
  let pdu_length := len pdu_data in
  if pdu_length <? 1 then Err MB_ERROR_INVALID_FRAME
  else
    let byte_count := byte_at pdu_data 0 in
    let expected_bytes := to_u16 (quantity * 2) in
    if negb (byte_count =? expected_bytes) || (pdu_length <? 1 + byte_count)
    then Err MB_ERROR_INVALID_FRAME
    else Ok (read_register_words pdu_data 0 (Z.to_nat quantity)).

Definition mb_parse_read_response (f : Z) (pdu_data : list Z) (quantity : Z)
  : result mb_read_data_t :=
  if negb (Z.land f 128 =? 0) then
    if len pdu_data >=? 1 then Err MB_ERROR_EXCEPTION_RESPONSE
    else Err MB_ERROR_INVALID_FRAME
  else if (f =? MB_FC_READ_COILS) || (f =? MB_FC_READ_DISCRETE_INPUTS) then
    match parse_read_bits_response pdu_data quantity with
    | Ok bytes => Ok (read_bits bytes)
    | Err e => Err e
    end
  else if (f =? MB_FC_READ_HOLDING_REGISTERS) || (f =? MB_FC_READ_INPUT_REGISTERS) then
    match parse_read_registers_response pdu_data quantity with
    | Ok words => Ok (read_registers words)
    | Err e => Err e
    end
  else Err MB_ERROR_INVALID_FC.

(** The write parsers only check the response; [Ok tt] is [MB_SUCCESS]. *)
Definition parse_write_single_coil_response (pdu_data : list Z)
  (expected_addr : Z) (expected_value : bool) : result unit :=
  if len pdu_data <? 4 then Err MB_ERROR_INVALID_FRAME
  else
    let addr := be16 (byte_at pdu_data 0) (byte_at pdu_data 1) in
    let value := be16 (byte_at pdu_data 2) (byte_at pdu_data 3) in
    if negb (addr =? expected_addr) then Err MB_ERROR_INVALID_FRAME
    else
      let actual_value := value =? 65280 (* 0xFF00 *) in
      if negb (Bool.eqb actual_value expected_value) then Err MB_ERROR_INVALID_FRAME
      else Ok tt.

Definition parse_write_single_register_response (pdu_data : list Z)
  (expected_addr expected_value : Z) : result unit :=
  if len pdu_data <? 4 then Err MB_ERROR_INVALID_FRAME
  else
    let addr := be16 (byte_at pdu_data 0) (byte_at pdu_data 1) in
    let value := be16 (byte_at pdu_data 2) (byte_at pdu_data 3) in
    if negb (addr =? expected_addr) || negb (value =? expected_value)
    then Err MB_ERROR_INVALID_FRAME
    else Ok tt.

Definition parse_write_multiple_response (pdu_data : list Z)
  (expected_addr expected_quantity : Z) : result unit :=
  if len pdu_data <? 4 then Err MB_ERROR_INVALID_FRAME
  else
    let addr := be16 (byte_at pdu_data 0) (byte_at pdu_data 1) in
    let quantity := be16 (byte_at pdu_data 2) (byte_at pdu_data 3) in
    if negb (addr =? expected_addr) || negb (quantity =? expected_quantity)
    then Err MB_ERROR_INVALID_FRAME
    else Ok tt.

(** The object behind [const void *expected_data]: nothing ([NULL]), the
    [bool] a coil write passes, or the [uint16_t] a register write passes. *)
Inductive mb_expected_t : Set :=
| expected_null
| expected_coil (value : bool)
| expected_register (value : Z).

(** A [uint16_t] object read through [const bool *], and a [bool] object read
    through [const uint16_t *]: not what the callers do; the embedding reads
    the value of the object. *)
Definition expected_as_bool (e : mb_expected_t) : bool :=
  match e with
  | expected_coil v => v
  | expected_register v => negb (v =? 0)
  | expected_null => false
  end.

Definition expected_as_u16 (e : mb_expected_t) : Z :=
  match e with
  | expected_register v => v
  | expected_coil v => if v then 1 else 0
  | expected_null => 0
  end.

Definition mb_parse_write_response (f : Z) (pdu_data : list Z)
  (address quantity : Z) (expected_data : mb_expected_t) : result unit :=
  if negb (Z.land f 128 =? 0) then
    if len pdu_data >=? 1 then Err MB_ERROR_EXCEPTION_RESPONSE
    else Err MB_ERROR_INVALID_FRAME
  else if f =? MB_FC_WRITE_SINGLE_COIL then
    match expected_data with
    | expected_null => Err MB_ERROR_INVALID_PARAM
    | _ => parse_write_single_coil_response pdu_data address
             (expected_as_bool expected_data)
    end
  else if f =? MB_FC_WRITE_SINGLE_REGISTER then
    match expected_data with
    | expected_null => Err MB_ERROR_INVALID_PARAM
    | _ => parse_write_single_register_response pdu_data address
             (expected_as_u16 expected_data)
    end
  else if (f =? MB_FC_WRITE_MULTIPLE_COILS) || (f =? MB_FC_WRITE_MULTIPLE_REGISTERS) then
    parse_write_multiple_response pdu_data address quantity
  else Err MB_ERROR_INVALID_FC.

Definition mb_get_exception_code (pdu_data : list Z) : Z :=
  if len pdu_data <? 1 then 0 else byte_at pdu_data 0.

(** ** memory_pool.c

    The block, PDU and plan pools are three copies of the same code; the
    embedding has it once, over the type of the cells.  A pointer into the
    array of cells is the index of its cell, [None] a pointer to anything
    else (or [NULL]). *)

Record mb_pool_t (A : Type) : Type := mk_pool {
  pool_cells : list A;       (* [blocks], [pdus] or [plans] *)
  pool_used : list bool;     (* as long as the array of cells *)
  pool_count : Z             (* uint16_t *)
}.

Arguments mk_pool {A} _ _ _.
Arguments pool_cells {A} _.
Arguments pool_used {A} _.
Arguments pool_count {A} _.

(** [memset (pool->used, 0, ...)] *)
Definition mb_pool_init {A : Type} (pool : mb_pool_t A) : mb_pool_t A :=
  mk_pool (pool_cells pool) (map (fun _ => false) (pool_used pool)) 0.

(** The search loop of the allocator from cell [i] on: the index of the
    first cell that is not in use. *)
Fixpoint first_free (used : list bool) (i : nat) : option nat :=
  match used with
  | [] => None
  | u :: rest => if negb u then Some i else first_free rest (S i)
  end.

(** Cell [i] replaced by [v]. *)
Fixpoint set_cell {A : Type} (l : list A) (i : nat) (v : A) : list A :=
  match l, i with
  | [], _ => []
  | _ :: t, O => v :: t
  | x :: t, S k => x :: set_cell t k v
  end.

(** [zero] is the cell that [memset (..., 0, ...)] leaves.  The result is the
    pointer returned ([None] for [NULL]) and the pool afterwards. *)
Definition mb_pool_alloc {A : Type} (zero : A) (pool : mb_pool_t A)
  : option nat * mb_pool_t A :=
  match first_free (pool_used pool) 0 with
  | Some i =>
      (Some i,
       mk_pool (set_cell (pool_cells pool) i zero)
         (set_cell (pool_used pool) i true)
         (to_u16 (pool_count pool + 1)))
  | None => (None, pool)
  end.

Definition mb_pool_free {A : Type} (pool : mb_pool_t A) (cell : option nat)
  : mb_pool_t A :=
  match cell with
  | None => pool
  | Some i =>
      if (i <? length (pool_used pool))%nat then
        mk_pool (pool_cells pool) (set_cell (pool_used pool) i false)
          (if pool_count pool >? 0 then to_u16 (pool_count pool - 1)
           else pool_count pool)
      else pool
  end.

(** [MB_MAX_BLOCKS - pool->count] *)
Definition mb_pool_available {A : Type} (pool : mb_pool_t A) : Z :=
  to_u16 (len (pool_used pool) - pool_count pool).

(** The three pools of the source. *)
Definition mb_block_pool_init := @mb_pool_init mb_block_t.
Definition mb_block_pool_alloc := mb_pool_alloc (mk_block 0 0 0 0 false).
Definition mb_block_pool_free := @mb_pool_free mb_block_t.
Definition mb_block_pool_available := @mb_pool_available mb_block_t.

Definition mb_pdu_pool_init := @mb_pool_init mb_pdu_t.
Definition mb_pdu_pool_alloc := mb_pool_alloc (mk_pdu 0 0 0 0 0).
Definition mb_pdu_pool_free := @mb_pool_free mb_pdu_t.
Definition mb_pdu_pool_available := @mb_pool_available mb_pdu_t.

Definition mb_plan_pool_init := @mb_pool_init mb_request_plan_t.
Definition mb_plan_pool_alloc := mb_pool_alloc (mk_plan 0 0 0 0).
Definition mb_plan_pool_free := @mb_pool_free mb_request_plan_t.
Definition mb_plan_pool_available := @mb_pool_available mb_request_plan_t.

(** ** mb_config.h, master_api.c *)

Record mb_stats_t : Set := mk_stats {
  total_requests : Z;      (* uint32_t, as the five below *)
  optimized_requests : Z;
  rounds_saved : Z;
  blocks_merged : Z;
  total_chars_sent : Z;
  total_chars_recv : Z
}.

Section Master.

(** What the transport's [context] pointer gives access to: the state of the
    line and of the devices on it. *)
Variable world : Type.

(** The two callbacks the master uses; [None] is a [NULL] function pointer.
    [send] returns its [int]; [recv] returns its [int] and the bytes it has
    stored in the buffer ([*received] is their number). *)
Record mb_transport_t : Type := mk_transport {
  send : option (world -> list Z -> Z * world);
  recv : option (world -> Z -> Z * list Z * world)
}.

Record mb_config_t : Type := mk_config {
  mode : mb_mode_t;
  max_pdu_chars : Z;
  gap_chars : Z;
  latency_chars : Z;
  transport : mb_transport_t;
  timeout_ms : Z
}.

Record mb_master_t : Type := mk_master {
  config : mb_config_t;
  transaction_id : Z;
  stats : mb_stats_t
}.

(** Build-time choice between heap and static arrays. *)
Variable memory : mb_memory_t.

(** [mb_parse_read_response] copies the bytes of a bit response with [memcpy]
    into [temp_buffer], an array of [uint16_t]; [store_bytes temp bytes] is
    that array afterwards (it depends on the byte order of the host). *)
Variable store_bytes : list Z -> list Z -> list Z.

(** A register response overwrites the first cells of [temp_buffer]. *)
Definition store_words (temp words : list Z) : list Z :=
  words ++ skipn (length words) temp.

Definition store_read_data (temp : list Z) (d : mb_read_data_t) : list Z :=
  match d with
  | read_bits bytes => store_bytes temp bytes
  | read_registers words => store_words temp words
  end.

(** The running state of the plan loop: statistics, transport state,
    [temp_buffer], [data_index], and the stores made to the caller's
    [data_buffer] so far, oldest first, each as (index, value). *)
Record exec_t : Type := mk_exec {
  ex_stats : mb_stats_t;
  ex_world : world;
  ex_temp : list Z;
  ex_data_index : Z;
  ex_writes : list (Z * Z)
}.

Definition bump_total_requests (s : mb_stats_t) : mb_stats_t :=
  mk_stats (to_u32 (total_requests s + 1)) (optimized_requests s) (rounds_saved s)
    (blocks_merged s) (total_chars_sent s) (total_chars_recv s).

Definition add_chars (s : mb_stats_t) (sent received : Z) : mb_stats_t :=
  mk_stats (total_requests s) (optimized_requests s) (rounds_saved s)
    (blocks_merged s) (to_u32 (total_chars_sent s + sent))
    (to_u32 (total_chars_recv s + received)).

Definition with_stats (st : exec_t) (s : mb_stats_t) : exec_t :=
  mk_exec s (ex_world st) (ex_temp st) (ex_data_index st) (ex_writes st).

Definition with_world (st : exec_t) (w : world) : exec_t :=
  mk_exec (ex_stats st) w (ex_temp st) (ex_data_index st) (ex_writes st).

(** The copy loop [for (j = 0; j < plan->quantity && data_index < buffer_size; j++)]
    with [n] iterations of [j] left. *)
Fixpoint copy_words (temp : list Z) (buffer_size j : Z) (n : nat)
  (data_index : Z) (writes : list (Z * Z)) : Z * list (Z * Z) :=
  match n with
  | O => (data_index, writes)
  | S k =>
      if data_index <? buffer_size then
        copy_words temp buffer_size (j + 1) k (to_u16 (data_index + 1))
          (writes ++ [(data_index, byte_at temp j)])
      else (data_index, writes)
  end.

(** One iteration of the plan loop: [inl e] is a [return e] out of the
    function, [inr] the fall through to the next plan. *)
Definition execute_plan (cfg : mb_config_t) (buffer_size : Z)
  (plan : mb_request_plan_t) (st : exec_t) : (mb_error_t * exec_t) + exec_t :=
  let pdu_data :=
    [ to_u8 (Z.land (Z.shiftr (plan_start_address plan) 8) 255);
      to_u8 (Z.land (plan_start_address plan) 255);
      to_u8 (Z.land (Z.shiftr (plan_quantity plan) 8) 255);
      to_u8 (Z.land (plan_quantity plan) 255) ] in
  match mb_build_frame (plan_slave_id plan) (plan_function_code plan) pdu_data
          (mode cfg) 260 with
  | Err e => inl (e, with_stats st (bump_total_requests (ex_stats st)))
  | Ok frame_buffer =>
      let frame_length := len frame_buffer in
      match send (transport cfg) with
      | None => inl (MB_ERROR_TRANSPORT, st)
      | Some send_fn =>
          let '(sent, w1) := send_fn (ex_world st) frame_buffer in
          let st := with_world st w1 in
          if sent <? 0 then
            inl (MB_ERROR_TRANSPORT, with_stats st (bump_total_requests (ex_stats st)))
          else
            match recv (transport cfg) with
            | None => inl (MB_ERROR_TRANSPORT, st)
            | Some recv_fn =>
                let '(recv_result, response_buffer, w2) := recv_fn (ex_world st) 260 in
                let st := with_world st w2 in
                let received := len response_buffer in
                if (recv_result <? 0) || (received =? 0) then
                  inl (MB_ERROR_TIMEOUT,
                       with_stats st (bump_total_requests (ex_stats st)))
                else
                  match mb_parse_frame
                          (firstn (Z.to_nat (to_u16 received)) response_buffer)
                          (mode cfg) with
                  | Err e => inl (e, with_stats st (bump_total_requests (ex_stats st)))
                  | Ok resp =>
                      if negb (frame_slave_id resp =? plan_slave_id plan) then
                        inl (MB_ERROR_INVALID_FRAME,
                             with_stats st (bump_total_requests (ex_stats st)))
                      else
                        match mb_parse_read_response (frame_fc resp) (frame_pdu resp)
                                (plan_quantity plan) with
                        | Err e =>
                            inl (e, with_stats st (bump_total_requests (ex_stats st)))
                        | Ok d =>
                            let temp := store_read_data (ex_temp st) d in
                            let '(data_index, writes) :=
                              copy_words temp buffer_size 0
                                (Z.to_nat (plan_quantity plan))
                                (ex_data_index st) (ex_writes st) in
                            let s := bump_total_requests (ex_stats st) in
                            let s := bump_total_requests s in
                            let s := add_chars s frame_length received in
                            inr (mk_exec s (ex_world st) temp data_index writes)
                        end
                  end
            end
      end
  end.

(** The loop over [plans[0 .. plan_count - 1]]. *)
Fixpoint execute_plans (cfg : mb_config_t) (buffer_size : Z)
  (plans : list mb_request_plan_t) (st : exec_t) : (mb_error_t * exec_t) + exec_t :=
  match plans with
  | [] => inr st
  | plan :: rest =>
      match execute_plan cfg buffer_size plan st with
      | inl stop => inl stop
      | inr st' => execute_plans cfg buffer_size rest st'
      end
  end.

(** What a call leaves behind: the returned code ([Some (Ok tt)] for
    [MB_SUCCESS]; [None] when the call does not return because the optimiser
    has no result), the master context, the transport state and the stores
    made to [data_buffer]. *)
Record mb_read_outcome_t : Type := mk_outcome {
  out_status : option (result unit);
  out_master : mb_master_t;
  out_world : world;
  out_writes : list (Z * Z)
}.

Definition finish_stats (s : mb_stats_t) (address_count plan_count : Z) : mb_stats_t :=
  mk_stats (total_requests s) (to_u32 (optimized_requests s + 1)) (rounds_saved s)
    (to_u32 (blocks_merged s + (address_count - plan_count)))
    (total_chars_sent s) (total_chars_recv s).

(** [temp_buffer] is the content of the local array of that name on entry
    (the source does not initialise it). *)
Definition mb_master_read_optimized (master : mb_master_t)
  (request : mb_read_request_t) (buffer_size : Z) (w : world)
  (temp_buffer : list Z) : mb_read_outcome_t :=
  if buffer_size <? address_count request then
    mk_outcome (Some (Err MB_ERROR_BUFFER_TOO_SMALL)) master w []
  else
    let cfg := config master in
    match mb_optimize_request memory request (mode cfg) (max_pdu_chars cfg)
            (latency_chars cfg) 16 with
    | None => mk_outcome None master w []
    | Some (Err e) => mk_outcome (Some (Err e)) master w []
    | Some (Ok plans) =>
        let plan_count := len plans in
        match execute_plans cfg buffer_size plans
                (mk_exec (stats master) w temp_buffer 0 []) with
        | inl (e, st) =>
            mk_outcome (Some (Err e))
              (mk_master cfg (transaction_id master) (ex_stats st))
              (ex_world st) (ex_writes st)
        | inr st =>
            mk_outcome (Some (Ok tt))
              (mk_master cfg (transaction_id master)
                 (finish_stats (ex_stats st) (address_count request) plan_count))
              (ex_world st) (ex_writes st)
        end
    end.

(** *** Single requests

    What a single-request call leaves behind: the returned code (on success
    with what the response parser has stored through the caller's data
    pointer), the master context and the transport state. *)
Record mb_single_outcome_t (A : Type) : Type := mk_single {
  so_status : result A;
  so_master : mb_master_t;
  so_world : world
}.

(** [mb_master_read_single] and the three write functions each spell out the
    same exchange after they have filled [pdu_data]: build the frame, send it,
    receive the answer, parse the frame, compare the slave id, hand the PDU to
    the response parser, update the statistics.  The embedding has the
    exchange once; [parse_response] is the call of the response parser, given
    [resp_fc] and the PDU of the answer. *)
Definition exchange {A : Type} (master : mb_master_t) (slave_id f : Z)
  (pdu_data : list Z) (parse_response : Z -> list Z -> result A) (w : world)
  : mb_single_outcome_t A :=
  let cfg := config master in
  let counted := mk_master cfg (transaction_id master)
                   (bump_total_requests (stats master)) in
  match mb_build_frame slave_id f pdu_data (mode cfg) 260 with
  | Err e => mk_single A (Err e) master w
  | Ok frame_buffer =>
      let frame_length := len frame_buffer in
      match send (transport cfg) with
      | None => mk_single A (Err MB_ERROR_TRANSPORT) master w
      | Some send_fn =>
          let '(sent, w1) := send_fn w frame_buffer in
          if sent <? 0 then mk_single A (Err MB_ERROR_TRANSPORT) counted w1
          else
            match recv (transport cfg) with
            | None => mk_single A (Err MB_ERROR_TRANSPORT) master w1
            | Some recv_fn =>
                let '(recv_result, response_buffer, w2) := recv_fn w1 260 in
                let received := len response_buffer in
                if (recv_result <? 0) || (received =? 0) then
                  mk_single A (Err MB_ERROR_TIMEOUT) counted w2
                else
                  match mb_parse_frame
                          (firstn (Z.to_nat (to_u16 received)) response_buffer)
                          (mode cfg) with
                  | Err e => mk_single A (Err e) counted w2
                  | Ok resp =>
                      if negb (frame_slave_id resp =? slave_id) then
                        mk_single A (Err MB_ERROR_INVALID_FRAME) counted w2
                      else
                        match parse_response (frame_fc resp) (frame_pdu resp) with
                        | Err e => mk_single A (Err e) counted w2
                        | Ok d =>
                            let s := bump_total_requests (stats master) in
                            let s := bump_total_requests s in
                            let s := add_chars s frame_length received in
                            mk_single A (Ok d)
                              (mk_master cfg (transaction_id master) s) w2
                        end
                  end
            end
      end
  end.

(** [(uint8_t)((x >> 8) & 0xFF)] and [(uint8_t)(x & 0xFF)] *)
Definition hi_lo (x : Z) : list Z :=
  [to_u8 (Z.land (Z.shiftr x 8) 255); to_u8 (Z.land x 255)].

(** On success the status carries what [mb_parse_read_response] has stored
    in [data_buffer]. *)
Definition mb_master_read_single (master : mb_master_t)
  (slave_id f start_addr quantity : Z) (w : world)
  : mb_single_outcome_t mb_read_data_t :=
  if negb (f =? MB_FC_READ_COILS) && negb (f =? MB_FC_READ_DISCRETE_INPUTS) &&
     negb (f =? MB_FC_READ_HOLDING_REGISTERS) && negb (f =? MB_FC_READ_INPUT_REGISTERS)
  then mk_single _ (Err MB_ERROR_INVALID_FC) master w
  else
    let pdu_data := hi_lo start_addr ++ hi_lo quantity in
    exchange master slave_id f pdu_data
      (fun resp_fc pdu_response => mb_parse_read_response resp_fc pdu_response quantity)
      w.

Definition mb_master_write_single_coil (master : mb_master_t)
  (slave_id addr : Z) (value : bool) (w : world) : mb_single_outcome_t unit :=
  let f := MB_FC_WRITE_SINGLE_COIL in
  let pdu_data := hi_lo addr ++ [if value then 255 else 0; 0] in
  exchange master slave_id f pdu_data
    (fun resp_fc pdu_response =>
       mb_parse_write_response resp_fc pdu_response addr 1 (expected_coil value))
    w.

Definition mb_master_write_single_register (master : mb_master_t)
  (slave_id addr value : Z) (w : world) : mb_single_outcome_t unit :=
  let f := MB_FC_WRITE_SINGLE_REGISTER in
  let pdu_data := hi_lo addr ++ hi_lo value in
  exchange master slave_id f pdu_data
    (fun resp_fc pdu_response =>
       mb_parse_write_response resp_fc pdu_response addr 1 (expected_register value))
    w.

(** [values[0 .. quantity - 1]]; a cell past the end of the list reads 0. *)
Definition register_values (values : list Z) (quantity : Z) : list Z :=
  map (fun i => nth i values 0) (seq 0 (Z.to_nat quantity)).

Definition mb_master_write_multiple_registers (master : mb_master_t)
  (slave_id start_addr quantity : Z) (values : list Z) (w : world)
  : mb_single_outcome_t unit :=
  if (quantity =? 0) || (quantity >? 123)
  then mk_single _ (Err MB_ERROR_INVALID_QUANTITY) master w
  else
    let f := MB_FC_WRITE_MULTIPLE_REGISTERS in
    let pdu_data :=
      hi_lo start_addr ++ hi_lo quantity ++ [to_u8 (quantity * 2)] ++
      flat_map hi_lo (register_values values quantity) in
    exchange master slave_id f pdu_data
      (fun resp_fc pdu_response =>
         mb_parse_write_response resp_fc pdu_response start_addr quantity
           expected_null)
      w.

(** [memset (&config, 0, ...)] leaves both callbacks [NULL]. *)
Definition mb_config_default (m : mb_mode_t) : mb_config_t :=
  match m with
  | MB_MODE_RTU | MB_MODE_ASCII => mk_config m 253 4 2 (mk_transport None None) 1000
  | MB_MODE_TCP => mk_config m 253 0 1 (mk_transport None None) 1000
  end.

Definition mb_master_init (cfg : mb_config_t) : mb_master_t :=
  mk_master cfg 0 (mk_stats 0 0 0 0 0 0).

Definition mb_master_get_stats (master : mb_master_t) : mb_stats_t := stats master.

Definition mb_master_reset_stats (master : mb_master_t) : mb_master_t :=
  mk_master (config master) (transaction_id master) (mk_stats 0 0 0 0 0 0).

End Master.

Arguments mk_transport {world} _ _.
Arguments mk_config {world} _ _ _ _ _ _.
Arguments mk_master {world} _ _ _.
Arguments mk_exec {world} _ _ _ _ _.
Arguments mk_outcome {world} _ _ _ _.

Arguments with_stats {world} _ _.
Arguments with_world {world} _ _.
Arguments execute_plan {world} _ _ _ _ _.
Arguments execute_plans {world} _ _ _ _ _.
Arguments mb_master_read_optimized {world} _ _ _ _ _ _ _.
Arguments send {world} _.
Arguments recv {world} _.
Arguments mode {world} _.
Arguments max_pdu_chars {world} _.
Arguments gap_chars {world} _.
Arguments latency_chars {world} _.
Arguments transport {world} _.
Arguments timeout_ms {world} _.
Arguments config {world} _.
Arguments transaction_id {world} _.
Arguments stats {world} _.
Arguments ex_stats {world} _.
Arguments ex_world {world} _.
Arguments ex_temp {world} _.
Arguments ex_data_index {world} _.
Arguments ex_writes {world} _.
Arguments out_status {world} _.
Arguments out_master {world} _.
Arguments out_world {world} _.
Arguments out_writes {world} _.
Arguments mk_single {world A} _ _ _.
Arguments so_status {world A} _.
Arguments so_master {world A} _.
Arguments so_world {world A} _.
Arguments exchange {world A} _ _ _ _ _ _.
Arguments mb_master_read_single {world} _ _ _ _ _ _.
Arguments mb_master_write_single_coil {world} _ _ _ _ _.
Arguments mb_master_write_single_register {world} _ _ _ _ _.
Arguments mb_master_write_multiple_registers {world} _ _ _ _ _ _.
Arguments mb_config_default {world} _.
Arguments mb_master_init {world} _.
Arguments mb_master_get_stats {world} _.
Arguments mb_master_reset_stats {world} _.

(** * Vocabulary of the statements *)

(** The cost formulas as the documentation words them: a gap of [g] units
    costs [ceil (g / 8)] characters for the bit kinds and [2 g] for the
    register kinds; a round trip costs the sum of the four parameters. *)
Definition gap_cost_formula (f g : Z) : Z :=
  if (f =? MB_FC_READ_COILS) || (f =? MB_FC_READ_DISCRETE_INPUTS)
  then (g + 7) / 8 else 2 * g.

Definition overhead_formula (c : mb_cost_params_t) : Z :=
  cp_req_fixed_chars c + cp_resp_fixed_chars c + cp_gap_chars c + cp_latency_chars c.

(** Data bytes of [q] units of function code [f]: [ceil (q / 8)] for the
    bit kinds, [2 q] for the register kinds. *)
Definition data_size_formula (f q : Z) : Z :=
  let unit_size := mb_fc_get_unit_size f in
  if unit_size =? 1 then (q + 7) / 8
  else if unit_size =? 2 then 2 * q
  else 0.

(** The two limits on one request: the quantity limit of the function code
    and the byte limit of the PDU. *)
Definition within_limits (max_pdu_chars f q : Z) : Prop :=
  0 <= q <= mb_fc_get_max_quantity f /\
  data_size_formula f q <= max_pdu_chars.

Definition block_within_limits (max_pdu_chars : Z) (b : mb_block_t) : Prop :=
  within_limits max_pdu_chars (blk_function_code b) (blk_quantity b).

Definition pdu_within_limits (max_pdu_chars : Z) (p : mb_pdu_t) : Prop :=
  within_limits max_pdu_chars (pdu_function_code p) (pdu_quantity p).

(** Address [a] lies in the range of block [b]. *)
Definition block_covers (b : mb_block_t) (a : Z) : Prop :=
  blk_start_address b <= a < blk_start_address b + blk_quantity b.

(** First address after the range of [b]. *)
Definition block_end (b : mb_block_t) : Z :=
  blk_start_address b + blk_quantity b.

(** Every block starts after the end of each block before it, leaving at
    least one address out in between: the list is sorted by start address,
    no two ranges overlap and no two ranges touch. *)
Fixpoint runs_apart (blocks : list mb_block_t) : Prop :=
  match blocks with
  | [] => True
  | b :: rest =>
      Forall (fun b' => block_end b < blk_start_address b') rest /\ runs_apart rest
  end.

(** The addresses of a block, in ascending order. *)
Definition address_run (start quantity : Z) : list Z :=
  map (fun k => start + Z.of_nat k) (seq 0 (Z.to_nat quantity)).

Definition block_addresses (b : mb_block_t) : list Z :=
  address_run (blk_start_address b) (blk_quantity b).

(** What [mb_addresses_to_blocks] writes into every block besides its range. *)
Definition fresh_block (slave_id f : Z) (b : mb_block_t) : Prop :=
  blk_slave_id b = slave_id /\ blk_function_code b = f /\
  blk_is_merged b = false /\ 1 <= blk_quantity b.


(** A transport for worked examples: the state behind it is the queue of
    the frames the slave will answer with; [send] accepts every frame,
    [recv] delivers the next answer and fails when there is none. *)
Definition scripted_transport : mb_transport_t (list (list Z)) :=
  mk_transport
    (Some (fun w frame => (len frame, w)))
    (Some (fun w _ =>
             match w with
             | answer :: later => (0, answer, later)
             | [] => (-1, [], [])
             end)).

(** The RTU frame a slave answers with. *)
Definition rtu_answer (slave_id f : Z) (pdu : list Z) : list Z :=
  match mb_rtu_build_frame slave_id f pdu 260 with
  | Ok frame => frame
  | Err _ => []
  end.

(** The frame a slave answers with in mode [m] (in TCP mode under the
    transaction id [tid]). *)
Definition answer_frame (m : mb_mode_t) (tid slave_id f : Z) (pdu : list Z) : list Z :=
  match (match m with
         | MB_MODE_TCP => mb_tcp_build_frame tid slave_id f pdu 260
         | _ => mb_build_frame slave_id f pdu m 260
         end) with
  | Ok frame => frame
  | Err _ => []
  end.

(** The statistics after one answered request: the request counter bumped
    twice, the two character counters advanced by the lengths of the
    frames. *)
Definition answered_stats (s : mb_stats_t) (sent received : Z) : mb_stats_t :=
  add_chars (bump_total_requests (bump_total_requests s)) sent received.

(** What every single request leaves of the master context: configuration,
    transaction id and the three optimiser counters as they were; after a
    success the request counter bumped twice; after a failure the character
    counters as they were and the request counter either untouched or bumped
    once. *)
Definition single_accounting {world A : Type} (master : mb_master_t world)
  (out : mb_single_outcome_t world A) : Prop :=
  config (so_master out) = config master /\
  transaction_id (so_master out) = transaction_id master /\
  optimized_requests (stats (so_master out)) = optimized_requests (stats master) /\
  rounds_saved (stats (so_master out)) = rounds_saved (stats master) /\
  blocks_merged (stats (so_master out)) = blocks_merged (stats master) /\
  match so_status out with
  | Ok _ =>
      total_requests (stats (so_master out)) =
        to_u32 (to_u32 (total_requests (stats master) + 1) + 1)
  | Err _ =>
      total_chars_sent (stats (so_master out)) = total_chars_sent (stats master) /\
      total_chars_recv (stats (so_master out)) = total_chars_recv (stats master) /\
      (total_requests (stats (so_master out)) = total_requests (stats master) \/
       total_requests (stats (so_master out)) =
         to_u32 (total_requests (stats master) + 1))
  end.


(** Block [b] is not empty and lies in the window of addresses [lo], ...,
    [hi - 1]. *)
Definition block_in_window (lo hi : Z) (b : mb_block_t) : Prop :=
  lo <= blk_start_address b /\ 1 <= blk_quantity b /\ block_end b <= hi.

(** Block [m] is for the same slave and function code as [b] and its range
    contains the range of [b]. *)
Definition block_within (b m : mb_block_t) : Prop :=
  blk_slave_id b = blk_slave_id m /\
  blk_function_code b = blk_function_code m /\
  blk_start_address m <= blk_start_address b /\
  block_end b <= block_end m.

(** PDU [p] is for the slave and function code of [b] and its range contains
    the range of [b]. *)
Definition pdu_holds (p : mb_pdu_t) (b : mb_block_t) : Prop :=
  pdu_slave_id p = blk_slave_id b /\
  pdu_function_code p = blk_function_code b /\
  pdu_start_address p <= blk_start_address b /\
  block_end b <= pdu_start_address p + pdu_quantity p.

(** PDU [p] is not empty and lies in the window of addresses [lo], ...,
    [hi - 1]. *)
Definition pdu_in_window (lo hi : Z) (p : mb_pdu_t) : Prop :=
  lo <= pdu_start_address p /\ 1 <= pdu_quantity p /\
  pdu_start_address p + pdu_quantity p <= hi.

(** PDU [p'] is for the same slave and function code as [p] and its range
    contains the range of [p]. *)
Definition pdu_extends (p p' : mb_pdu_t) : Prop :=
  pdu_slave_id p' = pdu_slave_id p /\
  pdu_function_code p' = pdu_function_code p /\
  pdu_start_address p' <= pdu_start_address p /\
  pdu_start_address p + pdu_quantity p <= pdu_start_address p' + pdu_quantity p'.

(** A hexadecimal digit ['A'] ... ['F'] turned into its lower-case form;
    every other byte is left as it is. *)
Definition hex_to_lower (c : Z) : Z :=
  if (ch_A <=? c) && (c <=? ch_F) then c + 32 else c.

(** Sum of the bytes of a sequence. *)
Definition sum_bytes (data : list Z) : Z := fold_right Z.add 0 data.

(** Number of cells of a pool that are marked as in use. *)
Definition cells_in_use (used : list bool) : Z := len (filter (fun u => u) used).

(** The counter of a pool agrees with its marks: one mark per cell, [count]
    marks set, and the number of cells in the range of the [uint16_t]
    index. *)
Definition pool_consistent {A : Type} (pool : mb_pool_t A) : Prop :=
  length (pool_cells pool) = length (pool_used pool) /\
  pool_count pool = cells_in_use (pool_used pool) /\
  len (pool_used pool) <= 65535.

(** Address [a] lies in the range that PDU [p] reads. *)
Definition pdu_covers (p : mb_pdu_t) (a : Z) : Prop :=
  pdu_start_address p <= a < pdu_start_address p + pdu_quantity p.

(** Range conditions on concrete values. *)
Ltac wf_solve := unfold block_wf, cost_wf, u8, u16, u32; simpl; lia.

(** * Properties *)

(** ** Machine integers *)

Lemma to_u16_small (z : Z) : u16 z -> to_u16 z = z.
Proof. unfold u16, to_u16; intros H; apply Z.mod_small; lia. Qed.

Lemma to_u8_small (z : Z) : u8 z -> to_u8 z = z.
Proof. unfold u8, to_u8; intros H; apply Z.mod_small; lia. Qed.

Lemma to_u32_small (z : Z) : u32 z -> to_u32 z = z.
Proof. unfold u32, to_u32; intros H; apply Z.mod_small; lia. Qed.

Lemma to_u16_range (z : Z) : u16 (to_u16 z).
Proof. unfold u16, to_u16; apply Z.mod_pos_bound; lia. Qed.

Lemma to_u8_range (z : Z) : u8 (to_u8 z).
Proof. unfold u8, to_u8; apply Z.mod_pos_bound; lia. Qed.

Lemma to_i16_small (z : Z) : -32768 <= z < 32768 -> to_i16 z = z.
Proof.
  intros H; unfold to_i16.
  destruct (Z_lt_le_dec z 0) as [Hneg | Hpos].
  - replace (z mod 65536) with (z + 65536).
    + destruct (z + 65536 <? 32768) eqn:E; [apply Z.ltb_lt in E; lia | lia].
    + apply Z.mod_unique with (q := -1); lia.
  - rewrite Z.mod_small by lia.
    destruct (z <? 32768) eqn:E; [reflexivity | apply Z.ltb_ge in E; lia].
Qed.

(** ** Block utilities *)

Lemma compatible_fields (a b : mb_block_t) :
  mb_block_are_compatible a b = true ->
  blk_slave_id a = blk_slave_id b /\ blk_function_code a = blk_function_code b.
Proof.
  unfold mb_block_are_compatible; intros H.
  apply andb_prop in H; destruct H as [H1 H2].
  split; apply Z.eqb_eq; assumption.
Qed.

Lemma compatible_sym (a b : mb_block_t) :
  mb_block_are_compatible a b = mb_block_are_compatible b a.
Proof.
  unfold mb_block_are_compatible.
  rewrite (Z.eqb_sym (blk_slave_id a)), (Z.eqb_sym (blk_function_code a)); reflexivity.
Qed.

(** C10.  Gap and merge do not depend on the order of their arguments:
    [mb_block_calc_gap a b = mb_block_calc_gap b a] for all blocks, and for
    compatible blocks [mb_block_merge a b] and [mb_block_merge b a] are the
    same block. *)
Theorem gap_and_merge_symmetric (a b : mb_block_t) :
  block_wf a -> block_wf b ->
  mb_block_calc_gap a b = mb_block_calc_gap b a /\
  (mb_block_are_compatible a b = true ->
   mb_block_merge a b = mb_block_merge b a /\
   exists m, mb_block_merge a b = Ok m).
Proof.
  intros (_ & _ & Hsa & Hqa) (_ & _ & Hsb & Hqb).
  unfold u16 in *.
  split.
  - unfold mb_block_calc_gap.
    destruct (blk_start_address a >? blk_start_address b) eqn:Eab;
      destruct (blk_start_address b >? blk_start_address a) eqn:Eba;
      try reflexivity.
    + apply Z.gtb_lt in Eab, Eba; lia.
    + rewrite Z.gtb_ltb in Eab, Eba.
      apply Z.ltb_ge in Eab, Eba.
      assert (Heq : blk_start_address a = blk_start_address b) by lia.
      rewrite Heq.
      destruct (blk_start_address b + blk_quantity a >=? blk_start_address b) eqn:E1;
        destruct (blk_start_address b + blk_quantity b >=? blk_start_address b) eqn:E2;
        try reflexivity; rewrite Z.geb_leb in *;
        try (apply Z.leb_gt in E1; lia); try (apply Z.leb_gt in E2; lia).
  - intros Hc.
    pose proof (compatible_fields a b Hc) as [Hs Hf].
    unfold mb_block_merge.
    rewrite <- (compatible_sym a b), Hc; simpl.
    destruct (blk_start_address a >? blk_start_address b) eqn:Eab;
      destruct (blk_start_address b >? blk_start_address a) eqn:Eba.
    + apply Z.gtb_lt in Eab, Eba; lia.
    + split; [reflexivity | eexists; reflexivity].
    + split; [reflexivity | eexists; reflexivity].
    + rewrite Z.gtb_ltb in Eab, Eba.
      apply Z.ltb_ge in Eab, Eba.
      assert (Heq : blk_start_address a = blk_start_address b) by lia.
      split; [| eexists; reflexivity].
      rewrite Hs, Hf, Heq.
      do 2 f_equal.
      destruct (blk_start_address b + blk_quantity a >? blk_start_address b + blk_quantity b) eqn:E1;
        destruct (blk_start_address b + blk_quantity b >? blk_start_address b + blk_quantity a) eqn:E2;
        try reflexivity; rewrite Z.gtb_ltb in *.
      * apply Z.ltb_lt in E1, E2; lia.
      * apply Z.ltb_ge in E1, E2; f_equal; lia.
Qed.

Lemma gap_and_merge_symmetric_witness :
  let a := mk_block 1 3 105 3 false in
  let b := mk_block 1 3 100 3 false in
  block_wf a /\ block_wf b /\
  mb_block_calc_gap a b = mb_block_calc_gap b a /\
  (mb_block_are_compatible a b = true ->
   mb_block_merge a b = mb_block_merge b a /\
   exists m, mb_block_merge a b = Ok m).
Proof.
  intros a b.
  split; [wf_solve | split; [wf_solve |]].
  apply (gap_and_merge_symmetric a b); wf_solve.
Defined.

(** ** Merge decision *)

Lemma adjacent_gap_zero (a b : mb_block_t) :
  block_wf a -> block_wf b ->
  mb_block_are_adjacent a b = true -> mb_block_calc_gap a b = 0.
Proof.
  intros (_ & _ & Hsa & Hqa) (_ & _ & Hsb & Hqb); unfold u16 in *.
  unfold mb_block_are_adjacent, mb_block_calc_gap.
  destruct (mb_block_are_compatible a b); simpl; [| discriminate].
  intros H; apply Z.eqb_eq in H.
  destruct (blk_start_address a >? blk_start_address b) eqn:E.
  - apply Z.gtb_lt in E; lia.
  - destruct (blk_start_address a + blk_quantity a >=? blk_start_address b) eqn:E1;
      [reflexivity |].
    rewrite Z.geb_leb in E1; apply Z.leb_gt in E1; lia.
Qed.

Lemma gap_range (a b : mb_block_t) :
  block_wf a -> block_wf b -> u16 (mb_block_calc_gap a b).
Proof.
  intros _ _; unfold mb_block_calc_gap.
  destruct (blk_start_address a >? blk_start_address b);
    match goal with
    | |- context [if ?c then _ else _] => destruct c
    end; try apply to_u16_range; unfold u16; lia.
Qed.

(** C8 as the code has it.  Adjacent compatible blocks of a mergeable
    function code (one ends where the other starts, in either order of the
    arguments) are always merged, whatever [max_quantity] of the function
    code is.  The merged block starts where the lower block starts and its
    quantity is the sum of the two quantities modulo 65536 (it is stored in
    a [uint16_t]): the block spans both exactly when the sum is at most
    65535.  Two adjacent FC03 blocks of 100 registers give one block of
    200 > 125. *)
Theorem adjacent_blocks_merge_unbounded (a b : mb_block_t) (cost : mb_cost_params_t) :
  block_wf a -> block_wf b ->
  mb_block_are_compatible a b = true ->
  mb_fc_supports_merge (blk_function_code a) = true ->
  mb_block_are_adjacent a b = true \/ mb_block_are_adjacent b a = true ->
  mb_should_merge_blocks a b cost = true /\
  mb_block_merge a b =
    Ok (mk_block (blk_slave_id a) (blk_function_code a)
          (Z.min (blk_start_address a) (blk_start_address b))
          ((blk_quantity a + blk_quantity b) mod 65536) true) /\
  ((blk_quantity a + blk_quantity b) mod 65536 = blk_quantity a + blk_quantity b <->
   blk_quantity a + blk_quantity b <= 65535) /\
  (exists a' b' m,
      blk_function_code a' = MB_FC_READ_HOLDING_REGISTERS /\
      blk_quantity a' = 100 /\ blk_quantity b' = 100 /\
      mb_block_are_adjacent a' b' = true /\
      mb_should_merge_blocks a' b' cost = true /\
      mb_block_merge a' b' = Ok m /\
      blk_quantity m = 200 /\
      blk_quantity m > mb_fc_get_max_quantity (blk_function_code m)).
Proof.
  intros Ha Hb Hc Hm Hadj.
  destruct Ha as (_ & _ & Hsa & Hqa), Hb as (_ & _ & Hsb & Hqb); unfold u16 in *.
  assert (Hc' : mb_block_are_compatible b a = true).
  { unfold mb_block_are_compatible in *.
    apply andb_prop in Hc; destruct Hc as [H1 H2].
    apply Z.eqb_eq in H1, H2; rewrite H1, H2, !Z.eqb_refl; reflexivity. }
  assert (Hends : blk_start_address a + blk_quantity a = blk_start_address b \/
                  blk_start_address b + blk_quantity b = blk_start_address a).
  { unfold mb_block_are_adjacent in Hadj; rewrite Hc, Hc' in Hadj; simpl in Hadj.
    destruct Hadj as [H | H]; apply Z.eqb_eq in H; [left | right]; assumption. }
  assert (Hsame : blk_slave_id b = blk_slave_id a /\
                  blk_function_code b = blk_function_code a).
  { unfold mb_block_are_compatible in Hc'.
    apply andb_prop in Hc'; destruct Hc' as [H1 H2].
    apply Z.eqb_eq in H1, H2; split; assumption. }
  destruct Hsame as [Hs Hf].
  split; [| split; [| split]].
  - unfold mb_should_merge_blocks; rewrite Hc, Hm; cbn [negb].
    destruct (mb_block_are_adjacent a b); [reflexivity |].
    replace (mb_block_calc_gap a b) with 0; [reflexivity |].
    unfold mb_block_calc_gap.
    destruct (blk_start_address a >? blk_start_address b) eqn:E;
      [apply Z.gtb_lt in E | rewrite Z.gtb_ltb in E; apply Z.ltb_ge in E].
    + replace (blk_start_address b + blk_quantity b >=? blk_start_address a) with true;
        [reflexivity |].
      symmetry; rewrite Z.geb_leb; apply Z.leb_le; lia.
    + replace (blk_start_address a + blk_quantity a >=? blk_start_address b) with true;
        [reflexivity |].
      symmetry; rewrite Z.geb_leb; apply Z.leb_le; lia.
  - unfold mb_block_merge; rewrite Hc; cbn [negb].
    destruct (blk_start_address a >? blk_start_address b) eqn:E;
      [apply Z.gtb_lt in E | rewrite Z.gtb_ltb in E; apply Z.ltb_ge in E].
    + rewrite Hs, Hf, Z.min_r by lia.
      destruct (blk_start_address b + blk_quantity b >?
                blk_start_address a + blk_quantity a) eqn:E1;
        [apply Z.gtb_lt in E1; lia |].
      do 2 f_equal; unfold to_u16; f_equal; lia.
    + rewrite Z.min_l by lia.
      destruct (blk_start_address a + blk_quantity a >?
                blk_start_address b + blk_quantity b) eqn:E1;
        [apply Z.gtb_lt in E1 | ];
        do 2 f_equal; unfold to_u16; f_equal; lia.
  - split; intros H.
    + pose proof (Z.mod_pos_bound (blk_quantity a + blk_quantity b) 65536); lia.
    + apply Z.mod_small; lia.
  - exists (mk_block 1 3 0 100 false), (mk_block 1 3 100 100 false),
      (mk_block 1 3 0 200 true).
    repeat split.
Qed.

Lemma adjacent_blocks_merge_unbounded_witness :
  let a := mk_block 1 3 0 100 false in
  let b := mk_block 1 3 100 100 false in
  mb_should_merge_blocks a b (mk_cost 6 5 4 2) = true /\
  mb_block_merge a b = Ok (mk_block 1 3 (Z.min 0 100) ((100 + 100) mod 65536) true).
Proof.
  intros a b.
  assert (H := adjacent_blocks_merge_unbounded a b (mk_cost 6 5 4 2)).
  destruct H as (H1 & H2 & _);
    [wf_solve | wf_solve | reflexivity | reflexivity | left; reflexivity |].
  split; [exact H1 | exact H2].
Defined.

(** C8 as stated fails on the code.  The blocks (start 0, quantity 1) and
    (start 1, quantity 65535) are well formed, compatible and adjacent, and
    function code 3 supports merging; they are merged, and the merged block
    has quantity (uint16_t) 65536 = 0: it spans neither of them. *)
Lemma adjacent_merge_wraps :
  let a := mk_block 1 3 0 1 false in
  let b := mk_block 1 3 1 65535 false in
  block_wf a /\ block_wf b /\
  mb_block_are_compatible a b = true /\
  mb_fc_supports_merge (blk_function_code a) = true /\
  mb_block_are_adjacent a b = true /\
  mb_should_merge_blocks a b (mk_cost 6 5 4 2) = true /\
  mb_block_merge a b = Ok (mk_block 1 3 0 0 true) /\
  ~ block_covers (mk_block 1 3 0 0 true) 0 /\
  ~ block_covers (mk_block 1 3 0 0 true) 65535.
Proof.
  intros a b.
  split; [wf_solve |].
  split; [wf_solve |].
  repeat (split; [reflexivity |]).
  split; unfold block_covers; cbn; lia.
Qed.

Lemma gap_cost_in_range (f g : Z) :
  0 < g <= 16384 -> mb_calc_gap_cost f g = gap_cost_formula f g.
Proof.
  intros Hg; unfold mb_calc_gap_cost, gap_cost_formula.
  destruct (g =? 0) eqn:E; [apply Z.eqb_eq in E; lia |].
  destruct ((f =? MB_FC_READ_COILS) || (f =? MB_FC_READ_DISCRETE_INPUTS)).
  - apply to_u16_small; unfold u16.
    assert (0 <= (g + 7) / 8) by (apply Z.div_pos; lia).
    assert ((g + 7) / 8 < 65536) by (apply Z.div_lt_upper_bound; lia).
    lia.
  - rewrite Z.mul_comm; apply to_u16_small; unfold u16; lia.
Qed.

(** Within the range where no conversion wraps (a gap of at most 16384
    units and cost parameters that fit their [uint8_t] fields) the decision
    of [mb_should_merge_blocks] is the documented one: compatible, mergeable
    function code, and either no gap or a gap that costs less than a round
    trip. *)
Lemma merge_decision_in_range (a b : mb_block_t) (cost : mb_cost_params_t) :
  block_wf a -> block_wf b -> cost_wf cost ->
  mb_block_calc_gap a b <= 16384 ->
  mb_should_merge_blocks a b cost =
    mb_block_are_compatible a b &&
    mb_fc_supports_merge (blk_function_code a) &&
    ((mb_block_calc_gap a b =? 0) ||
     (gap_cost_formula (blk_function_code a) (mb_block_calc_gap a b)
        <? overhead_formula cost)).
Proof.
  intros Ha Hb Hcost Hgap.
  unfold mb_should_merge_blocks.
  destruct (mb_block_are_compatible a b) eqn:Hc; simpl; [| reflexivity].
  destruct (mb_fc_supports_merge (blk_function_code a)) eqn:Hm; simpl; [| reflexivity].
  destruct (mb_block_are_adjacent a b) eqn:Hadj.
  - rewrite (adjacent_gap_zero a b Ha Hb Hadj); reflexivity.
  - destruct (mb_block_calc_gap a b =? 0) eqn:E; [reflexivity |]; simpl.
    apply Z.eqb_neq in E.
    pose proof (gap_range a b Ha Hb) as Hr; unfold u16 in Hr.
    set (g := mb_block_calc_gap a b) in *.
    unfold mb_calc_merge_savings.
    rewrite gap_cost_in_range by lia.
    destruct Hcost as (H1 & H2 & H3 & H4); unfold u8 in *.
    fold (overhead_formula cost).
    assert (Ho : 0 <= overhead_formula cost <= 1020)
      by (unfold overhead_formula; lia).
    rewrite (to_u16_small (overhead_formula cost)) by (unfold u16; lia).
    assert (Hc0 : 0 <= gap_cost_formula (blk_function_code a) g <= 32768).
    { unfold gap_cost_formula.
      destruct ((blk_function_code a =? MB_FC_READ_COILS) ||
                (blk_function_code a =? MB_FC_READ_DISCRETE_INPUTS)).
      - assert (0 <= (g + 7) / 8) by (apply Z.div_pos; lia).
        assert ((g + 7) / 8 < 32768) by (apply Z.div_lt_upper_bound; lia).
        lia.
      - lia. }
    rewrite to_i16_small by lia.
    rewrite Z.gtb_ltb.
    destruct (0 <? overhead_formula cost - gap_cost_formula (blk_function_code a) g) eqn:E1;
      destruct (gap_cost_formula (blk_function_code a) g <? overhead_formula cost) eqn:E2;
      try reflexivity.
    + apply Z.ltb_lt in E1; apply Z.ltb_ge in E2; lia.
    + apply Z.ltb_ge in E1; apply Z.ltb_lt in E2; lia.
Qed.

Lemma merge_decision_in_range_witness :
  let a := mk_block 1 3 100 3 false in
  let b := mk_block 1 3 150 3 false in
  let cost := mk_cost 6 5 4 2 in
  mb_should_merge_blocks a b cost =
    mb_block_are_compatible a b &&
    mb_fc_supports_merge (blk_function_code a) &&
    ((mb_block_calc_gap a b =? 0) ||
     (gap_cost_formula (blk_function_code a) (mb_block_calc_gap a b)
        <? overhead_formula cost)).
Proof.
  intros a b cost.
  apply (merge_decision_in_range a b cost); try wf_solve.
  vm_compute; discriminate.
Defined.

(** C2, at an input where the code leaves the documented rule.  Two FC03
    blocks 32768 registers apart: the gap costs 65536 characters against a
    round trip of 17, so the rule says not to merge; the cost is stored in a
    [uint16_t], where it is 0, and the blocks are merged. *)
Theorem merge_decision_wraps_on_large_gap :
  let a := mk_block 1 3 0 1 false in
  let b := mk_block 1 3 32769 1 false in
  let cost := mk_cost 6 5 4 2 in
  mb_block_are_adjacent a b = false /\
  mb_block_calc_gap a b = 32768 /\
  gap_cost_formula 3 32768 = 65536 /\
  overhead_formula cost = 17 /\
  mb_calc_gap_cost 3 32768 = 0 /\
  mb_calc_merge_savings 32768 3 cost = 17 /\
  mb_should_merge_blocks a b cost = true.
Proof. repeat split. Qed.

(** The same happens through the [int16_t] of the savings: a gap of 20000
    registers costs 40000, the difference 17 - 40000 is stored as 25553. *)
Lemma merge_savings_wrap_int16 :
  let a := mk_block 1 3 0 1 false in
  let b := mk_block 1 3 20001 1 false in
  let cost := mk_cost 6 5 4 2 in
  mb_block_calc_gap a b = 20000 /\
  mb_calc_gap_cost 3 20000 = 40000 /\
  mb_calc_merge_savings 20000 3 cost = 25553 /\
  mb_should_merge_blocks a b cost = true.
Proof. repeat split. Qed.

(** ** Bytes and words *)

Lemma len_app {A : Type} (l1 l2 : list A) : len (l1 ++ l2) = len l1 + len l2.
Proof. unfold len; rewrite length_app; lia. Qed.

Lemma len_cons {A : Type} (x : A) (l : list A) : len (x :: l) = 1 + len l.
Proof. unfold len; simpl length; lia. Qed.

Lemma len_nonneg {A : Type} (l : list A) : 0 <= len l.
Proof. unfold len; lia. Qed.

Lemma to_nat_len {A : Type} (l : list A) : Z.to_nat (len l) = length l.
Proof. unfold len; apply Nat2Z.id. Qed.

Lemma byte_at_app_l (l1 l2 : list Z) (i : Z) :
  0 <= i < len l1 -> byte_at (l1 ++ l2) i = byte_at l1 i.
Proof.
  unfold byte_at, len; intros H; apply app_nth1; lia.
Qed.

Lemma byte_at_app_r (l1 l2 : list Z) (i : Z) :
  len l1 <= i -> byte_at (l1 ++ l2) i = byte_at l2 (i - len l1).
Proof.
  unfold byte_at, len; intros H.
  rewrite app_nth2 by lia.
  f_equal; lia.
Qed.

Lemma land_255_u8 (z : Z) : u8 (Z.land z 255).
Proof.
  change 255 with (Z.ones 8); rewrite Z.land_ones by lia.
  unfold u8; apply Z.mod_pos_bound; reflexivity.
Qed.

Lemma testbit_u16_high (c n : Z) : u16 c -> 16 <= n -> Z.testbit c n = false.
Proof.
  intros Hc Hn.
  rewrite <- (Z.mod_small c (2 ^ 16)) by (unfold u16 in Hc; simpl; lia).
  apply Z.mod_pow2_bits_high; lia.
Qed.

(** A 16-bit value is its low byte or-ed with its high byte shifted back. *)
Lemma u16_bytes (c : Z) :
  u16 c -> Z.lor (Z.land c 255) (Z.shiftl (Z.land (Z.shiftr c 8) 255) 8) = c.
Proof.
  intros Hc; apply Z.bits_inj'; intros n Hn.
  change 255 with (Z.ones 8).
  rewrite Z.lor_spec, Z.land_spec.
  destruct (Z_lt_le_dec n 8) as [Hlt | Hge].
  - rewrite Z.ones_spec_low by lia.
    rewrite Z.shiftl_spec_low by lia.
    rewrite andb_true_r, orb_false_r; reflexivity.
  - rewrite Z.ones_spec_high by lia.
    rewrite Z.shiftl_spec by lia.
    rewrite Z.land_spec, Z.shiftr_spec by lia.
    replace (n - 8 + 8) with n by lia.
    rewrite andb_false_r; simpl.
    destruct (Z_lt_le_dec n 16) as [Hlt | Hge'].
    + rewrite Z.ones_spec_low by lia; apply andb_true_r.
    + rewrite Z.ones_spec_high by lia; rewrite andb_false_r.
      symmetry; apply testbit_u16_high; assumption.
Qed.

Lemma be16_bytes (c : Z) :
  u16 c ->
  be16 (to_u8 (Z.land (Z.shiftr c 8) 255)) (to_u8 (Z.land c 255)) = c.
Proof.
  intros Hc; unfold be16.
  rewrite !to_u8_small by apply land_255_u8.
  rewrite Z.lor_comm, u16_bytes by assumption.
  apply to_u16_small; assumption.
Qed.

Lemma lxor_u16 (a b : Z) : u16 a -> u16 b -> u16 (Z.lxor a b).
Proof.
  unfold u16; intros Ha Hb.
  assert (H0 : 0 <= Z.lxor a b) by (apply Z.lxor_nonneg; lia).
  split; [assumption |].
  destruct (Z.eq_dec (Z.lxor a b) 0) as [E | E]; [lia |].
  apply (Z.log2_lt_pow2 _ 16); [lia |].
  eapply Z.le_lt_trans; [apply Z.log2_lxor; lia |].
  apply Z.max_lub_lt.
  - destruct (Z.eq_dec a 0) as [-> | Ea]; [simpl; lia |].
    apply Z.log2_lt_pow2; lia.
  - destruct (Z.eq_dec b 0) as [-> | Eb]; [simpl; lia |].
    apply Z.log2_lt_pow2; lia.
Qed.

(** ** Checksums *)

Lemma crc16_shift_range (crc : Z) : u16 crc -> u16 (crc16_shift crc).
Proof.
  intros H; unfold crc16_shift.
  assert (Hs : u16 (Z.shiftr crc 1)).
  { rewrite Z.shiftr_div_pow2 by lia; change (2 ^ 1) with 2.
    unfold u16 in *; split.
    - apply Z.div_pos; lia.
    - apply Z.div_lt_upper_bound; lia. }
  destruct (Z.testbit crc 0); [apply lxor_u16 |]; try assumption.
  unfold u16; lia.
Qed.

Lemma crc16_update_range (crc byte : Z) :
  u16 crc -> u8 byte -> u16 (crc16_update crc byte).
Proof.
  intros Hc Hb; unfold crc16_update.
  assert (H : u16 (Z.lxor crc byte))
    by (apply lxor_u16; [assumption | unfold u8, u16 in *; lia]).
  simpl; repeat apply crc16_shift_range; assumption.
Qed.

Lemma crc16_fold_range (data : list Z) (crc : Z) :
  Forall u8 data -> u16 crc -> u16 (fold_left crc16_update data crc).
Proof.
  intros Hd; revert crc; induction Hd as [| b data Hb _ IH]; intros crc Hc; simpl.
  - assumption.
  - apply IH, crc16_update_range; assumption.
Qed.

Lemma mb_crc16_range (data : list Z) : Forall u8 data -> u16 (mb_crc16 data).
Proof.
  intros H; apply crc16_fold_range; [assumption | unfold u16; lia].
Qed.

(** The two bytes the RTU encoder appends: low byte first. *)
Lemma crc16_verify_appended (x : list Z) :
  Forall u8 x -> x <> [] ->
  mb_crc16_verify
    (x ++ [Z.land (mb_crc16 x) 255; Z.land (Z.shiftr (mb_crc16 x) 8) 255]) = true.
Proof.
  intros Hx Hne; unfold mb_crc16_verify.
  rewrite len_app; unfold len at 2; simpl length.
  assert (Hl : 1 <= len x).
  { destruct x; [congruence | rewrite len_cons; pose proof (len_nonneg x); lia]. }
  destruct (len x + Z.of_nat 2 <? 3) eqn:E; [apply Z.ltb_lt in E; lia |].
  rewrite length_app; simpl length.
  replace (length x + 2 - 2)%nat with (length x) by lia.
  rewrite firstn_app, firstn_all, Nat.sub_diag; simpl firstn; rewrite app_nil_r.
  rewrite !app_nth2 by lia.
  rewrite Nat.sub_diag.
  replace (S (length x) - length x)%nat with 1%nat by lia.
  simpl nth.
  rewrite u16_bytes by (apply mb_crc16_range; assumption).
  apply Z.eqb_refl.
Qed.

Lemma lrc_verify_appended (x : list Z) :
  x <> [] -> mb_lrc_verify (x ++ [mb_lrc x]) = true.
Proof.
  intros Hne; unfold mb_lrc_verify.
  rewrite len_app; unfold len at 2; simpl length.
  assert (Hl : 1 <= len x).
  { destruct x; [congruence | rewrite len_cons; pose proof (len_nonneg x); lia]. }
  destruct (len x + Z.of_nat 1 <? 2) eqn:E; [apply Z.ltb_lt in E; lia |].
  rewrite length_app; simpl length.
  replace (length x + 1 - 1)%nat with (length x) by lia.
  rewrite firstn_app, firstn_all, Nat.sub_diag; simpl firstn; rewrite app_nil_r.
  rewrite app_nth2 by lia.
  rewrite Nat.sub_diag; simpl nth.
  apply Z.eqb_refl.
Qed.

(** The test vectors of [test_crc16.c] and the LRC of the ASCII example. *)
Example crc16_test_vectors :
  mb_crc16 [] = 65535 /\
  mb_crc16 [1] = 32894 /\
  mb_crc16 [1; 3; 0; 0; 0; 2] = 3012 /\
  mb_crc16 [17; 3; 0; 107; 0; 3] = 34678 /\
  mb_crc16_verify [1; 3; 0; 0; 0; 2; 196; 11] = true /\
  mb_crc16_verify [1; 3; 0; 0; 0; 2; 255; 255] = false /\
  mb_crc16_verify [1] = false /\
  mb_lrc [1; 3; 0; 0; 0; 2] = 250.
Proof. repeat split. Qed.

(** C7.  Verification accepts what the checksum functions produce: for a
    non-empty byte sequence [x], [mb_crc16_verify] accepts [x] followed by
    the low and the high byte of [mb_crc16 x], and [mb_lrc_verify] accepts
    [x] followed by [mb_lrc x]. *)
Theorem checksum_verify_roundtrip (x : list Z) :
  Forall u8 x -> x <> [] ->
  mb_crc16_verify
    (x ++ [Z.land (mb_crc16 x) 255; Z.land (Z.shiftr (mb_crc16 x) 8) 255]) = true /\
  mb_lrc_verify (x ++ [mb_lrc x]) = true.
Proof.
  intros Hx Hne; split.
  - apply crc16_verify_appended; assumption.
  - apply lrc_verify_appended; assumption.
Qed.

Lemma checksum_verify_roundtrip_witness :
  let x := [1; 3; 0; 0; 0; 2] in
  mb_crc16_verify
    (x ++ [Z.land (mb_crc16 x) 255; Z.land (Z.shiftr (mb_crc16 x) 8) 255]) = true /\
  mb_lrc_verify (x ++ [mb_lrc x]) = true.
Proof.
  intros x; apply (checksum_verify_roundtrip x).
  - unfold x, u8; repeat constructor; lia.
  - discriminate.
Defined.

(** ** Frame codecs *)

Lemma firstn_len_app (l1 l2 : list Z) : firstn (Z.to_nat (len l1)) (l1 ++ l2) = l1.
Proof.
  rewrite to_nat_len, firstn_app, firstn_all, Nat.sub_diag; simpl; apply app_nil_r.
Qed.

Lemma rtu_roundtrip (slave_id f : Z) (pdu : list Z) (buffer_size : Z) :
  u8 slave_id -> u8 f -> Forall u8 pdu -> len pdu <= 253 ->
  len pdu + 4 <= buffer_size ->
  exists frame,
    mb_rtu_build_frame slave_id f pdu buffer_size = Ok frame /\
    len frame = len pdu + 4 /\
    mb_rtu_parse_frame frame = Ok (mk_frame slave_id f pdu).
Proof.
  intros Hs Hf Hp Hl Hb.
  pose proof (len_nonneg pdu) as H0.
  unfold mb_rtu_build_frame.
  rewrite to_u16_small by (unfold u16; lia).
  destruct (buffer_size <? 1 + 1 + len pdu + 2) eqn:E; [apply Z.ltb_lt in E; lia |].
  eexists; split; [reflexivity |].
  rewrite !to_u8_small by apply land_255_u8.
  set (body := slave_id :: f :: pdu).
  assert (Hlen : len (body ++ [Z.land (mb_crc16 body) 255;
                               Z.land (Z.shiftr (mb_crc16 body) 8) 255]) = len pdu + 4).
  { unfold len, body; rewrite length_app; simpl length; lia. }
  split; [exact Hlen |].
  unfold mb_rtu_parse_frame.
  rewrite Hlen.
  destruct (len pdu + 4 <? 4) eqn:E1; [apply Z.ltb_lt in E1; lia |].
  rewrite crc16_verify_appended;
    [| unfold body; apply Forall_cons; [| apply Forall_cons]; assumption
     | unfold body; discriminate].
  cbn [negb].
  replace (len pdu + 4 - 4) with (len pdu) by lia.
  rewrite to_u16_small by (unfold u16; lia).
  unfold body; simpl skipn.
  rewrite firstn_len_app.
  reflexivity.
Qed.

Lemma tcp_roundtrip (transaction_id unit_id f : Z) (pdu : list Z) (buffer_size : Z) :
  u16 transaction_id -> u8 unit_id -> u8 f -> Forall u8 pdu -> len pdu <= 253 ->
  len pdu + 8 <= buffer_size ->
  exists frame,
    mb_tcp_build_frame transaction_id unit_id f pdu buffer_size = Ok frame /\
    len frame = len pdu + 8 /\
    mb_tcp_parse_frame frame = Ok (transaction_id, mk_frame unit_id f pdu).
Proof.
  intros Ht Hs Hf Hp Hl Hb.
  pose proof (len_nonneg pdu) as H0.
  unfold mb_tcp_build_frame.
  rewrite !to_u16_small by (unfold u16; lia).
  destruct (buffer_size <? 7 + 1 + len pdu) eqn:E; [apply Z.ltb_lt in E; lia |].
  eexists; split; [reflexivity |].
  match goal with |- len ?fr = _ /\ _ => set (frame := fr) end.
  assert (Hlen : len frame = len pdu + 8).
  { unfold len, frame; rewrite length_app; simpl length; lia. }
  split; [exact Hlen |].
  unfold mb_tcp_parse_frame.
  rewrite Hlen.
  destruct (len pdu + 8 <? 8) eqn:E1; [apply Z.ltb_lt in E1; lia |].
  assert (Hh : forall b0 b1 b2 b3 b4 b5 b6 b7 : Z,
             let fr := [b0; b1; b2; b3; b4; b5; b6; b7] ++ pdu in
             byte_at fr 0 = b0 /\ byte_at fr 1 = b1 /\ byte_at fr 2 = b2 /\
             byte_at fr 3 = b3 /\ byte_at fr 4 = b4 /\ byte_at fr 5 = b5 /\
             byte_at fr 6 = b6 /\ byte_at fr 7 = b7)
    by (intros; repeat split).
  unfold frame.
  edestruct Hh as (-> & -> & -> & -> & -> & -> & -> & ->).
  clear Hh.
  rewrite (be16_bytes transaction_id Ht).
  change (be16 0 0 =? 0) with true; cbn [negb].
  rewrite (be16_bytes (1 + 1 + len pdu)) by (unfold u16; lia).
  destruct (6 + (1 + 1 + len pdu) =? len pdu + 8) eqn:E2;
    [| apply Z.eqb_neq in E2; lia].
  cbn [negb].
  replace (1 + 1 + len pdu - 2) with (len pdu) by lia.
  rewrite to_u16_small by (unfold u16; lia).
  cbn [skipn app].
  rewrite to_nat_len, firstn_all.
  reflexivity.
Qed.

(** A boolean property checked on every value below a bound. *)
Lemma forall_below (P : Z -> bool) (n : nat) :
  forallb P (map Z.of_nat (seq 0 n)) = true ->
  forall z, 0 <= z < Z.of_nat n -> P z = true.
Proof.
  intros H z Hz.
  rewrite forallb_forall in H; apply H.
  apply in_map_iff; exists (Z.to_nat z).
  split; [lia | apply in_seq; lia].
Qed.

Lemma hex_roundtrip (b : Z) :
  u8 b ->
  hex_to_byte (nth (Z.to_nat (Z.land (Z.shiftr b 4) 15)) hex_chars 0)
              (nth (Z.to_nat (Z.land b 15)) hex_chars 0) = Some b.
Proof.
  intros Hb.
  pose (P := fun b =>
    match hex_to_byte (nth (Z.to_nat (Z.land (Z.shiftr b 4) 15)) hex_chars 0)
                      (nth (Z.to_nat (Z.land b 15)) hex_chars 0) with
    | Some b' => b' =? b
    | None => false
    end).
  assert (H : P b = true).
  { apply (forall_below P 256); [vm_compute; reflexivity | exact Hb]. }
  unfold P in H.
  destruct (hex_to_byte _ _) as [b' |]; [| discriminate].
  apply Z.eqb_eq in H; congruence.
Qed.

Lemma len_hex_pdu (pdu : list Z) : len (flat_map byte_to_hex pdu) = 2 * len pdu.
Proof.
  induction pdu as [| b t IH]; [reflexivity |].
  cbn [flat_map]; rewrite len_app, IH, len_cons.
  unfold byte_to_hex, len at 1; simpl length; lia.
Qed.

Lemma parse_hex_pdu_encoded (pdu pre post : list Z) (pos : Z) :
  Forall u8 pdu -> pos = len pre ->
  parse_hex_pdu (pre ++ flat_map byte_to_hex pdu ++ post) pos (length pdu) = Some pdu.
Proof.
  intros Hp; revert pre pos.
  induction Hp as [| b t Hb _ IH]; intros pre pos Hpos; [reflexivity |].
  cbn [length parse_hex_pdu flat_map].
  pose proof (hex_roundtrip b Hb) as Hrt.
  set (h := nth (Z.to_nat (Z.land (Z.shiftr b 4) 15)) hex_chars 0) in *.
  set (l := nth (Z.to_nat (Z.land b 15)) hex_chars 0) in *.
  change (byte_to_hex b) with [h; l]; cbn [app].
  pose proof (len_nonneg pre) as H0.
  rewrite !byte_at_app_r by lia.
  replace (pos - len pre) with 0 by lia.
  replace (pos + 1 - len pre) with 1 by lia.
  change (byte_at (h :: l :: flat_map byte_to_hex t ++ post) 0) with h.
  change (byte_at (h :: l :: flat_map byte_to_hex t ++ post) 1) with l.
  rewrite Hrt.
  match goal with
  | |- context [pre ++ ?h :: ?l :: ?rest] =>
      replace (pre ++ h :: l :: rest) with ((pre ++ [h; l]) ++ rest)
        by (rewrite <- app_assoc; reflexivity)
  end.
  rewrite IH; [reflexivity |].
  rewrite len_app; unfold len at 2; simpl length; lia.
Qed.

Lemma byte_at_tail4 (pre : list Z) (a b c d : Z) (k : Z) :
  k = len pre ->
  let fr := pre ++ [a; b; c; d] in
  byte_at fr k = a /\ byte_at fr (k + 1) = b /\
  byte_at fr (k + 2) = c /\ byte_at fr (k + 3) = d.
Proof.
  intros Hk fr; unfold fr.
  pose proof (len_nonneg pre) as H0.
  rewrite !byte_at_app_r by lia.
  replace (k - len pre) with 0 by lia.
  replace (k + 1 - len pre) with 1 by lia.
  replace (k + 2 - len pre) with 2 by lia.
  replace (k + 3 - len pre) with 3 by lia.
  repeat split.
Qed.

Lemma mb_lrc_range (data : list Z) : u8 (mb_lrc data).
Proof.
  unfold mb_lrc; destruct (len data =? 0); [unfold u8; lia | apply to_u8_range].
Qed.

Lemma ascii_roundtrip (slave_id f : Z) (pdu : list Z) (buffer_size : Z) :
  u8 slave_id -> u8 f -> Forall u8 pdu -> len pdu <= 253 ->
  2 * len pdu + 9 <= buffer_size ->
  exists frame,
    mb_ascii_build_frame slave_id f pdu buffer_size = Ok frame /\
    len frame = 2 * len pdu + 9 /\
    mb_ascii_parse_frame frame = Ok (mk_frame slave_id f pdu).
Proof.
  intros Hs Hf Hp Hl Hb.
  pose proof (len_nonneg pdu) as H0.
  unfold mb_ascii_build_frame.
  rewrite to_u16_small by (unfold u16; lia).
  destruct (buffer_size <? 1 + 2 + 2 + len pdu * 2 + 2 + 2) eqn:E;
    [apply Z.ltb_lt in E; lia |].
  eexists; split; [reflexivity |].
  set (lrc := mb_lrc (slave_id :: f :: pdu)).
  assert (Hlrc : u8 lrc) by apply mb_lrc_range.
  unfold byte_to_hex at 1 2 4; cbn [app].
  set (sh := nth (Z.to_nat (Z.land (Z.shiftr slave_id 4) 15)) hex_chars 0).
  set (sl := nth (Z.to_nat (Z.land slave_id 15)) hex_chars 0).
  set (fh := nth (Z.to_nat (Z.land (Z.shiftr f 4) 15)) hex_chars 0).
  set (fl := nth (Z.to_nat (Z.land f 15)) hex_chars 0).
  set (lh := nth (Z.to_nat (Z.land (Z.shiftr lrc 4) 15)) hex_chars 0).
  set (ll := nth (Z.to_nat (Z.land lrc 15)) hex_chars 0).
  set (pre := [ch_colon; sh; sl; fh; fl]).
  set (hexpdu := flat_map byte_to_hex pdu).
  change (ch_colon :: sh :: sl :: fh :: fl :: hexpdu ++ [lh; ll; ch_CR; ch_LF])
    with (pre ++ hexpdu ++ [lh; ll; ch_CR; ch_LF]).
  set (frame := pre ++ hexpdu ++ [lh; ll; ch_CR; ch_LF]).
  assert (Hhex : len hexpdu = 2 * len pdu) by apply len_hex_pdu.
  assert (Hlen : len frame = 2 * len pdu + 9).
  { unfold frame; rewrite !len_app, Hhex; unfold len, pre; simpl length; lia. }
  split; [exact Hlen |].
  assert (Hhead : byte_at frame 0 = ch_colon /\ byte_at frame 1 = sh /\
                  byte_at frame 2 = sl /\ byte_at frame 3 = fh /\
                  byte_at frame 4 = fl) by (repeat split).
  destruct Hhead as (B0 & B1 & B2 & B3 & B4).
  assert (Htail : byte_at frame (5 + 2 * len pdu) = lh /\
                  byte_at frame (5 + 2 * len pdu + 1) = ll /\
                  byte_at frame (5 + 2 * len pdu + 2) = ch_CR /\
                  byte_at frame (5 + 2 * len pdu + 3) = ch_LF).
  { unfold frame; rewrite app_assoc.
    apply byte_at_tail4.
    rewrite len_app, Hhex; unfold len, pre; simpl length; lia. }
  destruct Htail as (T0 & T1 & T2 & T3).
  change (mb_ascii_parse_frame frame = Ok (mk_frame slave_id f pdu)).
  unfold mb_ascii_parse_frame.
  rewrite Hlen.
  destruct (2 * len pdu + 9 <? 9) eqn:E1; [apply Z.ltb_lt in E1; lia |].
  rewrite B0, Z.eqb_refl; cbn [negb].
  replace (2 * len pdu + 9 - 2) with (5 + 2 * len pdu + 2) by lia.
  replace (2 * len pdu + 9 - 1) with (5 + 2 * len pdu + 3) by lia.
  rewrite T2, T3, !Z.eqb_refl; cbn [negb orb].
  rewrite B1, B2, B3, B4.
  unfold sh, sl, fh, fl.
  rewrite (hex_roundtrip slave_id Hs), (hex_roundtrip f Hf).
  replace (5 + 2 * len pdu + 3 - 2 - 2 - 2 - 2) with (2 * len pdu) by lia.
  rewrite to_u16_small by (unfold u16; lia).
  replace (2 * len pdu / 2) with (len pdu)
    by (rewrite Z.mul_comm, Z.div_mul; lia).
  rewrite to_nat_len.
  unfold frame at 1.
  rewrite (parse_hex_pdu_encoded pdu pre _ 5 Hp) by reflexivity.
  assert (Hpos : (if len pdu >? 0 then 5 + 2 * len pdu
                  else to_u16 (5 + 2 * len pdu)) = 5 + 2 * len pdu).
  { destruct (len pdu >? 0); [reflexivity |].
    apply to_u16_small; unfold u16; lia. }
  rewrite Hpos, T0, T1.
  unfold lh, ll; rewrite (hex_roundtrip lrc Hlrc).
  fold lrc; rewrite Z.eqb_refl; cbn [negb].
  reflexivity.
Qed.

(** The ASCII and TCP examples of the documentation: [":010300000002FA\r\n"]
    and the MBAP header [12 34 00 00 00 06 01 03]. *)
Example frame_examples :
  mb_ascii_build_frame 1 3 [0; 0; 0; 2] 520 =
    Ok [58; 48; 49; 48; 51; 48; 48; 48; 48; 48; 48; 48; 50; 70; 65; 13; 10] /\
  mb_tcp_build_frame 4660 1 3 [0; 0; 0; 2] 260 =
    Ok [18; 52; 0; 0; 0; 6; 1; 3; 0; 0; 0; 2] /\
  mb_rtu_build_frame 1 3 [0; 0; 0; 2] 260 = Ok [1; 3; 0; 0; 0; 2; 196; 11] /\
  mb_ascii_parse_frame
    [58; 48; 49; 48; 51; 48; 48; 48; 48; 48; 48; 48; 50; 70; 70; 13; 10] =
    Err MB_ERROR_LRC_MISMATCH.
Proof. repeat split. Qed.

(** C4.  For each of RTU, ASCII and TCP, every slave id, function code and
    PDU of 0 to 253 bytes (and every transaction id for TCP): building the
    frame into a buffer that is large enough succeeds, and parsing the frame
    built gives back the slave id, the function code and the PDU (and the
    transaction id). *)
Theorem frame_roundtrip (slave_id f transaction_id : Z) (pdu : list Z)
  (buffer_size : Z) :
  u8 slave_id -> u8 f -> u16 transaction_id -> Forall u8 pdu ->
  len pdu <= 253 -> 2 * len pdu + 9 <= buffer_size ->
  (exists frame,
      mb_rtu_build_frame slave_id f pdu buffer_size = Ok frame /\
      mb_rtu_parse_frame frame = Ok (mk_frame slave_id f pdu)) /\
  (exists frame,
      mb_ascii_build_frame slave_id f pdu buffer_size = Ok frame /\
      mb_ascii_parse_frame frame = Ok (mk_frame slave_id f pdu)) /\
  (exists frame,
      mb_tcp_build_frame transaction_id slave_id f pdu buffer_size = Ok frame /\
      mb_tcp_parse_frame frame = Ok (transaction_id, mk_frame slave_id f pdu)).
Proof.
  intros Hs Hf Ht Hp Hl Hb.
  pose proof (len_nonneg pdu) as H0.
  split; [| split].
  - destruct (rtu_roundtrip slave_id f pdu buffer_size) as (fr & H1 & _ & H2);
      try assumption; [lia |].
    exists fr; split; assumption.
  - destruct (ascii_roundtrip slave_id f pdu buffer_size) as (fr & H1 & _ & H2);
      try assumption.
    exists fr; split; assumption.
  - destruct (tcp_roundtrip transaction_id slave_id f pdu buffer_size)
      as (fr & H1 & _ & H2); try assumption; [lia |].
    exists fr; split; assumption.
Qed.

Lemma frame_roundtrip_witness :
  let pdu := [0; 0; 0; 2] in
  (exists frame,
      mb_rtu_build_frame 1 3 pdu 260 = Ok frame /\
      mb_rtu_parse_frame frame = Ok (mk_frame 1 3 pdu)) /\
  (exists frame,
      mb_ascii_build_frame 1 3 pdu 260 = Ok frame /\
      mb_ascii_parse_frame frame = Ok (mk_frame 1 3 pdu)) /\
  (exists frame,
      mb_tcp_build_frame 4660 1 3 pdu 260 = Ok frame /\
      mb_tcp_parse_frame frame = Ok (4660, mk_frame 1 3 pdu)).
Proof.
  intros pdu.
  apply (frame_roundtrip 1 3 4660 pdu 260); unfold u8, u16; try lia.
  - unfold pdu; repeat (apply Forall_cons; [lia |]); apply Forall_nil.
  - vm_compute; discriminate.
  - vm_compute; discriminate.
Defined.

(** ** Response parser *)

(** C6, at an input where the code leaves the documented rule.  The echo of
    a write-single-coil request for OFF carries the value field 0x1234,
    which is neither 0xFF00 nor 0x0000; [mb_parse_write_response] accepts
    it, where a register echo with a wrong value is refused. *)
Theorem write_single_coil_accepts_bad_value :
  mb_parse_write_response MB_FC_WRITE_SINGLE_COIL [0; 172; 18; 52] 172 1
    (expected_coil false) = Ok tt /\
  mb_parse_write_response MB_FC_WRITE_SINGLE_COIL [0; 172; 18; 52] 172 1
    (expected_coil true) = Err MB_ERROR_INVALID_FRAME /\
  mb_parse_write_response MB_FC_WRITE_SINGLE_REGISTER [0; 172; 18; 52] 172 1
    (expected_register 0) = Err MB_ERROR_INVALID_FRAME.
Proof. repeat split. Qed.

(** What the coil parser checks: the address, and whether the value field
    is 0xFF00 exactly when ON was written. *)
Lemma write_single_coil_accepts_iff (pdu : list Z) (addr : Z) (value : bool) :
  4 <= len pdu ->
  (parse_write_single_coil_response pdu addr value = Ok tt <->
   be16 (byte_at pdu 0) (byte_at pdu 1) = addr /\
   (be16 (byte_at pdu 2) (byte_at pdu 3) = 65280 <-> value = true)).
Proof.
  intros Hl; unfold parse_write_single_coil_response.
  destruct (len pdu <? 4) eqn:E; [apply Z.ltb_lt in E; lia |].
  destruct (be16 (byte_at pdu 0) (byte_at pdu 1) =? addr) eqn:Ea; cbn [negb].
  - apply Z.eqb_eq in Ea.
    destruct (be16 (byte_at pdu 2) (byte_at pdu 3) =? 65280) eqn:Ev;
      destruct value; cbn [Bool.eqb negb].
    + apply Z.eqb_eq in Ev; intuition congruence.
    + apply Z.eqb_eq in Ev; split; [discriminate |].
      intros [_ [H _]]; specialize (H Ev); discriminate.
    + apply Z.eqb_neq in Ev; split; [discriminate |].
      intros [_ [_ H]]; elim Ev; apply H; reflexivity.
    + apply Z.eqb_neq in Ev; split; [| reflexivity].
      intros _; split; [assumption | split; [contradiction | discriminate]].
  - apply Z.eqb_neq in Ea; split; [discriminate | intros [H _]; contradiction].
Qed.

Lemma write_single_coil_accepts_iff_witness :
  parse_write_single_coil_response [0; 172; 255; 0] 172 true = Ok tt <->
  be16 (byte_at [0; 172; 255; 0] 0) (byte_at [0; 172; 255; 0] 1) = 172 /\
  (be16 (byte_at [0; 172; 255; 0] 2) (byte_at [0; 172; 255; 0] 3) = 65280 <->
   true = true).
Proof.
  apply (write_single_coil_accepts_iff [0; 172; 255; 0] 172 true).
  vm_compute; discriminate.
Defined.

(** ** FFD packer *)

Lemma max_quantity_bound (f : Z) : 0 <= mb_fc_get_max_quantity f <= 2000.
Proof.
  unfold mb_fc_get_max_quantity, mb_fc_get_policy, fc_policy_table; cbn [find fc].
  repeat match goal with
         | |- context [if ?c then _ else _] => destruct c; [cbn; lia |]
         end.
  cbn; lia.
Qed.

Lemma data_size_of_block (max_pdu_chars : Z) (b : mb_block_t) :
  block_within_limits max_pdu_chars b ->
  mb_block_calc_data_size b = data_size_formula (blk_function_code b) (blk_quantity b).
Proof.
  intros [[Hq0 Hq] _].
  pose proof (max_quantity_bound (blk_function_code b)) as Hm.
  unfold mb_block_calc_data_size, data_size_formula.
  destruct (mb_fc_get_unit_size (blk_function_code b) =? 1).
  - apply to_u16_small; unfold u16; split.
    + apply Z.div_pos; lia.
    + apply Z.div_lt_upper_bound; lia.
  - destruct (mb_fc_get_unit_size (blk_function_code b) =? 2); [| reflexivity].
    rewrite Z.mul_comm; apply to_u16_small; unfold u16; lia.
Qed.

(** A block that satisfies the limits opens a PDU that satisfies them. *)
Lemma add_to_empty_within_limits (max_pdu_chars : Z) (b : mb_block_t) (p : mb_pdu_t) :
  pdu_quantity p = 0 ->
  block_within_limits max_pdu_chars b ->
  pdu_within_limits max_pdu_chars (mb_add_block_to_pdu b p).
Proof.
  intros Hq Hb; unfold mb_add_block_to_pdu; rewrite Hq; cbn [Z.eqb].
  exact Hb.
Qed.

(** A PDU that accepts a block satisfies the limits afterwards. *)
Lemma add_fitting_within_limits (max_pdu_chars : Z) (b : mb_block_t) (p : mb_pdu_t) :
  block_within_limits max_pdu_chars b ->
  mb_block_fits_pdu b p max_pdu_chars = true ->
  pdu_within_limits max_pdu_chars (mb_add_block_to_pdu b p).
Proof.
  intros Hb Hfit.
  destruct (pdu_quantity p =? 0) eqn:Hq.
  - apply add_to_empty_within_limits; [apply Z.eqb_eq |]; assumption.
  - unfold mb_block_fits_pdu in Hfit; rewrite Hq in Hfit.
    unfold mb_add_block_to_pdu; rewrite Hq.
    destruct ((blk_slave_id b =? pdu_slave_id p) &&
              (blk_function_code b =? pdu_function_code p)) eqn:Hsf;
      cbn [negb] in Hfit; [| discriminate].
    apply andb_prop in Hsf; destruct Hsf as [_ Hf]; apply Z.eqb_eq in Hf.
    cbv zeta in Hfit |- *.
    set (mq := to_u16 _) in *.
    pose proof (to_u16_range
      ((if blk_start_address b + blk_quantity b >?
            pdu_start_address p + pdu_quantity p
        then blk_start_address b + blk_quantity b
        else pdu_start_address p + pdu_quantity p) -
       (if blk_start_address b <? pdu_start_address p
        then blk_start_address b else pdu_start_address p))) as Hr.
    fold mq in Hr; unfold u16 in Hr.
    pose proof (max_quantity_bound (blk_function_code b)) as Hm.
    destruct (mq >? mb_fc_get_max_quantity (blk_function_code b)) eqn:Hmq;
      [discriminate |].
    rewrite Z.gtb_ltb in Hmq; apply Z.ltb_ge in Hmq.
    unfold pdu_within_limits, within_limits, data_size_formula; cbn [pdu_function_code pdu_quantity].
    rewrite <- Hf.
    split; [lia |].
    destruct (mb_fc_get_unit_size (blk_function_code b) =? 1).
    + apply Z.leb_le in Hfit.
      rewrite to_u16_small in Hfit; [assumption |].
      unfold u16; split; [apply Z.div_pos; lia | apply Z.div_lt_upper_bound; lia].
    + destruct (mb_fc_get_unit_size (blk_function_code b) =? 2); [| discriminate].
      apply Z.leb_le in Hfit.
      rewrite to_u16_small in Hfit by (unfold u16; lia).
      lia.
Qed.

Lemma first_fit_within_limits (max_pdu_chars : Z) (b : mb_block_t)
  (pdus pdus' : list mb_pdu_t) :
  block_within_limits max_pdu_chars b ->
  Forall (pdu_within_limits max_pdu_chars) pdus ->
  first_fit b max_pdu_chars pdus = Some pdus' ->
  Forall (pdu_within_limits max_pdu_chars) pdus'.
Proof.
  intros Hb Hp; revert pdus'.
  induction Hp as [| p ps Hp0 Hps IH]; intros pdus' H; cbn [first_fit] in H.
  - discriminate.
  - destruct (mb_block_fits_pdu b p max_pdu_chars) eqn:Hfit.
    + injection H as <-.
      apply Forall_cons; [apply add_fitting_within_limits |]; assumption.
    + destruct (first_fit b max_pdu_chars ps) as [ps' |]; [| discriminate].
      injection H as <-.
      apply Forall_cons; [assumption | apply IH; reflexivity].
Qed.

Lemma ffd_place_within_limits (max_pdu_chars max_pdus : Z)
  (blocks : list mb_block_t) (pdus out : list mb_pdu_t) :
  Forall (block_within_limits max_pdu_chars) blocks ->
  Forall (pdu_within_limits max_pdu_chars) pdus ->
  ffd_place blocks max_pdu_chars max_pdus pdus = Ok out ->
  Forall (pdu_within_limits max_pdu_chars) out.
Proof.
  intros Hb; revert pdus.
  induction Hb as [| b bs Hb0 _ IH]; intros pdus Hp H; cbn [ffd_place] in H.
  - injection H as <-; assumption.
  - destruct (first_fit b max_pdu_chars pdus) as [pdus' |] eqn:Hff.
    + apply (IH pdus'); [| assumption].
      apply (first_fit_within_limits max_pdu_chars b pdus); assumption.
    + destruct (len pdus >=? max_pdus); [discriminate |].
      apply (IH _ ) in H; [assumption |].
      apply Forall_app; split; [assumption |].
      apply Forall_cons; [| apply Forall_nil].
      apply add_to_empty_within_limits; [reflexivity | assumption].
Qed.

Lemma insert_block_Forall (P : mb_block_t -> Prop)
  (before : mb_block_t -> mb_block_t -> bool) (b : mb_block_t) (l : list mb_block_t) :
  P b -> Forall P l -> Forall P (insert_block before b l).
Proof.
  intros Hb Hl; induction Hl as [| x t Hx Ht IH]; cbn [insert_block].
  - apply Forall_cons; [assumption | apply Forall_nil].
  - destruct (before x b).
    + apply Forall_cons; assumption.
    + apply Forall_cons; [assumption | apply Forall_cons; assumption].
Qed.

Lemma sort_blocks_Forall (P : mb_block_t -> Prop)
  (before : mb_block_t -> mb_block_t -> bool) (l : list mb_block_t) :
  Forall P l -> Forall P (sort_blocks before l).
Proof.
  intros Hl; induction Hl as [| x t Hx Ht IH]; cbn [sort_blocks fold_right].
  - apply Forall_nil.
  - apply insert_block_Forall; assumption.
Qed.

(** When every block handed to the packer satisfies the two limits, so does
    every PDU it produces. *)
Lemma ffd_pack_within_limits (blocks : list mb_block_t)
  (max_pdu_chars max_pdus : Z) (pdus : list mb_pdu_t) :
  Forall (block_within_limits max_pdu_chars) blocks ->
  mb_ffd_pack blocks max_pdu_chars max_pdus = Ok pdus ->
  Forall (pdu_within_limits max_pdu_chars) pdus.
Proof.
  intros Hb H; unfold mb_ffd_pack in H.
  destruct (len blocks =? 0).
  - injection H as <-; apply Forall_nil.
  - apply (ffd_place_within_limits max_pdu_chars max_pdus
             (mb_block_sort_by_quantity_desc blocks) []);
      [apply sort_blocks_Forall; assumption | apply Forall_nil | assumption].
Qed.

Lemma ffd_pack_within_limits_witness :
  let blocks := [mk_block 1 3 100 10 false; mk_block 1 3 110 10 false;
                 mk_block 1 3 300 125 false] in
  Forall (pdu_within_limits 253)
    [mk_pdu 1 3 300 125 250; mk_pdu 1 3 100 20 40].
Proof.
  intros blocks.
  apply (ffd_pack_within_limits blocks 253 10).
  - unfold blocks, block_within_limits, within_limits;
      repeat (apply Forall_cons; [vm_compute; intuition discriminate |]);
      apply Forall_nil.
  - reflexivity.
Defined.

(** C3, at an input where the code leaves the documented rule.  A single
    FC03 block of 200 registers: no open PDU takes it, a new PDU is opened
    from it without any check, and the result is a PDU of 400 data bytes
    against the limit 253 and of 200 registers against the limit 125. *)
Theorem ffd_new_pdu_exceeds_limits :
  mb_ffd_pack [mk_block 1 3 0 200 false] 253 10 = Ok [mk_pdu 1 3 0 200 400] /\
  data_size_formula 3 200 = 400 /\
  mb_fc_get_max_quantity 3 = 125 /\
  ~ pdu_within_limits 253 (mk_pdu 1 3 0 200 400).
Proof.
  split; [reflexivity |].
  split; [reflexivity |].
  split; [reflexivity |].
  unfold pdu_within_limits, within_limits; cbn.
  intros [[_ H] _]; revert H; vm_compute; intros H; apply H; reflexivity.
Qed.

(** ** Address folding *)

Lemma bubble_from_spec (t : list Z) (x : Z) :
  exists p m,
    bubble_from x t = p ++ [m] /\
    Permutation (x :: t) (m :: p) /\
    Forall (fun y => y <= m) p.
Proof.
  revert x; induction t as [| y t IH]; intros x; cbn [bubble_from].
  - exists [], x; repeat split; [apply Permutation_refl | apply Forall_nil].
  - destruct (x >? y) eqn:E.
    + destruct (IH x) as (p & m & Hp & Hperm & Hle).
      exists (y :: p), m; rewrite Hp; split; [reflexivity | split].
      * apply perm_trans with (y :: x :: t); [apply perm_swap |].
        apply perm_trans with (y :: m :: p); [apply perm_skip; assumption |].
        apply perm_swap.
      * apply Forall_cons; [| assumption].
        apply Z.gtb_lt in E.
        assert (Hin : In x (m :: p))
          by (apply (Permutation_in _ Hperm); left; reflexivity).
        destruct Hin as [<- | Hin]; [lia |].
        rewrite Forall_forall in Hle; specialize (Hle x Hin); lia.
    + destruct (IH y) as (p & m & Hp & Hperm & Hle).
      exists (x :: p), m; rewrite Hp; split; [reflexivity | split].
      * apply perm_trans with (x :: m :: p); [apply perm_skip; assumption |].
        apply perm_swap.
      * apply Forall_cons; [| assumption].
        rewrite Z.gtb_ltb in E; apply Z.ltb_ge in E.
        assert (Hin : In y (m :: p))
          by (apply (Permutation_in _ Hperm); left; reflexivity).
        destruct Hin as [<- | Hin]; [lia |].
        rewrite Forall_forall in Hle; specialize (Hle y Hin); lia.
Qed.

(** The state of the bubble sort before a pass over [n] cells: the cells
    behind them are sorted and hold the largest values. *)
Lemma bubble_passes_sorted (k : nat) :
  forall (n : nat) (P S : list Z),
    k = pred n -> length P = n ->
    StronglySorted Z.le S ->
    Forall (fun x => Forall (fun y => x <= y) S) P ->
    StronglySorted Z.le (bubble_passes k n (P ++ S)) /\
    Permutation (P ++ S) (bubble_passes k n (P ++ S)).
Proof.
  induction k as [| k IH]; intros n P S Hk Hn HS HPS; cbn [bubble_passes].
  - split; [| apply Permutation_refl].
    destruct P as [| x [| y P]]; cbn [length] in Hn; [assumption | | lia].
    cbn [app]; apply SSorted_cons; [assumption |].
    apply Forall_inv in HPS; assumption.
  - destruct P as [| x t]; cbn [length] in Hn; [lia |].
    subst n; unfold bubble_pass; cbn [app firstn skipn].
    rewrite firstn_app, firstn_all, Nat.sub_diag; cbn [firstn]; rewrite app_nil_r.
    rewrite skipn_app, skipn_all, Nat.sub_diag; cbn [skipn app].
    destruct (bubble_from_spec t x) as (p & m & Hp & Hperm & Hle).
    rewrite Hp, <- app_assoc; cbn [app].
    assert (Hlen : length p = length t).
    { apply Permutation_length in Hperm; cbn [length] in Hperm; lia. }
    assert (HmS : Forall (fun y => m <= y) S).
    { rewrite Forall_forall in HPS; apply HPS.
      apply (Permutation_in _ (Permutation_sym Hperm)); left; reflexivity. }
    destruct (IH (length t) p (m :: S)) as [Hsorted Hperm'].
    + cbn [pred] in Hk; lia.
    + assumption.
    + apply SSorted_cons; assumption.
    + rewrite Forall_forall; intros y Hy.
      apply Forall_cons.
      * rewrite Forall_forall in Hle; apply Hle; assumption.
      * rewrite Forall_forall in HPS; apply HPS.
        apply (Permutation_in _ (Permutation_sym Hperm)); right; assumption.
    + split; [assumption |].
      apply perm_trans with (p ++ m :: S); [| assumption].
      apply perm_trans with ((m :: p) ++ S);
        [exact (Permutation_app_tail S Hperm) |].
      cbn [app]; apply Permutation_middle.
Qed.

Lemma bubble_sort_sorted (l : list Z) :
  StronglySorted Z.le (bubble_sort l) /\ Permutation l (bubble_sort l).
Proof.
  unfold bubble_sort.
  assert (H : Forall (fun x => Forall (fun y => x <= y) []) l)
    by (rewrite Forall_forall; intros; apply Forall_nil).
  pose proof (bubble_passes_sorted (pred (length l)) (length l) l []
                eq_refl eq_refl (SSorted_nil _) H) as H'.
  rewrite app_nil_r in H'; exact H'.
Qed.

Lemma sorted_nodup_strict (l : list Z) :
  StronglySorted Z.le l -> NoDup l -> StronglySorted Z.lt l.
Proof.
  induction 1 as [| x t Ht IH Hx]; intros Hnd.
  - apply SSorted_nil.
  - inversion Hnd as [| ? ? Hnotin Hnd']; subst.
    apply SSorted_cons; [apply IH; assumption |].
    rewrite Forall_forall in *; intros y Hy.
    specialize (Hx y Hy).
    assert (x <> y) by (intros ->; contradiction).
    lia.
Qed.

Lemma group_blocks_spec (slave_id f max_blocks : Z) (rest : list Z) :
  forall (blocks : list mb_block_t) (bs bq prev : Z),
    StronglySorted Z.lt (prev :: rest) ->
    prev = bs + bq - 1 -> 1 <= bq -> bq + len rest <= 65535 ->
    len blocks + 1 + len rest <= max_blocks ->
    exists new,
      group_blocks slave_id f max_blocks blocks bs bq prev rest = Ok (blocks ++ new) /\
      Forall (fresh_block slave_id f) new /\
      Forall (fun b => bs <= blk_start_address b) new /\
      runs_apart new /\
      (forall a, (exists b, In b new /\ block_covers b a) <->
                 (bs <= a <= prev \/ In a rest)).
Proof.
  induction rest as [| cur rest IH]; intros blocks bs bq prev Hsorted Hprev Hbq Hwrap Hcap;
    cbn [group_blocks].
  - replace (len (@nil Z)) with 0 in Hcap by reflexivity.
    destruct (len blocks >=? max_blocks) eqn:E;
      [rewrite Z.geb_leb in E; apply Z.leb_le in E; lia |].
    exists [mk_block slave_id f bs bq false].
    split; [reflexivity |].
    split; [apply Forall_cons; [repeat split; assumption | apply Forall_nil] |].
    split; [apply Forall_cons; [cbn; lia | apply Forall_nil] |].
    split; [cbn; split; [apply Forall_nil | exact I] |].
    intros a; split.
    + intros (b & [<- | []] & Hc); unfold block_covers in Hc; cbn in Hc; lia.
    + intros [Ha | []].
      exists (mk_block slave_id f bs bq false); split; [left; reflexivity |].
      unfold block_covers; cbn; lia.
  - rewrite len_cons in Hwrap, Hcap.
    pose proof (len_nonneg rest) as Hr0.
    pose proof (len_nonneg blocks) as Hb0.
    inversion Hsorted as [| ? ? Hsorted' Hlt]; subst.
    pose proof (Forall_inv Hlt) as Hcur.
    destruct (cur =? bs + bq - 1 + 1) eqn:E.
    + apply Z.eqb_eq in E.
      rewrite to_u16_small by (unfold u16; lia).
      destruct (IH blocks bs (bq + 1) cur) as (new & Hrun & Hfresh & Hstart & Hapart & Hcov);
        try assumption; try lia.
      exists new; repeat (split; [assumption |]).
      intros a; rewrite Hcov; cbn [In]; split.
      * intros [H | H]; [| right; right; assumption].
        destruct (Z.eq_dec a cur); [right; left; lia | left; lia].
      * intros [H | [H | H]]; [left; lia | left; lia | right; assumption].
    + apply Z.eqb_neq in E.
      destruct (len blocks >=? max_blocks) eqn:E1;
        [rewrite Z.geb_leb in E1; apply Z.leb_le in E1; lia |].
      destruct (IH (blocks ++ [mk_block slave_id f bs bq false]) cur 1 cur)
        as (new & Hrun & Hfresh & Hstart & Hapart & Hcov);
        try assumption; try lia.
      { rewrite len_app; unfold len at 2; cbn [length]; lia. }
      exists (mk_block slave_id f bs bq false :: new).
      split; [rewrite Hrun, <- app_assoc; reflexivity |].
      split; [apply Forall_cons; [repeat split; assumption | assumption] |].
      split.
      { apply Forall_cons; [cbn; lia |].
        apply (Forall_impl _ (P := fun b => cur <= blk_start_address b));
          [intros; lia | assumption]. }
      split.
      { cbn [runs_apart]; split; [| assumption].
        apply (Forall_impl _ (P := fun b => cur <= blk_start_address b));
          [| assumption].
        intros b Hb; unfold block_end; cbn; lia. }
      intros a; split.
      * intros (b & [<- | Hin] & Hc).
        -- unfold block_covers in Hc; cbn in Hc; lia.
        -- assert (H : cur <= a <= cur \/ In a rest)
             by (apply Hcov; exists b; split; assumption).
           cbn [In]; destruct H as [H | H]; [right; left; lia | right; right; assumption].
      * intros [Ha | Ha].
        -- exists (mk_block slave_id f bs bq false); split; [left; reflexivity |].
           unfold block_covers; cbn; lia.
        -- assert (H : cur <= a <= cur \/ In a rest)
             by (destruct Ha as [<- | Ha]; [left; lia | right; assumption]).
           apply Hcov in H; destruct H as (b & Hin & Hc).
           exists b; split; [right; assumption | assumption].
Qed.

(** Blocks that lie apart are pairwise disjoint, in either order. *)
Lemma runs_apart_pairwise (blocks : list mb_block_t) (b b' : mb_block_t) :
  runs_apart blocks -> In b blocks -> In b' blocks ->
  b = b' \/ block_end b < blk_start_address b' \/ block_end b' < blk_start_address b.
Proof.
  induction blocks as [| x t IH]; intros Hap Hb Hb'; [contradiction |].
  destruct Hap as [Hx Ht]; rewrite Forall_forall in Hx.
  destruct Hb as [<- | Hb], Hb' as [<- | Hb'].
  - left; reflexivity.
  - right; left; apply Hx; assumption.
  - right; right; apply Hx; assumption.
  - apply IH; assumption.
Qed.

(** [test_block_utils.c]: contiguous, non-contiguous and unsorted input. *)
Example addresses_to_blocks_tests :
  mb_addresses_to_blocks [100; 101; 102; 103] 1 3 10 = Ok [mk_block 1 3 100 4 false] /\
  mb_addresses_to_blocks [100; 101; 105; 106] 1 3 10 =
    Ok [mk_block 1 3 100 2 false; mk_block 1 3 105 2 false] /\
  mb_addresses_to_blocks [105; 100; 102; 101] 1 3 10 =
    Ok [mk_block 1 3 100 3 false; mk_block 1 3 105 1 false] /\
  mb_addresses_to_blocks [] 1 99 0 = Ok [] /\
  mb_addresses_to_blocks [7] 1 99 1 = Err MB_ERROR_INVALID_FC.
Proof. repeat split. Qed.

Lemma group_blocks_total (slave_id f max_blocks : Z) (rest : list Z) :
  forall (blocks : list mb_block_t) (bs bq prev : Z),
    len blocks + 1 + len rest <= max_blocks ->
    exists new,
      group_blocks slave_id f max_blocks blocks bs bq prev rest = Ok (blocks ++ new) /\
      1 <= len new <= 1 + len rest.
Proof.
  induction rest as [| cur rest IH]; intros blocks bs bq prev Hcap; cbn [group_blocks].
  - change (len (@nil Z)) with 0 in *.
    destruct (len blocks >=? max_blocks) eqn:E;
      [rewrite Z.geb_leb in E; apply Z.leb_le in E; lia |].
    eexists; split; [reflexivity | change (len [_]) with 1; lia].
  - rewrite len_cons in *.
    pose proof (len_nonneg rest) as Hr0.
    destruct (cur =? prev + 1).
    + destruct (IH blocks bs (to_u16 (bq + 1)) cur) as (new & Hrun & Hl); [lia |].
      exists new; split; [assumption | lia].
    + destruct (len blocks >=? max_blocks) eqn:E1;
        [rewrite Z.geb_leb in E1; apply Z.leb_le in E1; lia |].
      destruct (IH (blocks ++ [mk_block slave_id f bs bq false]) cur 1 cur)
        as (new & Hrun & Hl).
      { rewrite len_app; change (len [_]) with 1; lia. }
      exists (mk_block slave_id f bs bq false :: new).
      split; [rewrite Hrun, <- app_assoc; reflexivity | rewrite len_cons; lia].
Qed.

Lemma bubble_sort_len (A : list Z) : len (bubble_sort A) = len A.
Proof.
  destruct (bubble_sort_sorted A) as [_ Hperm].
  unfold len; rewrite (Permutation_length Hperm); reflexivity.
Qed.

Lemma group_blocks_prefix (slave_id f max_blocks : Z) (rest : list Z) :
  forall (blocks : list mb_block_t) (bs bq prev : Z) (out : list mb_block_t),
    group_blocks slave_id f max_blocks blocks bs bq prev rest = Ok out ->
    exists new, out = blocks ++ new.
Proof.
  induction rest as [| cur rest IH]; intros blocks bs bq prev out; cbn [group_blocks].
  - destruct (len blocks >=? max_blocks); [discriminate |].
    intros H; injection H as <-; eexists; reflexivity.
  - destruct (cur =? prev + 1); [apply IH |].
    destruct (len blocks >=? max_blocks); [discriminate |].
    intros H; destruct (IH _ _ _ _ _ H) as [n ->].
    rewrite <- app_assoc; eexists; reflexivity.
Qed.

Lemma group_blocks_grows (slave_id f max_blocks : Z) (rest : list Z) :
  forall (blocks : list mb_block_t) (bs bq prev : Z) (out : list mb_block_t),
    group_blocks slave_id f max_blocks blocks bs bq prev rest = Ok out ->
    len blocks + 1 <= len out.
Proof.
  induction rest as [| cur rest IH]; intros blocks bs bq prev out; cbn [group_blocks].
  - destruct (len blocks >=? max_blocks); [discriminate |].
    intros H; injection H as <-.
    rewrite len_app; change (len [_]) with 1; lia.
  - destruct (cur =? prev + 1); [apply IH |].
    destruct (len blocks >=? max_blocks); [discriminate |].
    intros H; apply IH in H.
    rewrite len_app in H; change (len [_]) with 1 in H; lia.
Qed.

(** The capacity of the output array decides between success and
    [MB_ERROR_TOO_MANY_BLOCKS] only: what the loop writes when there is room
    is what it writes with any other capacity that holds it. *)
Lemma group_blocks_room (slave_id f m max_blocks : Z) (rest : list Z) :
  forall (blocks : list mb_block_t) (bs bq prev : Z) (out : list mb_block_t),
    group_blocks slave_id f max_blocks blocks bs bq prev rest = Ok out ->
    group_blocks slave_id f m blocks bs bq prev rest =
      if len out <=? m then Ok out else Err MB_ERROR_TOO_MANY_BLOCKS.
Proof.
  induction rest as [| cur rest IH]; intros blocks bs bq prev out; cbn [group_blocks].
  - destruct (len blocks >=? max_blocks); [discriminate |].
    intros H; injection H as <-.
    rewrite len_app; change (len [_]) with 1.
    destruct (len blocks >=? m) eqn:E; rewrite Z.geb_leb in E.
    + apply Z.leb_le in E.
      replace (len blocks + 1 <=? m) with false by (symmetry; apply Z.leb_gt; lia).
      reflexivity.
    + apply Z.leb_gt in E.
      replace (len blocks + 1 <=? m) with true by (symmetry; apply Z.leb_le; lia).
      reflexivity.
  - destruct (cur =? prev + 1); [apply IH |].
    destruct (len blocks >=? max_blocks); [discriminate |].
    intros H.
    destruct (len blocks >=? m) eqn:E; rewrite Z.geb_leb in E.
    + apply Z.leb_le in E.
      apply group_blocks_grows in H.
      rewrite len_app in H; change (len [_]) with 1 in H.
      replace (len out <=? m) with false by (symmetry; apply Z.leb_gt; lia).
      reflexivity.
    + apply IH; assumption.
Qed.

Lemma addresses_to_blocks_room (A : list Z) (slave_id f m : Z)
  (out : list mb_block_t) :
  0 <= m ->
  mb_addresses_to_blocks A slave_id f (len A) = Ok out ->
  mb_addresses_to_blocks A slave_id f m =
    if len out <=? m then Ok out else Err MB_ERROR_TOO_MANY_BLOCKS.
Proof.
  intros Hm; unfold mb_addresses_to_blocks.
  assert (Hnil : @Ok (list mb_block_t) [] =
                 if len (@nil mb_block_t) <=? m then Ok []
                 else Err MB_ERROR_TOO_MANY_BLOCKS).
  { change (len (@nil mb_block_t)) with 0.
    replace (0 <=? m) with true by (symmetry; apply Z.leb_le; assumption).
    reflexivity. }
  destruct (len A =? 0); [intros H; injection H as <-; exact Hnil |].
  destruct (negb (mb_fc_is_valid f)); [discriminate |].
  destruct (bubble_sort A) as [| first rest];
    [intros H; injection H as <-; exact Hnil |].
  apply group_blocks_room.
Qed.

(** C1 as the code has it.  For a list [A] of distinct addresses (at most
    65535 of them, the range of [count]), a valid function code and any
    capacity [max_blocks] of the output array, there is one list of blocks
    that carry the slave and the function code, are sorted by start address
    with at least one address left out between one block and the next,
    cover exactly the addresses of [A], and are maximal runs (the address
    just before a block and the address just after it are not in [A]).
    [mb_addresses_to_blocks] returns these blocks when their number is at
    most [max_blocks], and [MB_ERROR_TOO_MANY_BLOCKS] when it is not. *)
Theorem addresses_to_blocks_runs (A : list Z) (slave_id f max_blocks : Z) :
  Forall u16 A -> NoDup A -> len A <= 65535 ->
  mb_fc_is_valid f = true -> 0 <= max_blocks ->
  exists blocks,
    mb_addresses_to_blocks A slave_id f max_blocks =
      (if len blocks <=? max_blocks then Ok blocks
       else Err MB_ERROR_TOO_MANY_BLOCKS) /\
    Forall (fresh_block slave_id f) blocks /\
    runs_apart blocks /\
    (forall a, In a A <-> exists b, In b blocks /\ block_covers b a) /\
    (forall b, In b blocks ->
       u16 (blk_start_address b) /\ block_end b <= 65536 /\
       ~ In (blk_start_address b - 1) A /\ ~ In (block_end b) A).
Proof.
  intros Hu16 Hnd Hcount Hfc Hcap.
  assert (Hmain : exists blocks,
    mb_addresses_to_blocks A slave_id f (len A) = Ok blocks /\
    Forall (fresh_block slave_id f) blocks /\
    runs_apart blocks /\
    (forall a, In a A <-> exists b, In b blocks /\ block_covers b a)).
  { unfold mb_addresses_to_blocks; rewrite Hfc; cbn [negb].
    destruct (len A =? 0) eqn:E.
    - exists []; split; [reflexivity |].
      split; [apply Forall_nil |].
      split; [exact I |].
      apply Z.eqb_eq in E; destruct A; [| rewrite len_cons in E; pose proof (len_nonneg A); lia].
      intros a; split; [intros [] | intros (b & [] & _)].
    - destruct (bubble_sort_sorted A) as [Hsorted Hperm].
      assert (Hstrict : StronglySorted Z.lt (bubble_sort A)).
      { apply sorted_nodup_strict; [assumption |].
        apply (Permutation_NoDup Hperm); assumption. }
      pose proof (bubble_sort_len A) as Hlen.
      destruct (bubble_sort A) as [| first rest] eqn:Hs.
      + apply Z.eqb_neq in E; unfold len in Hlen at 1; cbn in Hlen; lia.
      + rewrite len_cons in Hlen.
        destruct (group_blocks_spec slave_id f (len A) rest [] first 1 first)
          as (blocks & Hrun & Hfresh & _ & Hapart & Hcov);
          try assumption; try lia.
        { unfold len at 1; cbn [length]; lia. }
        exists blocks; split; [exact Hrun |].
        split; [assumption |].
        split; [assumption |].
        intros a; rewrite Hcov; split.
        * intros Ha; apply (Permutation_in _ Hperm) in Ha.
          destruct Ha as [<- | Ha]; [left; lia | right; assumption].
        * intros Ha; apply (Permutation_in _ (Permutation_sym Hperm)).
          destruct Ha as [Ha | Ha]; [left; lia | right; assumption]. }
  destruct Hmain as (blocks & Hrun & Hfresh & Hapart & Hcov).
  exists blocks.
  split; [exact (addresses_to_blocks_room A slave_id f max_blocks blocks Hcap Hrun) |].
  repeat (split; [assumption |]).
  intros b Hb.
  rewrite Forall_forall in Hfresh, Hu16.
  pose proof (Hfresh b Hb) as (_ & _ & _ & Hq).
  assert (Hfirst : In (blk_start_address b) A).
  { apply Hcov; exists b; split; [assumption | unfold block_covers; lia]. }
  assert (Hlast : In (block_end b - 1) A).
  { apply Hcov; exists b; split; [assumption | unfold block_covers, block_end; lia]. }
  pose proof (Hu16 _ Hfirst) as Hf16.
  pose proof (Hu16 _ Hlast) as Hl16.
  split; [assumption |].
  split; [unfold u16 in Hl16; lia |].
  split; intros Hin; apply Hcov in Hin; destruct Hin as (b' & Hb' & Hc);
    pose proof (Hfresh b' Hb') as (_ & _ & _ & Hq');
    destruct (runs_apart_pairwise blocks b b' Hapart Hb Hb') as [<- | [H | H]];
    unfold block_covers, block_end in *; lia.
Qed.

Lemma addresses_to_blocks_runs_witness :
  exists blocks,
    mb_addresses_to_blocks [105; 100; 102; 101] 1 3 2 =
      (if len blocks <=? 2 then Ok blocks else Err MB_ERROR_TOO_MANY_BLOCKS) /\
    Forall (fresh_block 1 3) blocks /\
    runs_apart blocks /\
    (forall a, In a [105; 100; 102; 101] <->
               exists b, In b blocks /\ block_covers b a) /\
    (forall b, In b blocks ->
       u16 (blk_start_address b) /\ block_end b <= 65536 /\
       ~ In (blk_start_address b - 1) [105; 100; 102; 101] /\
       ~ In (block_end b) [105; 100; 102; 101]).
Proof.
  apply (addresses_to_blocks_runs [105; 100; 102; 101] 1 3 2).
  - repeat (apply Forall_cons; [unfold u16; lia |]); apply Forall_nil.
  - repeat (apply NoDup_cons; [cbn [In]; intuition lia |]); apply NoDup_nil.
  - vm_compute; discriminate.
  - reflexivity.
  - lia.
Defined.

(** C1 as stated fails on the code.  A repeated address is not dropped: it
    ends the current block and starts another one, so [5; 5] gives two
    blocks on the same address, which overlap.  And the call does not always
    succeed: two runs do not fit an output array of one block. *)
Lemma addresses_to_blocks_keeps_duplicates :
  mb_fc_is_valid 3 = true /\
  mb_addresses_to_blocks [5; 5] 1 3 2 =
    Ok [mk_block 1 3 5 1 false; mk_block 1 3 5 1 false] /\
  ~ runs_apart [mk_block 1 3 5 1 false; mk_block 1 3 5 1 false] /\
  (block_covers (mk_block 1 3 5 1 false) 5) /\
  mb_addresses_to_blocks [1; 3] 1 3 1 = Err MB_ERROR_TOO_MANY_BLOCKS.
Proof.
  split; [reflexivity |].
  split; [reflexivity |].
  split.
  - intros [H _]; apply Forall_inv in H; unfold block_end in H; cbn in H; lia.
  - split; [unfold block_covers; cbn; lia | reflexivity].
Qed.

(** *** Lists with repeated addresses *)

Lemma address_run_snoc (start quantity : Z) :
  0 <= quantity ->
  address_run start (quantity + 1) = address_run start quantity ++ [start + quantity].
Proof.
  intros Hq; unfold address_run.
  rewrite Z2Nat.inj_add by lia.
  change (Z.to_nat 1) with 1%nat.
  rewrite Nat.add_1_r, seq_S, map_app; cbn [map Nat.add].
  rewrite Z2Nat.id by lia; reflexivity.
Qed.

Lemma address_run_one (start : Z) : address_run start 1 = [start].
Proof.
  unfold address_run; change (Z.to_nat 1) with 1%nat; cbn [seq map].
  change (Z.of_nat 0) with 0; rewrite Z.add_0_r; reflexivity.
Qed.

Lemma group_blocks_flatten (slave_id f max_blocks : Z) (rest : list Z) :
  forall (blocks : list mb_block_t) (bs bq prev : Z),
    prev = bs + bq - 1 -> 1 <= bq -> bq + len rest <= 65535 ->
    len blocks + 1 + len rest <= max_blocks ->
    exists new,
      group_blocks slave_id f max_blocks blocks bs bq prev rest = Ok (blocks ++ new) /\
      flat_map block_addresses new = address_run bs bq ++ rest.
Proof.
  induction rest as [| cur rest IH]; intros blocks bs bq prev Hprev Hbq Hwrap Hcap;
    cbn [group_blocks].
  - replace (len (@nil Z)) with 0 in Hcap by reflexivity.
    destruct (len blocks >=? max_blocks) eqn:E;
      [rewrite Z.geb_leb in E; apply Z.leb_le in E; lia |].
    exists [mk_block slave_id f bs bq false]; split; [reflexivity |].
    cbn [flat_map]; unfold block_addresses; cbn; reflexivity.
  - rewrite len_cons in Hwrap, Hcap.
    pose proof (len_nonneg rest) as Hr0.
    pose proof (len_nonneg blocks) as Hb0.
    subst prev.
    destruct (cur =? bs + bq - 1 + 1) eqn:E.
    + apply Z.eqb_eq in E.
      rewrite to_u16_small by (unfold u16; lia).
      destruct (IH blocks bs (bq + 1) cur) as (new & Hrun & Hflat); try lia.
      exists new; split; [assumption |].
      rewrite Hflat, address_run_snoc, <- app_assoc by lia.
      cbn [app]; do 3 f_equal; lia.
    + destruct (len blocks >=? max_blocks) eqn:E1;
        [rewrite Z.geb_leb in E1; apply Z.leb_le in E1; lia |].
      destruct (IH (blocks ++ [mk_block slave_id f bs bq false]) cur 1 cur)
        as (new & Hrun & Hflat); try lia.
      { rewrite len_app; unfold len at 2; cbn [length]; lia. }
      exists (mk_block slave_id f bs bq false :: new).
      split; [rewrite Hrun, <- app_assoc; reflexivity |].
      cbn [flat_map]; rewrite Hflat.
      unfold block_addresses at 1; cbn [blk_start_address blk_quantity].
      rewrite address_run_one; reflexivity.
Qed.

(** What the folding does with any list of addresses, repeated ones
    included: the address ranges of the blocks, laid end to end, are the
    sorted list.  A repeated address therefore shows up in as many blocks as
    the list has copies of it. *)
Lemma addresses_to_blocks_flatten (A : list Z) (slave_id f max_blocks : Z) :
  len A <= 65535 -> mb_fc_is_valid f = true -> len A <= max_blocks ->
  exists blocks,
    mb_addresses_to_blocks A slave_id f max_blocks = Ok blocks /\
    flat_map block_addresses blocks = bubble_sort A /\
    StronglySorted Z.le (bubble_sort A) /\
    Permutation A (bubble_sort A).
Proof.
  intros Hcount Hfc Hcap.
  destruct (bubble_sort_sorted A) as [Hsorted Hperm].
  unfold mb_addresses_to_blocks; rewrite Hfc; cbn [negb].
  destruct (len A =? 0) eqn:E.
  - apply Z.eqb_eq in E.
    destruct A; [| rewrite len_cons in E; pose proof (len_nonneg A); lia].
    exists []; repeat split; [apply SSorted_nil | apply Permutation_refl].
  - assert (Hlen : len (bubble_sort A) = len A).
    { unfold len; rewrite (Permutation_length Hperm); reflexivity. }
    destruct (bubble_sort A) as [| first rest] eqn:Hs.
    + apply Z.eqb_neq in E; unfold len in Hlen at 1; cbn in Hlen; lia.
    + rewrite len_cons in Hlen.
      destruct (group_blocks_flatten slave_id f max_blocks rest [] first 1 first)
        as (blocks & Hrun & Hflat); try lia.
      { unfold len at 1; cbn [length]; lia. }
      exists blocks; split; [exact Hrun |].
      split; [| split; assumption].
      rewrite Hflat, address_run_one; reflexivity.
Qed.

Lemma addresses_to_blocks_flatten_witness :
  exists blocks,
    mb_addresses_to_blocks [6; 5; 5; 9] 1 3 4 = Ok blocks /\
    flat_map block_addresses blocks = bubble_sort [6; 5; 5; 9] /\
    StronglySorted Z.le (bubble_sort [6; 5; 5; 9]) /\
    Permutation [6; 5; 5; 9] (bubble_sort [6; 5; 5; 9]).
Proof.
  apply (addresses_to_blocks_flatten [6; 5; 5; 9] 1 3 4).
  - vm_compute; discriminate.
  - reflexivity.
  - vm_compute; discriminate.
Defined.

(** ** Merger and packer: the worked examples of the documentation *)

(** Blocks (100,3) and (105,3) are merged into (100,8); (100,3) and (150,3)
    are not; the array of [test_merge_block_array] comes out as two blocks.
    For the addresses 100-102 and 115-117 the merger keeps two blocks (the
    gap of 12 registers costs 24 against 17), and the packer then puts both
    into one PDU, whose span of 18 registers satisfies the limits. *)
Example merge_and_pack_examples :
  let cost := mk_cost 6 5 4 2 in
  mb_should_merge_blocks (mk_block 1 3 100 3 false) (mk_block 1 3 105 3 false) cost
    = true /\
  mb_merge_two_blocks (mk_block 1 3 100 3 false) (mk_block 1 3 105 3 false)
    = Ok (mk_block 1 3 100 8 true) /\
  mb_should_merge_blocks (mk_block 1 3 100 3 false) (mk_block 1 3 150 3 false) cost
    = false /\
  mb_should_merge_blocks (mk_block 1 3 100 3 false) (mk_block 2 3 105 3 false) cost
    = false /\
  mb_merge_block_array
    [mk_block 1 3 100 3 false; mk_block 1 3 105 3 false; mk_block 1 3 200 5 false]
    cost = Ok [mk_block 1 3 100 8 true; mk_block 1 3 200 5 false] /\
  mb_merge_block_array [mk_block 1 3 100 3 false; mk_block 1 3 115 3 false] cost
    = Ok [mk_block 1 3 100 3 false; mk_block 1 3 115 3 false] /\
  mb_ffd_pack [mk_block 1 3 100 3 false; mk_block 1 3 115 3 false] 253 2
    = Ok [mk_pdu 1 3 100 18 36].
Proof. repeat split. Qed.

(** ** Request optimiser *)

(** The optimiser as a table.  [max_plans] is a [uint16_t]. *)
Lemma optimize_request_table (memory : mb_memory_t) (request : mb_read_request_t)
  (mode : mb_mode_t) (max_pdu_chars latency_chars max_plans : Z) :
  0 <= max_plans ->
  mb_optimize_request memory request mode max_pdu_chars latency_chars max_plans =
    if address_count request =? 0 then Some (Ok [])
    else if max_plans =? 0 then Some (Err MB_ERROR_INVALID_PARAM)
    else if req_slave_id request =? 0 then Some (Err MB_ERROR_INVALID_PARAM)
    else if req_function_code request =? 0 then Some (Ok [])
    else if mb_fc_is_valid (to_u8 (address_count request)) then None
    else Some (Err MB_ERROR_INVALID_FC).
Proof.
  intros Hm; unfold mb_optimize_request, mb_addresses_to_blocks_at.
  destruct (address_count request =? 0); [reflexivity |].
  destruct (max_plans =? 0); [reflexivity |].
  destruct (req_slave_id request =? 0); [reflexivity |].
  destruct (req_function_code request =? 0).
  - change (mb_merge_block_array [] ?c) with (@Ok (list mb_block_t) []).
    cbv iota beta.
    assert (Hp : forall n, mb_ffd_pack [] max_pdu_chars n = Ok [])
      by (intros n; reflexivity).
    destruct memory; rewrite Hp; change (len (@nil mb_pdu_t)) with 0;
      (replace (0 >? max_plans) with false
         by (symmetry; rewrite Z.gtb_ltb; apply Z.ltb_ge; assumption));
      reflexivity.
  - destruct (mb_fc_is_valid (to_u8 (address_count request))); reflexivity.
Qed.


(** What [mb_optimize_request] returns, in either build and for every
    request and all settings.  A successful call returns no plan, and it
    happens for an empty request and for a request with a slave id other
    than 0 and function code 0 only.  An error is reported for a request
    that is not empty only: [MB_ERROR_INVALID_PARAM] for [max_plans = 0] or
    slave id 0, [MB_ERROR_INVALID_FC] when the low byte of the number of
    addresses is not one of the function codes of the policy table.  In
    every other case (a slave id and a function code other than 0, and a
    number of addresses whose low byte is a function code) the call reads
    through the slave id used as an address and has no defined result. *)
Theorem optimize_request_outcome (memory : mb_memory_t) (request : mb_read_request_t)
  (mode : mb_mode_t) (max_pdu_chars latency_chars max_plans : Z) :
  0 <= max_plans ->
  match mb_optimize_request memory request mode max_pdu_chars latency_chars
          max_plans with
  | Some (Ok plans) =>
      plans = [] /\
      (address_count request = 0 \/
       max_plans <> 0 /\ req_slave_id request <> 0 /\ req_function_code request = 0)
  | Some (Err e) =>
      address_count request <> 0 /\
      (e = MB_ERROR_INVALID_PARAM /\ (max_plans = 0 \/ req_slave_id request = 0) \/
       e = MB_ERROR_INVALID_FC /\ max_plans <> 0 /\ req_slave_id request <> 0 /\
       req_function_code request <> 0 /\
       mb_fc_is_valid (to_u8 (address_count request)) = false)
  | None =>
      address_count request <> 0 /\ max_plans <> 0 /\
      req_slave_id request <> 0 /\ req_function_code request <> 0 /\
      mb_fc_is_valid (to_u8 (address_count request)) = true
  end.
Proof.
  intros Hm; rewrite optimize_request_table by assumption.
  destruct (address_count request =? 0) eqn:E0;
    [apply Z.eqb_eq in E0; split; [reflexivity | left; assumption] |].
  apply Z.eqb_neq in E0.
  destruct (max_plans =? 0) eqn:E1;
    [apply Z.eqb_eq in E1; split; [assumption | left; split; [reflexivity | left; assumption]] |].
  apply Z.eqb_neq in E1.
  destruct (req_slave_id request =? 0) eqn:E2;
    [apply Z.eqb_eq in E2; split; [assumption | left; split; [reflexivity | right; assumption]] |].
  apply Z.eqb_neq in E2.
  destruct (req_function_code request =? 0) eqn:E3;
    [apply Z.eqb_eq in E3; split; [reflexivity | right; repeat split; assumption] |].
  apply Z.eqb_neq in E3.
  destruct (mb_fc_is_valid (to_u8 (address_count request))) eqn:E4.
  - repeat split; assumption.
  - split; [assumption | right; repeat split; assumption].
Qed.

Lemma optimize_request_outcome_witness :
  match mb_optimize_request heap_memory
          (mk_request 1 3 [100; 101; 102; 103; 104; 105; 106]) MB_MODE_RTU 253 2 16 with
  | Some (Ok plans) =>
      plans = [] /\
      (address_count (mk_request 1 3 [100; 101; 102; 103; 104; 105; 106]) = 0 \/
       16 <> 0 /\ 1 <> 0 /\ 3 = 0)
  | Some (Err e) =>
      address_count (mk_request 1 3 [100; 101; 102; 103; 104; 105; 106]) <> 0 /\
      (e = MB_ERROR_INVALID_PARAM /\ (16 = 0 \/ 1 = 0) \/
       e = MB_ERROR_INVALID_FC /\ 16 <> 0 /\ 1 <> 0 /\ 3 <> 0 /\
       mb_fc_is_valid
         (to_u8 (address_count (mk_request 1 3 [100; 101; 102; 103; 104; 105; 106]))) =
         false)
  | None =>
      address_count (mk_request 1 3 [100; 101; 102; 103; 104; 105; 106]) <> 0 /\
      16 <> 0 /\ 1 <> 0 /\ 3 <> 0 /\
      mb_fc_is_valid
        (to_u8 (address_count (mk_request 1 3 [100; 101; 102; 103; 104; 105; 106]))) =
        true
  end.
Proof.
  apply (optimize_request_outcome heap_memory
           (mk_request 1 3 [100; 101; 102; 103; 104; 105; 106]) MB_MODE_RTU 253 2 16).
  lia.
Defined.

(** A request for holding registers (function code 3): seven addresses are
    refused, three addresses have no defined result, 259 addresses neither
    (the low byte of 259 is 3); slave id 0 is refused; function code 0 and
    the empty request succeed without a plan.  The static build agrees. *)
Example optimize_request_examples :
  let optimise memory request :=
    mb_optimize_request memory request MB_MODE_RTU 253 2 16 in
  optimise heap_memory (mk_request 1 3 [100; 101; 102; 103; 104; 105; 106]) =
    Some (Err MB_ERROR_INVALID_FC) /\
  optimise heap_memory (mk_request 1 3 [100; 101; 400]) = None /\
  optimise heap_memory (mk_request 1 3 (map Z.of_nat (seq 0 259))) = None /\
  optimise heap_memory (mk_request 0 3 [100; 101; 400]) =
    Some (Err MB_ERROR_INVALID_PARAM) /\
  optimise heap_memory (mk_request 1 0 [100; 101; 400]) = Some (Ok []) /\
  optimise heap_memory (mk_request 1 3 []) = Some (Ok []) /\
  optimise (static_memory 64 16) (mk_request 1 3 [100; 101; 400]) = None /\
  optimise (static_memory 64 16) (mk_request 1 0 [100; 101; 400]) = Some (Ok []).
Proof. vm_compute; repeat split. Qed.

(** ** Master: optimised read *)

Lemma to_u32_add_l (a b : Z) : to_u32 (to_u32 a + b) = to_u32 (a + b).
Proof. unfold to_u32; apply Zplus_mod_idemp_l. Qed.




Section OptimisedRead.

Variable world : Type.
Variable memory : mb_memory_t.
Variable store_bytes : list Z -> list Z -> list Z.

(** One plan: a return out of the loop leaves the stores as they were and
    counts at most one request; a completed round trip appends the stores
    of the copy loop and counts two. *)
Lemma execute_plan_cases (cfg : mb_config_t world) (buffer_size : Z)
  (plan : mb_request_plan_t) (st : exec_t world) :
  match execute_plan store_bytes cfg buffer_size plan st with
  | inl (_, st') =>
      ex_writes st' = ex_writes st /\ ex_data_index st' = ex_data_index st /\
      (ex_stats st' = ex_stats st \/
       ex_stats st' = bump_total_requests (ex_stats st))
  | inr st' =>
      exists temp sent received,
        (ex_data_index st', ex_writes st') =
          copy_words temp buffer_size 0 (Z.to_nat (plan_quantity plan))
            (ex_data_index st) (ex_writes st) /\
        ex_stats st' =
          add_chars (bump_total_requests (bump_total_requests (ex_stats st)))
            sent received
  end.
Proof.
  unfold execute_plan.
  destruct (mb_build_frame _ _ _ _ _) as [frame_buffer | e];
    [| cbn; repeat split; auto].
  destruct (send (transport cfg)) as [send_fn |]; [| cbn; repeat split; auto].
  destruct (send_fn (ex_world st) frame_buffer) as [sent w1].
  destruct (sent <? 0); [cbn; repeat split; auto |].
  destruct (recv (transport cfg)) as [recv_fn |]; [| cbn; repeat split; auto].
  destruct (recv_fn _ 260) as [[recv_result response_buffer] w2].
  destruct ((recv_result <? 0) || (len response_buffer =? 0));
    [cbn; repeat split; auto |].
  destruct (mb_parse_frame _ _) as [resp | e]; [| cbn; repeat split; auto].
  destruct (negb (frame_slave_id resp =? plan_slave_id plan));
    [cbn; repeat split; auto |].
  destruct (mb_parse_read_response _ _ _) as [d | e]; [| cbn; repeat split; auto].
  cbn [with_stats with_world ex_writes ex_data_index ex_stats ex_temp ex_world].
  destruct (copy_words _ _ _ _ _ _) as [data_index writes] eqn:Hcopy.
  cbn [ex_writes ex_data_index ex_stats].
  eexists _, _, _; split; [symmetry; exact Hcopy | reflexivity].
Qed.




End OptimisedRead.


Section OptimisedReadStatistics.

Variable world : Type.
Variable memory : mb_memory_t.
Variable store_bytes : list Z -> list Z -> list Z.

(** The plan loop counts two requests for every plan it completes. *)
Lemma execute_plans_stats (cfg : mb_config_t world) (buffer_size : Z)
  (plans : list mb_request_plan_t) :
  forall st st' : exec_t world,
    u32 (total_requests (ex_stats st)) ->
    execute_plans store_bytes cfg buffer_size plans st = inr st' ->
    total_requests (ex_stats st') =
      to_u32 (total_requests (ex_stats st) + 2 * len plans) /\
    optimized_requests (ex_stats st') = optimized_requests (ex_stats st) /\
    rounds_saved (ex_stats st') = rounds_saved (ex_stats st) /\
    blocks_merged (ex_stats st') = blocks_merged (ex_stats st).
Proof.
  induction plans as [| plan rest IH]; intros st st' Hr H; cbn [execute_plans] in H.
  - injection H as <-.
    replace (len (@nil mb_request_plan_t)) with 0 by reflexivity.
    rewrite Z.mul_0_r, Z.add_0_r, to_u32_small by assumption.
    repeat split.
  - pose proof (execute_plan_cases world store_bytes cfg buffer_size plan st) as Hc.
    destruct (execute_plan store_bytes cfg buffer_size plan st) as [[e st1] | st1];
      [discriminate |].
    destruct Hc as (temp & sent & received & _ & Hs).
    destruct (IH st1 st') as (H1 & H2 & H3 & H4); [| assumption |].
    + rewrite Hs; cbn [add_chars bump_total_requests total_requests].
      unfold u32, to_u32; apply Z.mod_pos_bound; lia.
    + rewrite H1, H2, H3, H4, Hs.
      cbn [add_chars bump_total_requests total_requests optimized_requests
           rounds_saved blocks_merged].
      rewrite len_cons, to_u32_add_l, <- Z.add_assoc, to_u32_add_l.
      repeat split; f_equal; lia.
Qed.




End OptimisedReadStatistics.



(** Requests with a read function code: seven addresses are refused with
    [MB_ERROR_INVALID_FC] (7 is no function code); three addresses send the
    optimiser into the read through the slave id ([None]); every call
    leaves the buffer and the transport alone. *)
Example read_optimized_examples :
  let master :=
    mk_master (mk_config MB_MODE_RTU 253 4 2 scripted_transport 1000) 0
      (mk_stats 0 0 0 0 0 0) in
  let read request buffer_size :=
    mb_master_read_optimized heap_memory (fun temp _ => temp) master request
      buffer_size [rtu_answer 1 3 [4; 0; 11; 0; 12]] [] in
  out_status (read (mk_request 1 3 [100; 101; 102; 103; 104; 105; 106]) 7) =
    Some (Err MB_ERROR_INVALID_FC) /\
  out_status (read (mk_request 1 3 [100; 101; 400]) 3) = None /\
  out_status (read (mk_request 0 3 [100; 101; 400]) 3) =
    Some (Err MB_ERROR_INVALID_PARAM) /\
  out_status (read (mk_request 1 3 []) 0) = Some (Ok tt) /\
  out_status (read (mk_request 1 0 [100; 101; 400]) 3) = Some (Ok tt) /\
  out_world (read (mk_request 1 0 [100; 101; 400]) 3) =
    [rtu_answer 1 3 [4; 0; 11; 0; 12]].
Proof. vm_compute; repeat split. Qed.

(** ** Function code policy *)

Lemma policy_outside_table (f : Z) :
  ~ In f [1; 2; 3; 4; 5; 6; 15; 16; 22; 23] -> mb_fc_get_policy f = None.
Proof.
  intros H; cbn [In] in H.
  unfold mb_fc_get_policy, fc_policy_table; cbn [find fc].
  repeat match goal with
         | |- context [?k =? f] =>
             let E := fresh in
             destruct (k =? f) eqn:E; [apply Z.eqb_eq in E; exfalso; intuition lia |]
         end.
  reflexivity.
Qed.

Lemma in_table_dec (f : Z) :
  In f [1; 2; 3; 4; 5; 6; 15; 16; 22; 23] \/ ~ In f [1; 2; 3; 4; 5; 6; 15; 16; 22; 23].
Proof.
  destruct (in_dec Z.eq_dec f [1; 2; 3; 4; 5; 6; 15; 16; 22; 23]); [left | right]; assumption.
Qed.

Lemma supports_merge_cases (f : Z) :
  mb_fc_supports_merge f = true -> f = 1 \/ f = 2 \/ f = 3 \/ f = 4.
Proof.
  intros H; destruct (in_table_dec f) as [Hin | Hout].
  - cbn [In] in Hin.
    repeat (destruct Hin as [<- | Hin]; [try (vm_compute in H; discriminate); lia |]).
    contradiction.
  - unfold mb_fc_supports_merge in H; rewrite (policy_outside_table f Hout) in H.
    discriminate.
Qed.

(** The policy table and the [switch] of [mb_fc_get_unit_size] name the
    same ten function codes: a code is valid exactly when it is one of
    1, 2, 3, 4, 5, 6, 15, 16, 22, 23, exactly when its unit size is not 0 and
    exactly when its quantity limit is at least 1.  Merging is supported for
    the codes 1 to 4 and for no other; every code that supports merging is a
    read code, but the read code 23 does not support merging; a valid code
    is a write code exactly when it is not a read code, and a code outside
    the table is neither. *)
Theorem fc_policy_kinds (f : Z) :
  (mb_fc_is_valid f = true <-> In f [1; 2; 3; 4; 5; 6; 15; 16; 22; 23]) /\
  (mb_fc_is_valid f = true <-> mb_fc_get_unit_size f <> 0) /\
  (mb_fc_is_valid f = true <-> 1 <= mb_fc_get_max_quantity f) /\
  (mb_fc_supports_merge f = true <-> In f [1; 2; 3; 4]) /\
  (mb_fc_is_read f = true <-> In f [1; 2; 3; 4; 23]) /\
  (mb_fc_is_write f = true <-> In f [5; 6; 15; 16; 22]) /\
  (mb_fc_is_valid f = false ->
     mb_fc_is_read f = false /\ mb_fc_is_write f = false /\
     mb_fc_get_max_quantity f = 0 /\ mb_fc_get_extra_unit_chars f = 0).
Proof.
  destruct (in_table_dec f) as [Hin | Hout].
  - cbn [In] in Hin.
    repeat (destruct Hin as [<- | Hin];
            [vm_compute; repeat split; intros; try discriminate; try lia;
             intuition (try discriminate; try lia) |]).
    contradiction.
  - pose proof (policy_outside_table f Hout) as Hp.
    unfold mb_fc_is_valid, mb_fc_supports_merge, mb_fc_is_read, mb_fc_is_write,
      mb_fc_get_max_quantity, mb_fc_get_extra_unit_chars; rewrite Hp.
    assert (Hu : mb_fc_get_unit_size f = 0).
    { cbn [In] in Hout; unfold mb_fc_get_unit_size.
      repeat match goal with
             | |- context [f =? ?k] =>
                 let E := fresh in
                 destruct (f =? k) eqn:E; [apply Z.eqb_eq in E; exfalso; intuition lia |]
             end.
      reflexivity. }
    rewrite Hu.
    cbn [In] in *.
    repeat split; intros; try discriminate; try lia; try tauto; intuition lia.
Qed.

(** ** Cost model *)

Lemma overhead_of_mergeable (mode : mb_mode_t) (f lat : Z) :
  mb_fc_supports_merge f = true -> u8 lat ->
  mb_calc_overhead_chars mode f 4 lat =
    11 + (match mode with MB_MODE_TCP => 0 | _ => 4 end) + lat.
Proof.
  intros Hf Hl; unfold u8 in Hl.
  assert (Hp : mb_fc_get_policy f = Some (mk_policy f true true 6 5
                  (if (f =? 1) || (f =? 2) then 12 else 200)
                  (if (f =? 1) || (f =? 2) then 2000 else 125)))
    by (destruct (supports_merge_cases f Hf) as [-> | [-> | [-> | ->]]]; reflexivity).
  unfold mb_calc_overhead_chars; rewrite Hp;
    cbn [req_fixed_chars resp_fixed_chars].
  change (to_u16 (to_u16 (0 + 6) + 5)) with 11.
  destruct mode.
  - change (to_u16 (11 + 4)) with 15.
    unfold to_u16; rewrite Z.mod_small by lia; lia.
  - change (to_u16 (11 + 4)) with 15.
    unfold to_u16; rewrite Z.mod_small by lia; lia.
  - unfold to_u16; rewrite Z.mod_small by lia; lia.
Qed.

Lemma params_of_mergeable (mode : mb_mode_t) (f lat : Z) (p0 : mb_cost_params_t) :
  mb_fc_supports_merge f = true ->
  mb_init_cost_params mode f lat p0 =
    mk_cost 6 5 (match mode with MB_MODE_TCP => 0 | _ => 4 end) lat.
Proof.
  intros Hf.
  destruct (supports_merge_cases f Hf) as [-> | [-> | [-> | ->]]]; reflexivity.
Qed.

(** The savings that decide a merge are sound for the request costs of
    [mb_calc_request_cost].  For two compatible blocks of a mergeable
    function code, [a] ending at or before the start of [b], whose joint
    range has at most 16384 units: the savings computed from the parameters
    of [mb_init_cost_params] are never more than what the merged request
    saves over the two separate requests (costs taken with the gap of 4
    characters that [mb_init_cost_params] uses), and for the register codes
    3 and 4 the two are equal. *)
Theorem merge_savings_sound (a b m : mb_block_t) (mode : mb_mode_t) (lat : Z)
  (p0 : mb_cost_params_t) :
  block_wf a -> block_wf b -> u8 lat ->
  mb_fc_supports_merge (blk_function_code a) = true ->
  mb_block_are_compatible a b = true ->
  block_end a <= blk_start_address b ->
  block_end b - blk_start_address a <= 16384 ->
  mb_block_merge a b = Ok m ->
  let f := blk_function_code a in
  let savings :=
    mb_calc_merge_savings (mb_block_calc_gap a b) f (mb_init_cost_params mode f lat p0) in
  let saved :=
    mb_calc_request_cost a mode 4 lat + mb_calc_request_cost b mode 4 lat -
    mb_calc_request_cost m mode 4 lat in
  savings <= saved /\
  (mb_fc_get_unit_size f = 2 -> savings = saved).
Proof.
  intros Ha Hb Hl Hf Hc Hord Hspan Hm f savings saved.
  destruct (compatible_fields a b Hc) as [Hs Hfc].
  destruct a as [sa fa a0 qa ma], b as [sb fb b0 qb mb].
  unfold block_wf, u8, u16, block_end in *;
    cbn [blk_slave_id blk_function_code blk_start_address blk_quantity] in *.
  subst sb fb f.
  unfold mb_block_merge in Hm; rewrite Hc in Hm;
    cbn [negb blk_slave_id blk_function_code blk_start_address blk_quantity] in Hm.
  destruct (a0 >? b0) eqn:E; [apply Z.gtb_lt in E; lia |].
  cbn [blk_slave_id blk_function_code blk_start_address blk_quantity] in Hm.
  destruct (a0 + qa >? b0 + qb) eqn:E2; [apply Z.gtb_lt in E2; lia |].
  injection Hm as <-.
  assert (Hg : mb_block_calc_gap (mk_block sa fa a0 qa ma) (mk_block sa fa b0 qb mb)
               = b0 - (a0 + qa)).
  { unfold mb_block_calc_gap;
      cbn [blk_slave_id blk_function_code blk_start_address blk_quantity];
      rewrite E; cbn [blk_slave_id blk_function_code blk_start_address blk_quantity].
    destruct (a0 + qa >=? b0) eqn:E3.
    - apply Z.geb_le in E3; lia.
    - apply to_u16_small; unfold u16; lia. }
  subst savings saved; rewrite Hg.
  rewrite (to_u16_small (b0 + qb - a0)) by (unfold u16; lia).
  unfold mb_calc_merge_savings, mb_calc_request_cost;
    cbn [blk_slave_id blk_function_code blk_start_address blk_quantity].
  rewrite (params_of_mergeable mode fa lat p0 Hf), (overhead_of_mergeable mode fa lat Hf)
    by (unfold u8; lia).
  cbn [cp_req_fixed_chars cp_resp_fixed_chars cp_gap_chars cp_latency_chars].
  set (g := b0 - (a0 + qa)) in *.
  set (gc := match mode with MB_MODE_TCP => 0 | _ => 4 end).
  assert (Hgc : 0 <= gc <= 4) by (destruct mode; unfold gc; lia).
  assert (Hgap : mb_calc_gap_cost fa g = gap_cost_formula fa g).
  { destruct (Z.eq_dec g 0) as [-> | Hne].
    - unfold mb_calc_gap_cost, gap_cost_formula; cbn [Z.eqb].
      destruct ((fa =? MB_FC_READ_COILS) || (fa =? MB_FC_READ_DISCRETE_INPUTS));
        reflexivity.
    - apply gap_cost_in_range; lia. }
  rewrite Hgap.
  rewrite (to_u16_small (6 + 5 + gc + lat)) by (unfold u16; lia).
  replace (b0 + qb - a0) with (qa + g + qb) by (unfold g; lia).
  assert (Hg0 : 0 <= g) by (unfold g; lia).
  assert (Hsum : qa + g + qb <= 16384) by (unfold g; lia).
  clearbody g gc.
  destruct (supports_merge_cases fa Hf) as [-> | [-> | [-> | ->]]];
    unfold gap_cost_formula; cbn [mb_fc_get_unit_size Z.eqb Pos.eqb orb
      MB_FC_READ_COILS MB_FC_READ_DISCRETE_INPUTS];
    unfold to_u16.
  1, 2: assert (H1 : 0 <= (qa + 7) / 8 <= 2048)
          by (Z.to_euclidean_division_equations; lia);
        assert (H2 : 0 <= (qb + 7) / 8 <= 2048)
          by (Z.to_euclidean_division_equations; lia);
        assert (H3 : 0 <= (g + 7) / 8 <= 2048)
          by (Z.to_euclidean_division_equations; lia);
        assert (H4 : 0 <= (qa + g + qb + 7) / 8 <= 2048)
          by (Z.to_euclidean_division_equations; lia);
        assert (H5 : (qa + g + qb + 7) / 8 <= (qa + 7) / 8 + (qb + 7) / 8 + (g + 7) / 8)
          by (Z.to_euclidean_division_equations; lia);
        rewrite (Z.mod_small ((qa + 7) / 8)), (Z.mod_small ((qb + 7) / 8)),
          (Z.mod_small ((qa + g + qb + 7) / 8)) by lia;
        rewrite !Z.mod_small by lia;
        rewrite to_i16_small by lia;
        split; [lia | intros; discriminate].
  1, 2: rewrite (Z.mod_small (qa * 2)), (Z.mod_small (qb * 2)),
          (Z.mod_small ((qa + g + qb) * 2)) by lia;
        rewrite !Z.mod_small by lia;
        rewrite to_i16_small by lia;
        split; [lia | intros; lia].
Qed.

Lemma merge_savings_sound_witness :
  let a := mk_block 1 3 100 3 false in
  let b := mk_block 1 3 105 3 false in
  let m := mk_block 1 3 100 8 true in
  let savings :=
    mb_calc_merge_savings (mb_block_calc_gap a b) 3
      (mb_init_cost_params MB_MODE_RTU 3 2 (mk_cost 0 0 0 0)) in
  let saved :=
    mb_calc_request_cost a MB_MODE_RTU 4 2 + mb_calc_request_cost b MB_MODE_RTU 4 2 -
    mb_calc_request_cost m MB_MODE_RTU 4 2 in
  savings <= saved /\ (mb_fc_get_unit_size 3 = 2 -> savings = saved).
Proof.
  intros a b m.
  apply (merge_savings_sound a b m MB_MODE_RTU 2 (mk_cost 0 0 0 0));
    try reflexivity; try wf_solve; unfold block_end; simpl; lia.
Defined.

(** ** Block merger *)

Lemma should_merge_compatible (a b : mb_block_t) (c : mb_cost_params_t) :
  mb_should_merge_blocks a b c = true -> mb_block_are_compatible a b = true.
Proof.
  unfold mb_should_merge_blocks.
  destruct (mb_block_are_compatible a b); [reflexivity | discriminate].
Qed.

Lemma merge_compatible_ok (a b : mb_block_t) :
  mb_block_are_compatible a b = true -> exists m, mb_block_merge a b = Ok m.
Proof.
  intros Hc; unfold mb_block_merge; rewrite Hc; cbn [negb].
  destruct (blk_start_address a >? blk_start_address b); eexists; reflexivity.
Qed.

Lemma merge_pass_total (c : mb_cost_params_t) (rest : list mb_block_t) :
  forall current,
    exists out, merge_pass c current rest = Ok out /\ 1 <= len out <= 1 + len rest.
Proof.
  induction rest as [| next rest IH]; intros current; cbn [merge_pass].
  - exists [current]; split; [reflexivity | unfold len; cbn; lia].
  - rewrite len_cons; pose proof (len_nonneg rest).
    destruct (mb_should_merge_blocks current next c) eqn:E.
    + destruct (merge_compatible_ok current next (should_merge_compatible _ _ _ E))
        as [m Hm].
      unfold mb_merge_two_blocks; rewrite Hm.
      destruct (IH m) as (out & -> & Hl); exists out; split; [reflexivity | lia].
    + destruct (IH next) as (out & -> & Hl); exists (current :: out).
      split; [reflexivity | rewrite len_cons; lia].
Qed.

Lemma insert_block_perm (before : mb_block_t -> mb_block_t -> bool)
  (b : mb_block_t) (l : list mb_block_t) :
  Permutation (insert_block before b l) (b :: l).
Proof.
  induction l as [| x t IH]; cbn [insert_block]; [apply Permutation_refl |].
  destruct (before x b); [| apply Permutation_refl].
  eapply Permutation_trans; [apply perm_skip, IH | apply perm_swap].
Qed.

Lemma sort_blocks_perm (before : mb_block_t -> mb_block_t -> bool)
  (l : list mb_block_t) : Permutation (sort_blocks before l) l.
Proof.
  induction l as [| x t IH]; [apply Permutation_refl |].
  unfold sort_blocks in *; cbn [fold_right].
  eapply Permutation_trans; [apply insert_block_perm | apply perm_skip, IH].
Qed.

Lemma sort_blocks_len (before : mb_block_t -> mb_block_t -> bool)
  (l : list mb_block_t) : len (sort_blocks before l) = len l.
Proof. unfold len; rewrite (Permutation_length (sort_blocks_perm before l)); reflexivity. Qed.

Lemma merge_block_array_total (blocks : list mb_block_t) (c : mb_cost_params_t) :
  exists out,
    mb_merge_block_array blocks c = Ok out /\ len out <= len blocks /\
    (blocks <> [] -> 1 <= len out).
Proof.
  unfold mb_merge_block_array, mb_block_sort_by_address.
  set (before := fun a b => blk_start_address a <? blk_start_address b).
  pose proof (sort_blocks_len before blocks) as Hl.
  destruct (sort_blocks before blocks) as [| first rest].
  - exists []; split; [reflexivity |].
    split; [apply len_nonneg |].
    intros Hne; destruct blocks; [contradiction | ].
    rewrite len_cons in Hl; change (len (@nil mb_block_t)) with 0 in Hl.
    pose proof (len_nonneg blocks); lia.
  - destruct (merge_pass_total c rest first) as (out & -> & Ho).
    rewrite len_cons in Hl.
    exists out; split; [reflexivity | split; [lia | intros; lia]].
Qed.

(** The greedy merger never fails and reports what it did: for an array of
    at most 65535 blocks (the range of the [uint16_t] count),
    [mb_merge_blocks_greedy] leaves the result of [mb_merge_block_array]
    under the parameters of [mb_init_cost_params] behind, which is never an
    error and never has more blocks than the input (and has at least one
    block when the input has), and the number it returns is exactly the
    number of blocks the array has lost. *)
Theorem merge_blocks_greedy_count (blocks : list mb_block_t) (mode : mb_mode_t)
  (latency_chars : Z) (p0 : mb_cost_params_t) :
  len blocks <= 65535 ->
  let '(merges, out) := mb_merge_blocks_greedy blocks mode latency_chars p0 in
  (forall first rest, blocks = first :: rest ->
     mb_merge_block_array blocks
       (mb_init_cost_params mode (blk_function_code first) latency_chars p0) = Ok out) /\
  merges = len blocks - len out /\
  0 <= merges /\
  (blocks <> [] -> 1 <= len out).
Proof.
  intros Hn.
  destruct blocks as [| first rest]; cbn [mb_merge_blocks_greedy].
  - repeat split; try discriminate; try (unfold len; cbn; lia).
    intros H; contradiction.
  - set (c := mb_init_cost_params mode (blk_function_code first) latency_chars p0).
    destruct (merge_block_array_total (first :: rest) c) as (out & Hout & Hl & Hne).
    rewrite Hout.
    assert (H1 : 1 <= len out) by (apply Hne; discriminate).
    rewrite to_u16_small by (unfold u16; lia).
    split; [| repeat split; try lia; intros _; exact H1].
    intros first' rest' Heq; injection Heq as <- <-; exact Hout.
Qed.

Lemma merge_blocks_greedy_count_witness :
  let '(merges, out) :=
    mb_merge_blocks_greedy
      [mk_block 1 3 105 3 false; mk_block 1 3 100 3 false; mk_block 1 3 150 3 false]
      MB_MODE_RTU 2 (mk_cost 0 0 0 0) in
  (forall first rest,
     [mk_block 1 3 105 3 false; mk_block 1 3 100 3 false; mk_block 1 3 150 3 false]
       = first :: rest ->
     mb_merge_block_array
       [mk_block 1 3 105 3 false; mk_block 1 3 100 3 false; mk_block 1 3 150 3 false]
       (mb_init_cost_params MB_MODE_RTU (blk_function_code first) 2 (mk_cost 0 0 0 0))
       = Ok out) /\
  merges = len [mk_block 1 3 105 3 false; mk_block 1 3 100 3 false;
                mk_block 1 3 150 3 false] - len out /\
  0 <= merges /\
  ([mk_block 1 3 105 3 false; mk_block 1 3 100 3 false; mk_block 1 3 150 3 false] <> [] ->
   1 <= len out).
Proof.
  apply (merge_blocks_greedy_count
           [mk_block 1 3 105 3 false; mk_block 1 3 100 3 false; mk_block 1 3 150 3 false]
           MB_MODE_RTU 2 (mk_cost 0 0 0 0)).
  vm_compute; discriminate.
Defined.

Lemma block_within_refl (b : mb_block_t) : block_within b b.
Proof. unfold block_within; repeat split; lia. Qed.

Lemma block_within_trans (a b c : mb_block_t) :
  block_within a b -> block_within b c -> block_within a c.
Proof.
  unfold block_within; intros (H1 & H2 & H3 & H4) (H5 & H6 & H7 & H8).
  repeat split; try congruence; lia.
Qed.

Lemma block_merge_window (lo hi : Z) (a b : mb_block_t) :
  hi - lo <= 65535 ->
  block_in_window lo hi a -> block_in_window lo hi b ->
  mb_block_are_compatible a b = true ->
  exists m,
    mb_block_merge a b = Ok m /\ block_in_window lo hi m /\
    block_within a m /\ block_within b m.
Proof.
  intros Hw (Ha1 & Ha2 & Ha3) (Hb1 & Hb2 & Hb3) Hc.
  destruct (compatible_fields a b Hc) as [Hs Hf].
  unfold mb_block_merge; rewrite Hc; cbn [negb].
  unfold block_in_window, block_within, block_end in *.
  destruct (blk_start_address a >? blk_start_address b) eqn:E;
    [apply Z.gtb_lt in E | rewrite Z.gtb_ltb in E; apply Z.ltb_ge in E].
  - destruct (blk_start_address b + blk_quantity b >?
              blk_start_address a + blk_quantity a) eqn:E2;
      [apply Z.gtb_lt in E2 | rewrite Z.gtb_ltb in E2; apply Z.ltb_ge in E2];
      eexists; (split; [reflexivity |]);
      cbn [blk_slave_id blk_function_code blk_start_address blk_quantity];
      rewrite to_u16_small by (unfold u16; lia);
      repeat split; try congruence; lia.
  - destruct (blk_start_address a + blk_quantity a >?
              blk_start_address b + blk_quantity b) eqn:E2;
      [apply Z.gtb_lt in E2 | rewrite Z.gtb_ltb in E2; apply Z.ltb_ge in E2];
      eexists; (split; [reflexivity |]);
      cbn [blk_slave_id blk_function_code blk_start_address blk_quantity];
      rewrite to_u16_small by (unfold u16; lia);
      repeat split; try congruence; lia.
Qed.

Lemma merge_pass_covers (c : mb_cost_params_t) (lo hi : Z) (rest : list mb_block_t) :
  hi - lo <= 65535 ->
  forall current,
    block_in_window lo hi current -> Forall (block_in_window lo hi) rest ->
    exists out,
      merge_pass c current rest = Ok out /\
      Forall (block_in_window lo hi) out /\
      forall b, In b (current :: rest) -> exists m, In m out /\ block_within b m.
Proof.
  intros Hw.
  induction rest as [| next rest IH]; intros current Hcur Hrest; cbn [merge_pass].
  - exists [current]; split; [reflexivity |].
    split; [apply Forall_cons; [assumption | apply Forall_nil] |].
    intros b [<- | []]; exists current; split; [left; reflexivity | apply block_within_refl].
  - inversion Hrest as [| ? ? Hnext Hrest']; subst.
    destruct (mb_should_merge_blocks current next c) eqn:E.
    + destruct (block_merge_window lo hi current next Hw Hcur Hnext
                  (should_merge_compatible _ _ _ E))
        as (m & Hm & Hmw & Hcm & Hnm).
      unfold mb_merge_two_blocks; rewrite Hm.
      destruct (IH m Hmw Hrest') as (out & -> & Hout & Hcov).
      exists out; split; [reflexivity |]; split; [assumption |].
      intros b [<- | [<- | Hin]].
      * destruct (Hcov m (or_introl eq_refl)) as (m' & Hin' & Hw').
        exists m'; split; [assumption | eapply block_within_trans; eassumption].
      * destruct (Hcov m (or_introl eq_refl)) as (m' & Hin' & Hw').
        exists m'; split; [assumption | eapply block_within_trans; eassumption].
      * apply Hcov; right; assumption.
    + destruct (IH next Hnext Hrest') as (out & -> & Hout & Hcov).
      exists (current :: out); split; [reflexivity |].
      split; [apply Forall_cons; assumption |].
      intros b [<- | Hin].
      * exists current; split; [left; reflexivity | apply block_within_refl].
      * destruct (Hcov b Hin) as (m' & Hin' & Hw').
        exists m'; split; [right; assumption | assumption].
Qed.

Lemma merge_array_window (blocks : list mb_block_t) (c : mb_cost_params_t)
  (lo hi : Z) :
  hi - lo <= 65535 ->
  Forall (block_in_window lo hi) blocks ->
  exists out,
    mb_merge_block_array blocks c = Ok out /\
    Forall (block_in_window lo hi) out /\
    forall b, In b blocks -> exists m, In m out /\ block_within b m.
Proof.
  intros Hw Hb.
  unfold mb_merge_block_array, mb_block_sort_by_address.
  set (before := fun a b => blk_start_address a <? blk_start_address b).
  pose proof (sort_blocks_perm before blocks) as Hp.
  pose proof (sort_blocks_Forall (block_in_window lo hi) before blocks Hb) as Hs.
  destruct (sort_blocks before blocks) as [| first rest].
  - exists []; split; [reflexivity |]; split; [apply Forall_nil |].
    intros b Hin.
    apply (Permutation_in b (Permutation_sym Hp)) in Hin; contradiction.
  - inversion Hs as [| ? ? Hfirst Hrest]; subst.
    destruct (merge_pass_covers c lo hi rest Hw first Hfirst Hrest)
      as (out & -> & Hout & Hcov).
    exists out; split; [reflexivity |]; split; [assumption |].
    intros b Hin; apply Hcov.
    apply (Permutation_in b (Permutation_sym Hp)); assumption.
Qed.

(** Merging loses no address.  For blocks that are not empty and lie in a
    window of at most 65535 addresses (so that no merged quantity leaves the
    range of [uint16_t]), under any cost parameters:
    [mb_merge_block_array] succeeds, its blocks lie in the same window, and
    every input block is contained in an output block of the same slave and
    function code. *)
Theorem merge_block_array_covers (blocks : list mb_block_t) (c : mb_cost_params_t)
  (lo hi : Z) :
  hi - lo <= 65535 ->
  Forall (block_in_window lo hi) blocks ->
  exists out,
    mb_merge_block_array blocks c = Ok out /\
    Forall (block_in_window lo hi) out /\
    forall b, In b blocks -> exists m, In m out /\ block_within b m.
Proof.
  intros Hw Hb.
  unfold mb_merge_block_array, mb_block_sort_by_address.
  set (before := fun a b => blk_start_address a <? blk_start_address b).
  pose proof (sort_blocks_perm before blocks) as Hp.
  pose proof (sort_blocks_Forall (block_in_window lo hi) before blocks Hb) as Hs.
  destruct (sort_blocks before blocks) as [| first rest].
  - exists []; split; [reflexivity |]; split; [apply Forall_nil |].
    intros b Hin.
    apply (Permutation_in b (Permutation_sym Hp)) in Hin; contradiction.
  - inversion Hs as [| ? ? Hfirst Hrest]; subst.
    destruct (merge_pass_covers c lo hi rest Hw first Hfirst Hrest)
      as (out & -> & Hout & Hcov).
    exists out; split; [reflexivity |]; split; [assumption |].
    intros b Hin; apply Hcov.
    apply (Permutation_in b (Permutation_sym Hp)); assumption.
Qed.

Lemma merge_block_array_covers_witness :
  exists out,
    mb_merge_block_array
      [mk_block 1 3 105 3 false; mk_block 1 3 100 3 false; mk_block 1 3 65000 536 false]
      (mk_cost 6 5 4 2) = Ok out /\
    Forall (block_in_window 1 65536) out /\
    forall b,
      In b [mk_block 1 3 105 3 false; mk_block 1 3 100 3 false;
            mk_block 1 3 65000 536 false] ->
      exists m, In m out /\ block_within b m.
Proof.
  apply (merge_block_array_covers
           [mk_block 1 3 105 3 false; mk_block 1 3 100 3 false;
            mk_block 1 3 65000 536 false] (mk_cost 6 5 4 2) 1 65536).
  - lia.
  - repeat (apply Forall_cons; [unfold block_in_window, block_end; simpl; lia |]).
    apply Forall_nil.
Defined.

Lemma insert_block_sorted (b : mb_block_t) (l : list mb_block_t) :
  StronglySorted (fun x y => blk_start_address x <= blk_start_address y) l ->
  StronglySorted (fun x y => blk_start_address x <= blk_start_address y)
    (insert_block (fun a b => blk_start_address a <? blk_start_address b) b l).
Proof.
  intros Hs; induction Hs as [| x t Ht IH Hx]; cbn [insert_block].
  - apply SSorted_cons; [apply SSorted_nil | apply Forall_nil].
  - destruct (blk_start_address x <? blk_start_address b) eqn:E.
    + apply Z.ltb_lt in E.
      apply SSorted_cons; [assumption |].
      apply insert_block_Forall; [lia | assumption].
    + apply Z.ltb_ge in E.
      apply SSorted_cons; [apply SSorted_cons; assumption |].
      apply Forall_cons; [assumption |].
      eapply Forall_impl; [| exact Hx]; cbn beta; intros; lia.
Qed.

Lemma sort_by_address_sorted (l : list mb_block_t) :
  StronglySorted (fun x y => blk_start_address x <= blk_start_address y)
    (mb_block_sort_by_address l).
Proof.
  unfold mb_block_sort_by_address, sort_blocks.
  induction l as [| x t IH]; cbn [fold_right]; [apply SSorted_nil |].
  apply insert_block_sorted; assumption.
Qed.

(** With [a] not after [b], the decision looks at [b] only through its
    slave, function code and start address. *)
Lemma should_merge_ext (a b b' : mb_block_t) (c : mb_cost_params_t) :
  blk_start_address a <= blk_start_address b ->
  blk_slave_id b' = blk_slave_id b ->
  blk_function_code b' = blk_function_code b ->
  blk_start_address b' = blk_start_address b ->
  mb_should_merge_blocks a b' c = mb_should_merge_blocks a b c.
Proof.
  intros Hle Hs Hf Ha.
  unfold mb_should_merge_blocks, mb_block_are_adjacent, mb_block_are_compatible,
    mb_block_calc_gap.
  rewrite Hs, Hf, Ha.
  destruct (blk_start_address a >? blk_start_address b) eqn:E;
    [apply Z.gtb_lt in E; lia |].
  cbn [blk_start_address blk_quantity]; rewrite Ha; reflexivity.
Qed.

Lemma block_merge_head (a b m : mb_block_t) :
  blk_start_address a <= blk_start_address b ->
  mb_block_merge a b = Ok m ->
  blk_slave_id m = blk_slave_id a /\
  blk_function_code m = blk_function_code a /\
  blk_start_address m = blk_start_address a.
Proof.
  intros Hle; unfold mb_block_merge.
  destruct (negb (mb_block_are_compatible a b)); [discriminate |].
  destruct (blk_start_address a >? blk_start_address b) eqn:E;
    [apply Z.gtb_lt in E; lia |].
  intros H; injection H as <-; repeat split.
Qed.

Lemma merge_pass_maximal (c : mb_cost_params_t) (rest : list mb_block_t) :
  forall current,
    StronglySorted (fun x y => blk_start_address x <= blk_start_address y)
      (current :: rest) ->
    exists h out,
      merge_pass c current rest = Ok (h :: out) /\
      blk_slave_id h = blk_slave_id current /\
      blk_function_code h = blk_function_code current /\
      blk_start_address h = blk_start_address current /\
      Sorted (fun x y => blk_start_address x <= blk_start_address y /\
                         mb_should_merge_blocks x y c = false) (h :: out).
Proof.
  induction rest as [| next rest IH]; intros current Hs; cbn [merge_pass].
  - exists current, []; repeat split; apply Sorted_cons; [apply Sorted_nil | apply HdRel_nil].
  - inversion Hs as [| ? ? Hrest Hcur]; subst.
    inversion Hcur as [| ? ? Hcn Hcr]; subst.
    inversion Hrest as [| ? ? Hrest' Hnr]; subst.
    destruct (mb_should_merge_blocks current next c) eqn:E.
    + destruct (merge_compatible_ok current next (should_merge_compatible _ _ _ E))
        as [m Hm].
      unfold mb_merge_two_blocks; rewrite Hm.
      destruct (block_merge_head current next m Hcn Hm) as (H1 & H2 & H3).
      destruct (IH m) as (h & out & -> & H4 & H5 & H6 & H7).
      { apply SSorted_cons; [assumption | rewrite H3; assumption]. }
      exists h, out; repeat split; try congruence; assumption.
    + destruct (IH next Hrest) as (h & out & -> & H4 & H5 & H6 & H7).
      exists current, (h :: out); repeat split.
      apply Sorted_cons; [assumption |].
      apply HdRel_cons; split; [lia |].
      rewrite (should_merge_ext current next h c Hcn H4 H5 H6); assumption.
Qed.

(** What the merger leaves cannot be merged further.  For every array and
    all cost parameters, the blocks that [mb_merge_block_array] returns are
    in non-decreasing order of start address, and
    [mb_should_merge_blocks] refuses every two neighbours among them. *)
Theorem merge_block_array_maximal (blocks : list mb_block_t) (c : mb_cost_params_t) :
  exists out,
    mb_merge_block_array blocks c = Ok out /\
    Sorted (fun x y => blk_start_address x <= blk_start_address y /\
                       mb_should_merge_blocks x y c = false) out.
Proof.
  unfold mb_merge_block_array.
  pose proof (sort_by_address_sorted blocks) as Hs.
  destruct (mb_block_sort_by_address blocks) as [| first rest].
  - exists []; split; [reflexivity | apply Sorted_nil].
  - destruct (merge_pass_maximal c rest first Hs) as (h & out & -> & _ & _ & _ & H).
    exists (h :: out); split; [reflexivity | assumption].
Qed.

(** ** FFD packer: number of PDUs *)

Lemma first_fit_len (b : mb_block_t) (c : Z) (pdus pdus' : list mb_pdu_t) :
  first_fit b c pdus = Some pdus' -> len pdus' = len pdus.
Proof.
  revert pdus'; induction pdus as [| p ps IH]; intros pdus'; cbn [first_fit];
    [discriminate |].
  destruct (mb_block_fits_pdu b p c).
  - intros H; injection H as <-; rewrite !len_cons; reflexivity.
  - destruct (first_fit b c ps) as [ps' |]; [| discriminate].
    cbn [option_map]; intros H; injection H as <-.
    rewrite !len_cons, (IH ps' eq_refl); reflexivity.
Qed.

Lemma ffd_place_outcome (c n : Z) (blocks : list mb_block_t) :
  forall pdus,
    match ffd_place blocks c n pdus with
    | Ok out =>
        len pdus <= len out <= len pdus + len blocks /\
        (len pdus < len out -> len out <= n)
    | Err e => e = MB_ERROR_TOO_MANY_BLOCKS /\ n < len pdus + len blocks
    end.
Proof.
  induction blocks as [| b rest IH]; intros pdus; cbn [ffd_place].
  - change (len (@nil mb_block_t)) with 0; lia.
  - rewrite len_cons; pose proof (len_nonneg rest) as Hr.
    destruct (first_fit b c pdus) as [pdus' |] eqn:Hff.
    + pose proof (first_fit_len b c pdus pdus' Hff) as Hl.
      specialize (IH pdus'); rewrite Hl in IH.
      destruct (ffd_place rest c n pdus'); intuition lia.
    + destruct (len pdus >=? n) eqn:E;
        [rewrite Z.geb_leb in E; apply Z.leb_le in E; split; [reflexivity | lia] |].
      rewrite Z.geb_leb in E; apply Z.leb_gt in E.
      specialize (IH (pdus ++ [mb_add_block_to_pdu b
                                 (mb_init_pdu (blk_slave_id b) (blk_function_code b))])).
      rewrite len_app in IH; change (len [_]) with 1 in IH.
      destruct (ffd_place rest c n _); intuition lia.
Qed.

Lemma ffd_pack_count (blocks : list mb_block_t) (max_pdu_chars max_pdus : Z) :
  match mb_ffd_pack blocks max_pdu_chars max_pdus with
  | Ok pdus =>
      len pdus <= len blocks /\ (blocks <> [] -> 1 <= len pdus <= max_pdus)
  | Err e => e = MB_ERROR_TOO_MANY_BLOCKS /\ max_pdus < len blocks
  end.
Proof.
  unfold mb_ffd_pack.
  destruct (len blocks =? 0) eqn:E.
  - apply Z.eqb_eq in E; rewrite E; split; [change (len (@nil mb_pdu_t)) with 0; lia |].
    intros Hne; destruct blocks; [contradiction |].
    rewrite len_cons in E; pose proof (len_nonneg blocks); lia.
  - apply Z.eqb_neq in E.
    pose proof (sort_blocks_len (fun a b => blk_quantity a >? blk_quantity b) blocks) as Hl.
    fold (mb_block_sort_by_quantity_desc blocks) in Hl.
    pose proof (ffd_place_outcome max_pdu_chars max_pdus
                  (mb_block_sort_by_quantity_desc blocks) []) as H.
    rewrite Hl in H; change (len (@nil mb_pdu_t)) with 0 in H.
    destruct (mb_block_sort_by_quantity_desc blocks) as [| b rest] eqn:Hs.
    + change (len (@nil mb_block_t)) with 0 in Hl; lia.
    + cbn [ffd_place first_fit] in *.
      change (len (@nil mb_pdu_t)) with 0 in *.
      destruct (0 >=? max_pdus) eqn:E0; [exact H |].
      pose proof (ffd_place_outcome max_pdu_chars max_pdus rest
                    ([] ++ [mb_add_block_to_pdu b
                              (mb_init_pdu (blk_slave_id b) (blk_function_code b))])) as H'.
      cbn [app] in *; change (len [_]) with 1 in H'.
      destruct (ffd_place rest max_pdu_chars max_pdus _); [| exact H].
      split; [lia |]; intros _; lia.
Qed.

(** How many PDUs the packer makes, and how it fails.  For all blocks and
    limits: a successful [mb_ffd_pack] returns at most as many PDUs as there
    are blocks and, when there is a block, at least one PDU and at most
    [max_pdus]; the only error is [MB_ERROR_TOO_MANY_BLOCKS], and it is
    returned only when [max_pdus] is less than the number of blocks.  So the
    call succeeds whenever there is room for one PDU per block, and
    [MB_ERROR_PDU_TOO_LARGE] is never returned. *)
Theorem ffd_pack_outcome (blocks : list mb_block_t) (max_pdu_chars max_pdus : Z) :
  match mb_ffd_pack blocks max_pdu_chars max_pdus with
  | Ok pdus =>
      len pdus <= len blocks /\ (blocks <> [] -> 1 <= len pdus <= max_pdus)
  | Err e => e = MB_ERROR_TOO_MANY_BLOCKS /\ max_pdus < len blocks
  end.
Proof.
  unfold mb_ffd_pack.
  destruct (len blocks =? 0) eqn:E.
  - apply Z.eqb_eq in E; rewrite E; split; [change (len (@nil mb_pdu_t)) with 0; lia |].
    intros Hne; destruct blocks; [contradiction |].
    rewrite len_cons in E; pose proof (len_nonneg blocks); lia.
  - apply Z.eqb_neq in E.
    pose proof (sort_blocks_len (fun a b => blk_quantity a >? blk_quantity b) blocks) as Hl.
    fold (mb_block_sort_by_quantity_desc blocks) in Hl.
    pose proof (ffd_place_outcome max_pdu_chars max_pdus
                  (mb_block_sort_by_quantity_desc blocks) []) as H.
    rewrite Hl in H; change (len (@nil mb_pdu_t)) with 0 in H.
    destruct (mb_block_sort_by_quantity_desc blocks) as [| b rest] eqn:Hs.
    + change (len (@nil mb_block_t)) with 0 in Hl; lia.
    + cbn [ffd_place first_fit] in *.
      change (len (@nil mb_pdu_t)) with 0 in *.
      destruct (0 >=? max_pdus) eqn:E0; [exact H |].
      pose proof (ffd_place_outcome max_pdu_chars max_pdus rest
                    ([] ++ [mb_add_block_to_pdu b
                              (mb_init_pdu (blk_slave_id b) (blk_function_code b))])) as H'.
      cbn [app] in *; change (len [_]) with 1 in H'.
      destruct (ffd_place rest max_pdu_chars max_pdus _); [| exact H].
      split; [lia |]; intros _; lia.
Qed.

(** ** FFD packer: coverage *)

Lemma pdu_extends_refl (p : mb_pdu_t) : pdu_extends p p.
Proof. unfold pdu_extends; repeat split; lia. Qed.

Lemma pdu_extends_trans (p q r : mb_pdu_t) :
  pdu_extends p q -> pdu_extends q r -> pdu_extends p r.
Proof.
  unfold pdu_extends; intros (H1 & H2 & H3 & H4) (H5 & H6 & H7 & H8).
  repeat split; try congruence; lia.
Qed.

Lemma pdu_holds_extends (p p' : mb_pdu_t) (b : mb_block_t) :
  pdu_holds p b -> pdu_extends p p' -> pdu_holds p' b.
Proof.
  unfold pdu_holds, pdu_extends; intros (H1 & H2 & H3 & H4) (H5 & H6 & H7 & H8).
  repeat split; try congruence; lia.
Qed.

Lemma add_block_new (lo hi : Z) (b : mb_block_t) :
  block_in_window lo hi b ->
  let p := mb_add_block_to_pdu b (mb_init_pdu (blk_slave_id b) (blk_function_code b)) in
  pdu_in_window lo hi p /\ pdu_holds p b.
Proof.
  intros (H1 & H2 & H3); unfold block_end in H3.
  unfold mb_add_block_to_pdu, mb_init_pdu; cbn [pdu_quantity Z.eqb].
  unfold pdu_in_window, pdu_holds, block_end;
    cbn [pdu_slave_id pdu_function_code pdu_start_address pdu_quantity].
  repeat split; lia.
Qed.

Lemma add_block_window (lo hi c : Z) (b : mb_block_t) (p : mb_pdu_t) :
  hi - lo <= 65535 ->
  block_in_window lo hi b -> pdu_in_window lo hi p ->
  mb_block_fits_pdu b p c = true ->
  pdu_in_window lo hi (mb_add_block_to_pdu b p) /\
  pdu_holds (mb_add_block_to_pdu b p) b /\
  pdu_extends p (mb_add_block_to_pdu b p).
Proof.
  intros Hw (H1 & H2 & H3) (H4 & H5 & H6) Hfit; unfold block_end in H3.
  unfold mb_block_fits_pdu in Hfit; unfold mb_add_block_to_pdu.
  destruct (pdu_quantity p =? 0) eqn:E; [apply Z.eqb_eq in E; lia |].
  destruct ((blk_slave_id b =? pdu_slave_id p) &&
            (blk_function_code b =? pdu_function_code p)) eqn:Ec;
    [| discriminate].
  apply andb_prop in Ec; destruct Ec as [Es Ef].
  apply Z.eqb_eq in Es, Ef.
  clear Hfit.
  cbn [pdu_slave_id pdu_function_code pdu_start_address pdu_quantity].
  unfold pdu_in_window, pdu_holds, pdu_extends, block_end;
    cbn [pdu_slave_id pdu_function_code pdu_start_address pdu_quantity].
  destruct (blk_start_address b <? pdu_start_address p) eqn:E1;
    [apply Z.ltb_lt in E1 | apply Z.ltb_ge in E1];
    (destruct (blk_start_address b + blk_quantity b >?
               pdu_start_address p + pdu_quantity p) eqn:E2;
     [apply Z.gtb_lt in E2 | rewrite Z.gtb_ltb in E2; apply Z.ltb_ge in E2]);
    rewrite to_u16_small by (unfold u16; lia);
    repeat split; try congruence; lia.
Qed.

Lemma first_fit_covers (lo hi c : Z) (b : mb_block_t) (pdus : list mb_pdu_t) :
  hi - lo <= 65535 -> block_in_window lo hi b ->
  forall pdus',
    Forall (pdu_in_window lo hi) pdus ->
    first_fit b c pdus = Some pdus' ->
    Forall (pdu_in_window lo hi) pdus' /\
    (exists p', In p' pdus' /\ pdu_holds p' b) /\
    (forall p, In p pdus -> exists p', In p' pdus' /\ pdu_extends p p').
Proof.
  intros Hw Hb.
  induction pdus as [| p ps IH]; intros pdus' Hps; cbn [first_fit]; [discriminate |].
  inversion Hps as [| ? ? Hp Hps']; subst.
  destruct (mb_block_fits_pdu b p c) eqn:Hfit.
  - intros H; injection H as <-.
    destruct (add_block_window lo hi c b p Hw Hb Hp Hfit) as (H1 & H2 & H3).
    split; [apply Forall_cons; assumption |].
    split; [eexists; split; [left; reflexivity | assumption] |].
    intros q [<- | Hin].
    + eexists; split; [left; reflexivity | assumption].
    + exists q; split; [right; assumption | apply pdu_extends_refl].
  - destruct (first_fit b c ps) as [ps' |]; [| discriminate].
    cbn [option_map]; intros H; injection H as <-.
    destruct (IH ps' Hps' eq_refl) as (H1 & (p' & Hin' & Hh) & H3).
    split; [apply Forall_cons; assumption |].
    split; [exists p'; split; [right; assumption | assumption] |].
    intros q [<- | Hin].
    + exists p; split; [left; reflexivity | apply pdu_extends_refl].
    + destruct (H3 q Hin) as (q' & Hq' & He).
      exists q'; split; [right; assumption | assumption].
Qed.

Lemma ffd_place_covers (lo hi c n : Z) (blocks : list mb_block_t) :
  hi - lo <= 65535 ->
  forall pdus out,
    Forall (block_in_window lo hi) blocks ->
    Forall (pdu_in_window lo hi) pdus ->
    ffd_place blocks c n pdus = Ok out ->
    Forall (pdu_in_window lo hi) out /\
    (forall b, In b blocks -> exists p, In p out /\ pdu_holds p b) /\
    (forall p, In p pdus -> exists p', In p' out /\ pdu_extends p p').
Proof.
  intros Hw.
  induction blocks as [| b rest IH]; intros pdus out Hbs Hps; cbn [ffd_place].
  - intros H; injection H as <-.
    split; [assumption |]; split; [intros b [] |].
    intros p Hin; exists p; split; [assumption | apply pdu_extends_refl].
  - inversion Hbs as [| ? ? Hb Hrest]; subst.
    destruct (first_fit b c pdus) as [pdus' |] eqn:Hff.
    + destruct (first_fit_covers lo hi c b pdus Hw Hb pdus' Hps Hff)
        as (H1 & (p' & Hin' & Hh) & H3).
      intros Hrun.
      destruct (IH pdus' out Hrest H1 Hrun) as (I1 & I2 & I3).
      split; [assumption |]; split.
      * intros b' [<- | Hin]; [| apply I2; assumption].
        destruct (I3 p' Hin') as (p'' & Hin'' & He).
        exists p''; split; [assumption | eapply pdu_holds_extends; eassumption].
      * intros p Hin.
        destruct (H3 p Hin) as (q & Hq & He).
        destruct (I3 q Hq) as (q' & Hq' & He').
        exists q'; split; [assumption | eapply pdu_extends_trans; eassumption].
    + destruct (len pdus >=? n); [discriminate |].
      intros Hrun.
      destruct (add_block_new lo hi b Hb) as [N1 N2].
      set (new := mb_add_block_to_pdu b
                    (mb_init_pdu (blk_slave_id b) (blk_function_code b))) in *.
      assert (Hps' : Forall (pdu_in_window lo hi) (pdus ++ [new])).
      { apply Forall_app; split; [assumption |].
        apply Forall_cons; [assumption | apply Forall_nil]. }
      destruct (IH (pdus ++ [new]) out Hrest Hps' Hrun) as (I1 & I2 & I3).
      split; [assumption |]; split.
      * intros b' [<- | Hin]; [| apply I2; assumption].
        destruct (I3 new) as (p'' & Hin'' & He);
          [apply in_or_app; right; left; reflexivity |].
        exists p''; split; [assumption | exact (pdu_holds_extends new p'' b N2 He)].
      * intros p Hin; apply I3, in_or_app; left; assumption.
Qed.

Lemma ffd_pack_window (blocks : list mb_block_t) (max_pdu_chars max_pdus lo hi : Z)
  (pdus : list mb_pdu_t) :
  hi - lo <= 65535 ->
  Forall (block_in_window lo hi) blocks ->
  mb_ffd_pack blocks max_pdu_chars max_pdus = Ok pdus ->
  Forall (pdu_in_window lo hi) pdus /\
  forall b, In b blocks -> exists p, In p pdus /\ pdu_holds p b.
Proof.
  intros Hw Hb; unfold mb_ffd_pack.
  destruct (len blocks =? 0) eqn:E.
  - apply Z.eqb_eq in E.
    destruct blocks; [| rewrite len_cons in E; pose proof (len_nonneg blocks); lia].
    intros H; injection H as <-; split; [apply Forall_nil | intros b []].
  - intros Hrun.
    set (before := fun a b => blk_quantity a >? blk_quantity b).
    destruct (ffd_place_covers lo hi max_pdu_chars max_pdus
                (mb_block_sort_by_quantity_desc blocks) Hw [] pdus)
      as (H1 & H2 & _);
      [apply sort_blocks_Forall; assumption | apply Forall_nil | assumption |].
    split; [assumption |].
    intros b Hin; apply H2.
    apply (Permutation_in b (Permutation_sym (sort_blocks_perm before blocks)));
      assumption.
Qed.

(** Packing loses no address.  For blocks that are not empty and lie in a
    window of at most 65535 addresses, and all limits: every PDU of a
    successful [mb_ffd_pack] lies in the window and is not empty, and every
    input block is contained in a PDU of its slave and function code. *)
Theorem ffd_pack_covers (blocks : list mb_block_t) (max_pdu_chars max_pdus lo hi : Z)
  (pdus : list mb_pdu_t) :
  hi - lo <= 65535 ->
  Forall (block_in_window lo hi) blocks ->
  mb_ffd_pack blocks max_pdu_chars max_pdus = Ok pdus ->
  Forall (pdu_in_window lo hi) pdus /\
  forall b, In b blocks -> exists p, In p pdus /\ pdu_holds p b.
Proof.
  intros Hw Hb; unfold mb_ffd_pack.
  destruct (len blocks =? 0) eqn:E.
  - apply Z.eqb_eq in E.
    destruct blocks; [| rewrite len_cons in E; pose proof (len_nonneg blocks); lia].
    intros H; injection H as <-; split; [apply Forall_nil | intros b []].
  - intros Hrun.
    set (before := fun a b => blk_quantity a >? blk_quantity b).
    destruct (ffd_place_covers lo hi max_pdu_chars max_pdus
                (mb_block_sort_by_quantity_desc blocks) Hw [] pdus)
      as (H1 & H2 & _);
      [apply sort_blocks_Forall; assumption | apply Forall_nil | assumption |].
    split; [assumption |].
    intros b Hin; apply H2.
    apply (Permutation_in b (Permutation_sym (sort_blocks_perm before blocks)));
      assumption.
Qed.

Lemma ffd_pack_covers_witness :
  let blocks := [mk_block 1 3 100 3 false; mk_block 1 3 115 3 false;
                 mk_block 1 3 65411 125 false] in
  let pdus := [mk_pdu 1 3 65411 125 250; mk_pdu 1 3 100 18 36] in
  Forall (pdu_in_window 1 65536) pdus /\
  forall b, In b blocks -> exists p, In p pdus /\ pdu_holds p b.
Proof.
  intros blocks pdus.
  apply (ffd_pack_covers blocks 253 10 1 65536 pdus).
  - lia.
  - repeat (apply Forall_cons; [unfold block_in_window, block_end; simpl; lia |]).
    apply Forall_nil.
  - reflexivity.
Defined.

(** ** FFD packer: blocks the merger keeps apart *)

Lemma unit_size_of_limited (f : Z) :
  1 <= mb_fc_get_max_quantity f ->
  mb_fc_get_unit_size f = 1 \/ mb_fc_get_unit_size f = 2.
Proof.
  intros H; destruct (in_table_dec f) as [Hin | Hout].
  - cbn [In] in Hin.
    repeat (destruct Hin as [<- | Hin]; [vm_compute; tauto |]).
    contradiction.
  - unfold mb_fc_get_max_quantity in H; rewrite (policy_outside_table f Hout) in H; lia.
Qed.

Lemma data_size_small (f q : Z) :
  0 <= q <= mb_fc_get_max_quantity f ->
  (if mb_fc_get_unit_size f =? 1 then to_u16 ((q + 7) / 8)
   else if mb_fc_get_unit_size f =? 2 then to_u16 (q * 2) else 0)
  = data_size_formula f q.
Proof.
  intros Hq; pose proof (max_quantity_bound f) as Hm.
  unfold data_size_formula.
  destruct (mb_fc_get_unit_size f =? 1).
  - apply to_u16_small; unfold u16; Z.to_euclidean_division_equations; lia.
  - destruct (mb_fc_get_unit_size f =? 2); [| reflexivity].
    rewrite Z.mul_comm; apply to_u16_small; unfold u16; lia.
Qed.

(** The packer joins what fits, whatever lies in between.  Two blocks of the
    same slave and function code (not empty, inside the address space) whose
    joint span, from the lower start to the higher end, respects the
    quantity limit of the function code and the byte limit, are always
    packed into one PDU that reads the whole span, the addresses between the
    two blocks included.  The gap between the blocks and the cost
    parameters play no part: the blocks (100, 3) and (115, 3) of function
    code 3, which [mb_should_merge_blocks] keeps apart under the RTU
    parameters, leave the packer as the single request (100, 18). *)
Theorem ffd_pack_joins_across_gap (a b : mb_block_t) (max_pdu_chars max_pdus : Z) :
  block_in_window 0 65536 a -> block_in_window 0 65536 b ->
  mb_block_are_compatible a b = true ->
  let start := Z.min (blk_start_address a) (blk_start_address b) in
  let span := Z.max (block_end a) (block_end b) - start in
  span <= mb_fc_get_max_quantity (blk_function_code a) ->
  data_size_formula (blk_function_code a) span <= max_pdu_chars ->
  1 <= max_pdus ->
  mb_ffd_pack [a; b] max_pdu_chars max_pdus =
    Ok [mk_pdu (blk_slave_id a) (blk_function_code a) start span
          (data_size_formula (blk_function_code a) span)].
Proof.
  intros (A1 & A2 & A3) (B1 & B2 & B3) Hc start span Hq Hd Hn.
  destruct (compatible_fields a b Hc) as [Hs Hf].
  unfold block_end in *.
  pose proof (max_quantity_bound (blk_function_code a)) as Hmax.
  assert (Hspan : 1 <= span <= 2000) by (unfold span, start; lia).
  assert (Hu : mb_fc_get_unit_size (blk_function_code a) = 1 \/
               mb_fc_get_unit_size (blk_function_code a) = 2)
    by (apply unit_size_of_limited; lia).
  unfold mb_ffd_pack; change (len [a; b] =? 0) with false; cbv iota.
  assert (Hplace : forall x y,
            blk_slave_id x = blk_slave_id a -> blk_function_code x = blk_function_code a ->
            blk_slave_id y = blk_slave_id a -> blk_function_code y = blk_function_code a ->
            1 <= blk_quantity x -> 1 <= blk_quantity y ->
            Z.min (blk_start_address x) (blk_start_address y) = start ->
            Z.max (blk_start_address x + blk_quantity x)
                  (blk_start_address y + blk_quantity y) - start = span ->
            ffd_place [x; y] max_pdu_chars max_pdus [] =
              Ok [mk_pdu (blk_slave_id a) (blk_function_code a) start span
                    (data_size_formula (blk_function_code a) span)]).
  { intros x y Xs Xf Ys Yf X2 Y2 Hmin Hmaxe.
    cbn [ffd_place first_fit].
    change (len (@nil mb_pdu_t)) with 0.
    destruct (0 >=? max_pdus) eqn:E0;
      [rewrite Z.geb_leb in E0; apply Z.leb_le in E0; lia |].
    cbn [app].
    assert (Hnew : mb_add_block_to_pdu x
                     (mb_init_pdu (blk_slave_id x) (blk_function_code x)) =
                   mk_pdu (blk_slave_id x) (blk_function_code x) (blk_start_address x)
                     (blk_quantity x) (mb_block_calc_data_size x)) by reflexivity.
    rewrite !Hnew.
    set (p := mk_pdu (blk_slave_id x) (blk_function_code x) (blk_start_address x)
                (blk_quantity x) (mb_block_calc_data_size x)).
    assert (Hmerged :
              to_u16 ((if blk_start_address y + blk_quantity y >?
                          pdu_start_address p + pdu_quantity p
                       then blk_start_address y + blk_quantity y
                       else pdu_start_address p + pdu_quantity p) -
                      (if blk_start_address y <? pdu_start_address p
                       then blk_start_address y else pdu_start_address p)) = span).
    { unfold p; cbn [pdu_start_address pdu_quantity].
      destruct (blk_start_address y + blk_quantity y >?
                blk_start_address x + blk_quantity x) eqn:E1;
        [apply Z.gtb_lt in E1 | rewrite Z.gtb_ltb in E1; apply Z.ltb_ge in E1];
        (destruct (blk_start_address y <? blk_start_address x) eqn:E2;
         [apply Z.ltb_lt in E2 | apply Z.ltb_ge in E2]);
        rewrite to_u16_small by (unfold u16; lia); lia. }
    assert (Hstart :
              (if blk_start_address y <? pdu_start_address p
               then blk_start_address y else pdu_start_address p) = start).
    { unfold p; cbn [pdu_start_address].
      destruct (blk_start_address y <? blk_start_address x) eqn:E2;
        [apply Z.ltb_lt in E2 | apply Z.ltb_ge in E2]; lia. }
    assert (Hfit : mb_block_fits_pdu y p max_pdu_chars = true).
    { unfold mb_block_fits_pdu.
      replace (pdu_quantity p =? 0) with false
        by (symmetry; apply Z.eqb_neq; unfold p; cbn [pdu_quantity]; lia).
      replace ((blk_slave_id y =? pdu_slave_id p) &&
               (blk_function_code y =? pdu_function_code p)) with true
        by (unfold p; cbn [pdu_slave_id pdu_function_code];
            rewrite Ys, Yf, Xs, Xf, !Z.eqb_refl; reflexivity).
      cbn [negb]; rewrite Hmerged, Yf.
      destruct (span >? mb_fc_get_max_quantity (blk_function_code a)) eqn:E3;
        [apply Z.gtb_lt in E3; lia |].
      pose proof (data_size_small (blk_function_code a) span ltac:(lia)) as Hds.
      destruct (mb_fc_get_unit_size (blk_function_code a) =? 1) eqn:U1;
        [rewrite Hds; apply Z.leb_le; assumption |].
      destruct (mb_fc_get_unit_size (blk_function_code a) =? 2) eqn:U2;
        [rewrite Hds; apply Z.leb_le; assumption |].
      apply Z.eqb_neq in U1, U2; lia. }
    cbn [first_fit]; rewrite Hfit.
    unfold mb_add_block_to_pdu.
    replace (pdu_quantity p =? 0) with false
      by (symmetry; apply Z.eqb_neq; unfold p; cbn [pdu_quantity]; lia).
    rewrite Hmerged, Hstart.
    cbn [pdu_slave_id pdu_function_code pdu_start_address pdu_quantity].
    unfold mb_calc_pdu_data_size;
      cbn [pdu_slave_id pdu_function_code pdu_start_address pdu_quantity].
    replace (span =? 0) with false by (symmetry; apply Z.eqb_neq; lia).
    unfold p; cbn [pdu_slave_id pdu_function_code]; rewrite Xs, Xf.
    rewrite (data_size_small (blk_function_code a) span) by lia.
    reflexivity. }
  unfold mb_block_sort_by_quantity_desc, sort_blocks; cbn [fold_right insert_block].
  destruct (blk_quantity b >? blk_quantity a).
  - apply Hplace; try congruence; try lia; unfold span, start; lia.
  - apply Hplace; try congruence; try lia; unfold span, start; lia.
Qed.

Lemma ffd_pack_joins_across_gap_witness :
  mb_should_merge_blocks (mk_block 1 3 100 3 false) (mk_block 1 3 115 3 false)
    (mb_init_cost_params MB_MODE_RTU 3 2 (mk_cost 0 0 0 0)) = false /\
  mb_ffd_pack [mk_block 1 3 100 3 false; mk_block 1 3 115 3 false] 253 16 =
    Ok [mk_pdu 1 3 100 18 36].
Proof.
  split; [reflexivity |].
  apply (ffd_pack_joins_across_gap
           (mk_block 1 3 100 3 false) (mk_block 1 3 115 3 false) 253 16);
    try reflexivity; try (unfold block_in_window, block_end; simpl; lia);
    vm_compute; discriminate.
Defined.

(** ** Folding, merging and packing in sequence *)

Lemma addresses_to_blocks_total (A : list Z) (slave_id f max_blocks : Z) :
  len A <= max_blocks ->
  match mb_addresses_to_blocks A slave_id f max_blocks with
  | Ok blocks => len blocks <= len A /\ (0 < len A -> 1 <= len blocks /\ mb_fc_is_valid f = true)
  | Err e => e = MB_ERROR_INVALID_FC /\ mb_fc_is_valid f = false /\ 0 < len A
  end.
Proof.
  intros Hcap; unfold mb_addresses_to_blocks.
  pose proof (len_nonneg A) as HA.
  destruct (len A =? 0) eqn:E.
  - apply Z.eqb_eq in E; rewrite E; change (len (@nil mb_block_t)) with 0.
    split; [lia | intros; lia].
  - apply Z.eqb_neq in E.
    destruct (mb_fc_is_valid f) eqn:Hf; cbn [negb]; [| repeat split; lia].
    pose proof (bubble_sort_len A) as Hl.
    destruct (bubble_sort A) as [| first rest].
    + change (len (@nil Z)) with 0 in Hl; lia.
    + rewrite len_cons in Hl.
      destruct (group_blocks_total slave_id f max_blocks rest [] first 1 first)
        as (new & -> & Hn); [change (len (@nil mb_block_t)) with 0; lia |].
      cbn [app]; split; [lia | intros; split; [lia | reflexivity]].
Qed.

Lemma in_address_run (a start quantity : Z) :
  In a (address_run start quantity) <-> start <= a < start + quantity.
Proof.
  unfold address_run; rewrite in_map_iff; split.
  - intros (k & <- & Hk); apply in_seq in Hk; lia.
  - intros H; exists (Z.to_nat (a - start)); split; [lia |].
    apply in_seq; lia.
Qed.

Lemma group_blocks_fresh (slave_id f max_blocks : Z) (rest : list Z) :
  forall (blocks new : list mb_block_t) (bs bq prev : Z),
    1 <= bq -> bq + len rest <= 65535 ->
    group_blocks slave_id f max_blocks blocks bs bq prev rest = Ok (blocks ++ new) ->
    Forall (fresh_block slave_id f) new.
Proof.
  induction rest as [| cur rest IH]; intros blocks new bs bq prev Hbq Hwrap;
    cbn [group_blocks].
  - destruct (len blocks >=? max_blocks); [discriminate |].
    intros H; injection H as H; apply app_inv_head in H; subst new.
    apply Forall_cons; [| apply Forall_nil].
    unfold fresh_block; cbn; repeat split; lia.
  - rewrite len_cons in Hwrap; pose proof (len_nonneg rest) as Hr0.
    destruct (cur =? prev + 1).
    + rewrite to_u16_small by (unfold u16; lia).
      apply IH; lia.
    + destruct (len blocks >=? max_blocks); [discriminate |].
      intros Hrun.
      destruct (group_blocks_prefix _ _ _ _ _ _ _ _ _ Hrun) as [n Hn].
      rewrite <- app_assoc in Hn; apply app_inv_head in Hn; cbn [app] in Hn.
      subst new.
      apply Forall_cons.
      * unfold fresh_block; cbn; repeat split; lia.
      * apply (IH (blocks ++ [mk_block slave_id f bs bq false]) n cur 1 cur);
          [lia | lia |].
        rewrite Hrun, <- app_assoc; reflexivity.
Qed.

Lemma addresses_to_blocks_window (A : list Z) (slave_id f max_blocks : Z) (lo hi : Z)
  (blocks : list mb_block_t) :
  len A <= 65535 -> 0 <= max_blocks ->
  Forall (fun a => lo <= a < hi) A ->
  mb_addresses_to_blocks A slave_id f max_blocks = Ok blocks ->
  Forall (fun b => fresh_block slave_id f b /\ block_in_window lo hi b) blocks /\
  forall a, In a A -> exists b, In b blocks /\ block_covers b a.
Proof.
  intros Hcount Hcap Hwin Hrun.
  pose proof (addresses_to_blocks_total A slave_id f (len A) (Z.le_refl _)) as Ht.
  assert (Hfull : mb_addresses_to_blocks A slave_id f (len A) = Ok blocks).
  { destruct (mb_addresses_to_blocks A slave_id f (len A)) as [out | e] eqn:Hfull.
    - rewrite (addresses_to_blocks_room A slave_id f max_blocks out Hcap Hfull) in Hrun.
      destruct (len out <=? max_blocks); [injection Hrun as ->; reflexivity | discriminate].
    - destruct Ht as (_ & Hf & Hpos).
      unfold mb_addresses_to_blocks in Hrun; rewrite Hf in Hrun.
      replace (len A =? 0) with false in Hrun by (symmetry; apply Z.eqb_neq; lia).
      discriminate. }
  clear Hrun; rename Hfull into Hrun.
  rewrite Hrun in Ht; destruct Ht as [_ Ht].
  pose proof (len_nonneg A) as HA.
  destruct (Z.eq_dec (len A) 0) as [E | E].
  - destruct A; [| rewrite len_cons in E; pose proof (len_nonneg A); lia].
    unfold mb_addresses_to_blocks in Hrun; cbn in Hrun; injection Hrun as <-.
    split; [apply Forall_nil | intros a []].
  - destruct Ht as [_ Hf]; [lia |].
    destruct (bubble_sort_sorted A) as [_ Hperm].
    assert (Hflat : flat_map block_addresses blocks = bubble_sort A /\
                    Forall (fresh_block slave_id f) blocks).
    { unfold mb_addresses_to_blocks in Hrun; rewrite Hf in Hrun; cbn [negb] in Hrun.
      replace (len A =? 0) with false in Hrun by (symmetry; apply Z.eqb_neq; assumption).
      pose proof (bubble_sort_len A) as Hl.
      destruct (bubble_sort A) as [| first rest] eqn:Hs.
      - change (len (@nil Z)) with 0 in Hl; lia.
      - rewrite len_cons in Hl.
        destruct (group_blocks_flatten slave_id f (len A) rest [] first 1 first)
          as (new & Hrun' & Hfl); try lia.
        { change (len (@nil mb_block_t)) with 0; lia. }
        rewrite Hrun in Hrun'; injection Hrun' as ->.
        split; [rewrite Hfl, address_run_one; reflexivity |].
        apply (group_blocks_fresh slave_id f (len A) rest [] new first 1 first);
          [lia | lia | exact Hrun]. }
    destruct Hflat as [Hflat Hfresh].
    assert (Hsub : forall b a, In b blocks -> In a (block_addresses b) -> lo <= a < hi).
    { intros b a Hb Ha.
      assert (Hin : In a (bubble_sort A))
        by (rewrite <- Hflat; apply in_flat_map; exists b; split; assumption).
      apply (Permutation_in a (Permutation_sym Hperm)) in Hin.
      rewrite Forall_forall in Hwin; apply Hwin; assumption. }
    split.
    + apply Forall_forall; intros b Hb.
      rewrite Forall_forall in Hfresh; pose proof (Hfresh b Hb) as Hfb.
      split; [assumption |].
      destruct Hfb as (_ & _ & _ & Hq).
      pose proof (Hsub b (blk_start_address b) Hb) as H1.
      pose proof (Hsub b (blk_start_address b + blk_quantity b - 1) Hb) as H2.
      unfold block_addresses in H1, H2; rewrite in_address_run in H1, H2.
      unfold block_in_window, block_end; lia.
    + intros a Ha.
      apply (Permutation_in a Hperm) in Ha.
      rewrite <- Hflat in Ha; apply in_flat_map in Ha.
      destruct Ha as (b & Hb & Hab).
      exists b; split; [assumption |].
      unfold block_addresses in Hab; rewrite in_address_run in Hab.
      unfold block_covers; assumption.
Qed.

(** The three stages, called one after the other, lose no address.  For a
    list of at most 65535 addresses that all lie in a window of at most
    65535 addresses of the 16-bit address space (that is: not both address
    0 and address 65535 are in the list), in any order and with
    repetitions, for every capacity of the output arrays and all cost
    parameters and limits: when [mb_addresses_to_blocks] succeeds,
    [mb_merge_block_array] succeeds on its blocks, and when [mb_ffd_pack]
    succeeds on the merged blocks, every address of the list lies in the
    range of one of the PDUs, and that PDU carries the slave id and the
    function code given to the first stage. *)
Theorem stages_cover_addresses (A : list Z) (slave_id f max_blocks : Z)
  (cost : mb_cost_params_t) (max_pdu_chars max_pdus lo hi : Z)
  (blocks : list mb_block_t) (pdus : list mb_pdu_t) :
  0 <= lo -> hi <= 65536 -> hi - lo <= 65535 ->
  len A <= 65535 -> 0 <= max_blocks ->
  Forall (fun a => lo <= a < hi) A ->
  mb_addresses_to_blocks A slave_id f max_blocks = Ok blocks ->
  exists merged,
    mb_merge_block_array blocks cost = Ok merged /\
    (mb_ffd_pack merged max_pdu_chars max_pdus = Ok pdus ->
     forall a, In a A ->
       exists p,
         In p pdus /\
         pdu_slave_id p = slave_id /\
         pdu_function_code p = f /\
         pdu_covers p a).
Proof.
  intros Hlo Hhi Hw Hcount Hcap Hwin Hb.
  destruct (addresses_to_blocks_window A _ _ _ lo hi blocks Hcount Hcap Hwin Hb)
    as [Hblocks Hcov].
  assert (Hbw : Forall (block_in_window lo hi) blocks)
    by (eapply Forall_impl; [| exact Hblocks]; cbn beta; tauto).
  destruct (merge_array_window blocks cost lo hi Hw Hbw) as (merged & Hm & Hmw & Hmc).
  exists merged; split; [assumption |].
  intros Hp a Ha.
  destruct (ffd_pack_window merged max_pdu_chars max_pdus lo hi pdus Hw Hmw Hp)
    as [Hpw Hpc].
  destruct (Hcov a Ha) as (b & Hbin & Hba).
  destruct (Hmc b Hbin) as (m & Hmin & Hbm).
  destruct (Hpc m Hmin) as (p & Hpin & Hpm).
  rewrite Forall_forall in Hblocks; destruct (Hblocks b Hbin) as [(Fs & Ff & _) _].
  exists p; split; [assumption |].
  unfold block_within, pdu_holds, block_covers, block_end, pdu_covers in *.
  repeat split; try congruence; lia.
Qed.

Lemma stages_cover_addresses_witness :
  exists merged,
    mb_merge_block_array
      [mk_block 1 3 100 3 false; mk_block 1 3 115 3 false; mk_block 1 3 400 1 false]
      (mk_cost 6 5 4 2) = Ok merged /\
    (mb_ffd_pack merged 253 16 = Ok [mk_pdu 1 3 100 18 36; mk_pdu 1 3 400 1 2] ->
     forall a, In a [117; 100; 400; 101; 116; 102; 115] ->
       exists p,
         In p [mk_pdu 1 3 100 18 36; mk_pdu 1 3 400 1 2] /\
         pdu_slave_id p = 1 /\
         pdu_function_code p = 3 /\
         pdu_covers p a).
Proof.
  apply (stages_cover_addresses [117; 100; 400; 101; 116; 102; 115] 1 3 7
           (mk_cost 6 5 4 2) 253 16 0 65535).
  - lia.
  - lia.
  - lia.
  - vm_compute; discriminate.
  - lia.
  - repeat (apply Forall_cons; [lia |]); apply Forall_nil.
  - reflexivity.
Defined.

(** The window condition cannot be dropped: with both ends of the address
    space in the list, the gap cost wraps, the two blocks are merged, and
    the merged quantity wraps to 0, so the single PDU reads nothing. *)
Example stages_full_window :
  mb_addresses_to_blocks [0; 65535] 1 3 2 =
    Ok [mk_block 1 3 0 1 false; mk_block 1 3 65535 1 false] /\
  mb_merge_block_array [mk_block 1 3 0 1 false; mk_block 1 3 65535 1 false]
    (mk_cost 6 5 4 2) = Ok [mk_block 1 3 0 0 true] /\
  mb_ffd_pack [mk_block 1 3 0 0 true] 253 1 = Ok [mk_pdu 1 3 0 0 0].
Proof. vm_compute; repeat split. Qed.

(** ** Frame builder: lengths *)

Lemma len_byte_to_hex (b : Z) : len (byte_to_hex b) = 2.
Proof. reflexivity. Qed.

Lemma build_frame_len (slave_id f : Z) (pdu : list Z) (mode : mb_mode_t)
  (buffer_size : Z) :
  len pdu <= 32763 ->
  (mode = MB_MODE_ASCII -> len pdu <= 254 \/ buffer_size <= 518) ->
  match mb_build_frame slave_id f pdu mode buffer_size with
  | Ok frame =>
      len frame = mb_calc_frame_length (len pdu) mode /\ len frame <= buffer_size
  | Err e =>
      e = MB_ERROR_BUFFER_TOO_SMALL /\
      buffer_size < mb_calc_frame_length (len pdu) mode
  end.
Proof.
  intros Hn _; pose proof (len_nonneg pdu) as H0.
  destruct mode; unfold mb_build_frame, mb_calc_frame_length.
  - unfold mb_rtu_build_frame, mb_rtu_calc_frame_length.
    rewrite to_u16_small by (unfold u16; lia).
    destruct (buffer_size <? 1 + 1 + len pdu + 2) eqn:E;
      [apply Z.ltb_lt in E; split; [reflexivity | lia] | apply Z.ltb_ge in E].
    rewrite len_app, !len_cons; change (len (@nil Z)) with 0; lia.
  - unfold mb_ascii_build_frame, mb_ascii_calc_frame_length.
    rewrite to_u16_small by (unfold u16; lia).
    destruct (buffer_size <? 1 + 2 + 2 + len pdu * 2 + 2 + 2) eqn:E;
      [apply Z.ltb_lt in E; split; [reflexivity | lia] | apply Z.ltb_ge in E].
    rewrite !len_app, len_hex_pdu, !len_byte_to_hex.
    change (len [ch_colon]) with 1; change (len [ch_CR; ch_LF]) with 2; lia.
  - unfold mb_tcp_build_frame, mb_tcp_calc_frame_length.
    rewrite to_u16_small by (unfold u16; lia).
    destruct (buffer_size <? 7 + 1 + len pdu) eqn:E;
      [apply Z.ltb_lt in E; split; [reflexivity | lia] | apply Z.ltb_ge in E].
    rewrite len_app.
    match goal with |- context [len ?l + len pdu] => change (len l) with 8 end.
    lia.
Qed.

(** [mb_calc_frame_length] is the size of the frame and of the buffer it
    needs.  For every mode, slave id and function code and a PDU of at most
    32763 bytes (so that no length leaves the range of [uint16_t]) that, in
    ASCII mode, has at most 254 bytes or comes with a buffer of at most 518
    bytes (so that the builder stays within [lrc_data]): [mb_build_frame]
    succeeds exactly when the buffer has at least [mb_calc_frame_length]
    bytes, the frame it returns has exactly that length, and its only error
    is [MB_ERROR_BUFFER_TOO_SMALL]. *)
Theorem build_frame_length (slave_id f : Z) (pdu : list Z) (mode : mb_mode_t)
  (buffer_size : Z) :
  len pdu <= 32763 ->
  (mode = MB_MODE_ASCII -> len pdu <= 254 \/ buffer_size <= 518) ->
  match mb_build_frame slave_id f pdu mode buffer_size with
  | Ok frame =>
      len frame = mb_calc_frame_length (len pdu) mode /\ len frame <= buffer_size
  | Err e =>
      e = MB_ERROR_BUFFER_TOO_SMALL /\
      buffer_size < mb_calc_frame_length (len pdu) mode
  end.
Proof.
  intros Hn _; pose proof (len_nonneg pdu) as H0.
  destruct mode; unfold mb_build_frame, mb_calc_frame_length.
  - unfold mb_rtu_build_frame, mb_rtu_calc_frame_length.
    rewrite to_u16_small by (unfold u16; lia).
    destruct (buffer_size <? 1 + 1 + len pdu + 2) eqn:E;
      [apply Z.ltb_lt in E; split; [reflexivity | lia] | apply Z.ltb_ge in E].
    rewrite len_app, !len_cons; change (len (@nil Z)) with 0; lia.
  - unfold mb_ascii_build_frame, mb_ascii_calc_frame_length.
    rewrite to_u16_small by (unfold u16; lia).
    destruct (buffer_size <? 1 + 2 + 2 + len pdu * 2 + 2 + 2) eqn:E;
      [apply Z.ltb_lt in E; split; [reflexivity | lia] | apply Z.ltb_ge in E].
    rewrite !len_app, len_hex_pdu, !len_byte_to_hex.
    change (len [ch_colon]) with 1; change (len [ch_CR; ch_LF]) with 2; lia.
  - unfold mb_tcp_build_frame, mb_tcp_calc_frame_length.
    rewrite to_u16_small by (unfold u16; lia).
    destruct (buffer_size <? 7 + 1 + len pdu) eqn:E;
      [apply Z.ltb_lt in E; split; [reflexivity | lia] | apply Z.ltb_ge in E].
    rewrite len_app.
    match goal with |- context [len ?l + len pdu] => change (len l) with 8 end.
    lia.
Qed.

Lemma build_frame_length_witness :
  match mb_build_frame 1 3 [0; 100; 0; 3] MB_MODE_ASCII 260 with
  | Ok frame =>
      len frame = mb_calc_frame_length (len [0; 100; 0; 3]) MB_MODE_ASCII /\
      len frame <= 260
  | Err e =>
      e = MB_ERROR_BUFFER_TOO_SMALL /\
      260 < mb_calc_frame_length (len [0; 100; 0; 3]) MB_MODE_ASCII
  end.
Proof.
  apply (build_frame_length 1 3 [0; 100; 0; 3] MB_MODE_ASCII 260).
  - vm_compute; discriminate.
  - intros _; left; vm_compute; discriminate.
Defined.

(** ** ASCII frames: case of the hexadecimal digits *)

Lemma byte_at_map (g : Z -> Z) (frame : list Z) (i : Z) :
  g 0 = 0 -> byte_at (map g frame) i = g (byte_at frame i).
Proof.
  intros Hg; unfold byte_at.
  rewrite <- Hg at 1; apply map_nth.
Qed.

Lemma len_map {A B : Type} (g : A -> B) (l : list A) : len (map g l) = len l.
Proof. unfold len; rewrite length_map; reflexivity. Qed.

Lemma hex_nibble_lower (c : Z) : hex_nibble (hex_to_lower c) = hex_nibble c.
Proof.
  unfold hex_to_lower, ch_A, ch_F.
  destruct ((65 <=? c) && (c <=? 70)) eqn:E; [| reflexivity].
  apply andb_prop in E; destruct E as [E1 E2].
  apply Z.leb_le in E1, E2.
  unfold hex_nibble, ch_0, ch_9, ch_A, ch_F, ch_a, ch_f.
  replace (c + 32 >=? 48) with true by (symmetry; rewrite Z.geb_leb; apply Z.leb_le; lia).
  replace (c + 32 <=? 57) with false by (symmetry; apply Z.leb_gt; lia).
  replace (c + 32 >=? 65) with true by (symmetry; rewrite Z.geb_leb; apply Z.leb_le; lia).
  replace (c + 32 <=? 70) with false by (symmetry; apply Z.leb_gt; lia).
  replace (c + 32 >=? 97) with true by (symmetry; rewrite Z.geb_leb; apply Z.leb_le; lia).
  replace (c + 32 <=? 102) with true by (symmetry; apply Z.leb_le; lia).
  replace (c >=? 48) with true by (symmetry; rewrite Z.geb_leb; apply Z.leb_le; lia).
  replace (c <=? 57) with false by (symmetry; apply Z.leb_gt; lia).
  replace (c >=? 65) with true by (symmetry; rewrite Z.geb_leb; apply Z.leb_le; lia).
  replace (c <=? 70) with true by (symmetry; apply Z.leb_le; lia).
  cbn [andb]; do 2 f_equal; lia.
Qed.

Lemma hex_to_byte_lower (a b : Z) :
  hex_to_byte (hex_to_lower a) (hex_to_lower b) = hex_to_byte a b.
Proof. unfold hex_to_byte; rewrite !hex_nibble_lower; reflexivity. Qed.

Lemma lower_keeps (c k : Z) :
  k < 65 \/ 102 < k -> (hex_to_lower c =? k) = (c =? k).
Proof.
  intros Hk; unfold hex_to_lower, ch_A, ch_F.
  destruct ((65 <=? c) && (c <=? 70)) eqn:E; [| reflexivity].
  apply andb_prop in E; destruct E as [E1 E2].
  apply Z.leb_le in E1, E2.
  destruct (c + 32 =? k) eqn:E3; [apply Z.eqb_eq in E3; lia |].
  symmetry; apply Z.eqb_neq; lia.
Qed.

Lemma parse_hex_pdu_lower (frame : list Z) (n : nat) :
  forall pos,
    parse_hex_pdu (map hex_to_lower frame) pos n = parse_hex_pdu frame pos n.
Proof.
  induction n as [| k IH]; intros pos; cbn [parse_hex_pdu]; [reflexivity |].
  rewrite !byte_at_map, hex_to_byte_lower, IH by reflexivity; reflexivity.
Qed.

(** The ASCII parser does not care about the case of the hexadecimal
    digits.  For every sequence of at most 518 bytes (the frames whose PDU
    fits [lrc_data]), replacing the digits ['A'] to ['F'] by ['a'] to ['f']
    changes nothing in what [mb_ascii_parse_frame] returns: the same error,
    or the same slave id, function code and PDU. *)
Theorem ascii_parse_ignores_case (frame : list Z) :
  len frame <= 518 ->
  mb_ascii_parse_frame (map hex_to_lower frame) = mb_ascii_parse_frame frame.
Proof.
  intros _; unfold mb_ascii_parse_frame.
  rewrite len_map, !byte_at_map, !hex_to_byte_lower, parse_hex_pdu_lower by reflexivity.
  rewrite !lower_keeps by (unfold ch_colon, ch_CR, ch_LF; lia).
  reflexivity.
Qed.

(** The frame [:010300000002FA] followed by CR LF, as the builder writes it
    for slave 1, function code 3 and the PDU 00 00 00 02. *)
Lemma ascii_parse_ignores_case_witness :
  mb_ascii_parse_frame
    (map hex_to_lower
       [58; 48; 49; 48; 51; 48; 48; 48; 48; 48; 48; 48; 50; 70; 65; 13; 10]) =
  mb_ascii_parse_frame
    [58; 48; 49; 48; 51; 48; 48; 48; 48; 48; 48; 48; 50; 70; 65; 13; 10].
Proof.
  apply (ascii_parse_ignores_case
           [58; 48; 49; 48; 51; 48; 48; 48; 48; 48; 48; 48; 50; 70; 65; 13; 10]).
  vm_compute; discriminate.
Defined.

(** ** LRC *)

Lemma lrc_fold_sum (data : list Z) (acc : Z) :
  to_u8 (fold_left (fun lrc byte => to_u8 (lrc + byte)) data acc) =
  to_u8 (acc + sum_bytes data).
Proof.
  revert acc; induction data as [| b t IH]; intros acc;
    cbn [fold_left sum_bytes fold_right].
  - rewrite Z.add_0_r; reflexivity.
  - rewrite IH; fold (sum_bytes t); unfold to_u8.
    rewrite Zplus_mod_idemp_l; f_equal; lia.
Qed.

Lemma mb_lrc_sum (data : list Z) :
  data <> [] -> mb_lrc data = (- sum_bytes data) mod 256.
Proof.
  intros Hne; unfold mb_lrc.
  destruct (len data =? 0) eqn:E.
  - apply Z.eqb_eq in E; destruct data; [congruence |].
    rewrite len_cons in E; pose proof (len_nonneg data); lia.
  - pose proof (lrc_fold_sum data 0) as H; rewrite Z.add_0_l in H.
    set (l := fold_left (fun lrc byte => to_u8 (lrc + byte)) data 0) in *.
    set (S := sum_bytes data) in *.
    unfold to_u8, to_i8 in *.
    destruct (l mod 256 <? 128); Z.to_euclidean_division_equations; lia.
Qed.

Lemma sum_bytes_app (l1 l2 : list Z) :
  sum_bytes (l1 ++ l2) = sum_bytes l1 + sum_bytes l2.
Proof.
  induction l1 as [| x t IH]; cbn [app sum_bytes fold_right]; [reflexivity |].
  fold (sum_bytes (t ++ l2)); fold (sum_bytes t); rewrite IH; lia.
Qed.

Lemma lrc_verify_snoc (x : list Z) (c : Z) :
  x <> [] -> mb_lrc_verify (x ++ [c]) = (mb_lrc x =? c).
Proof.
  intros Hne; unfold mb_lrc_verify.
  rewrite len_app; change (len [c]) with 1.
  assert (Hl : 1 <= len x).
  { destruct x; [congruence | rewrite len_cons; pose proof (len_nonneg x); lia]. }
  destruct (len x + 1 <? 2) eqn:E; [apply Z.ltb_lt in E; lia |].
  rewrite length_app; cbn [length].
  replace (length x + 1 - 1)%nat with (length x) by lia.
  rewrite firstn_app, firstn_all, Nat.sub_diag; cbn [firstn]; rewrite app_nil_r.
  rewrite app_nth2 by lia.
  rewrite Nat.sub_diag; reflexivity.
Qed.

(** The LRC catches every corruption of one byte.  Take a sequence of bytes
    [x] that is not empty, followed by its LRC: replacing any one byte of
    that frame (a byte of [x] or the LRC) by a different byte value gives a
    frame that [mb_lrc_verify] rejects. *)
Theorem lrc_detects_single_byte_error (x pre post : list Z) (b b' : Z) :
  x <> [] ->
  x ++ [mb_lrc x] = pre ++ b :: post ->
  u8 b -> u8 b' -> b <> b' ->
  mb_lrc_verify (pre ++ b' :: post) = false.
Proof.
  intros Hne Hsplit Hb Hb' Hdiff; unfold u8 in *.
  destruct (exists_last (l := b :: post) ltac:(discriminate)) as (body & l & Hbl).
  destruct post as [| p post].
  - assert (body = [] /\ l = b) as [-> ->].
    { destruct body as [| y body]; cbn in Hbl.
      - injection Hbl as ->; split; reflexivity.
      - injection Hbl as _ Hbl; destruct body; discriminate. }
    apply app_inj_tail in Hsplit; destruct Hsplit as [<- Hl].
    rewrite lrc_verify_snoc by assumption.
    apply Z.eqb_neq; lia.
  - destruct body as [| y body]; [cbn in Hbl; discriminate |].
    cbn [app] in Hbl; injection Hbl as <- Hbl.
    rewrite Hbl in Hsplit.
    change (pre ++ b :: body ++ [l]) with (pre ++ (b :: body) ++ [l]) in Hsplit.
    rewrite app_assoc in Hsplit.
    apply app_inj_tail in Hsplit; destruct Hsplit as [Hx Hl].
    rewrite Hbl.
    change (pre ++ b' :: body ++ [l]) with (pre ++ (b' :: body) ++ [l]).
    rewrite app_assoc.
    rewrite lrc_verify_snoc by (destruct pre; discriminate).
    rewrite <- Hl, Hx.
    rewrite !mb_lrc_sum by (destruct pre; discriminate).
    rewrite !sum_bytes_app; cbn [sum_bytes fold_right]; fold (sum_bytes body).
    apply Z.eqb_neq.
    set (P := sum_bytes pre); set (B := sum_bytes body).
    Z.to_euclidean_division_equations; lia.
Qed.

Lemma lrc_detects_single_byte_error_witness :
  mb_lrc_verify ([1; 3] ++ 7 :: [0; 2; 250]) = false.
Proof.
  apply (lrc_detects_single_byte_error [1; 3; 0; 0; 2] [1; 3] [0; 2; 250] 0 7).
  - discriminate.
  - reflexivity.
  - unfold u8; lia.
  - unfold u8; lia.
  - lia.
Defined.

(** ** Response parser: register reads *)

Lemma land_shiftl8_u8 (hi lo : Z) : u8 lo -> Z.land (Z.shiftl hi 8) lo = 0.
Proof.
  intros Hlo; unfold u8 in Hlo.
  apply Z.bits_inj'; intros n Hn.
  rewrite Z.land_spec, Z.bits_0.
  destruct (Z_lt_ge_dec n 8) as [Hlt | Hge].
  - rewrite Z.shiftl_spec_low by lia; reflexivity.
  - destruct (Z.eq_dec lo 0) as [-> | Hne]; [rewrite Z.bits_0, andb_false_r; reflexivity |].
    rewrite (Z.bits_above_log2 lo n);
      [apply andb_false_r | lia |].
    assert (Z.log2 lo < 8) by (apply Z.log2_lt_pow2; lia).
    lia.
Qed.

Lemma be16_value (hi lo : Z) : u8 hi -> u8 lo -> be16 hi lo = 256 * hi + lo.
Proof.
  intros Hhi Hlo; unfold be16.
  rewrite <- Z.lxor_lor, <- Z.add_nocarry_lxor by (apply land_shiftl8_u8; assumption).
  rewrite Z.shiftl_mul_pow2 by lia.
  change (2 ^ 8) with 256.
  unfold u8 in *; rewrite to_u16_small by (unfold u16; lia); lia.
Qed.

Lemma read_register_words_spec (pdu : list Z) (n : nat) :
  forall i0,
    0 <= i0 -> 1 + 2 * (i0 + Z.of_nat n) < 65536 ->
    length (read_register_words pdu i0 n) = n /\
    forall k, 0 <= k < Z.of_nat n ->
      byte_at (read_register_words pdu i0 n) k =
      be16 (byte_at pdu (1 + 2 * (i0 + k))) (byte_at pdu (2 + 2 * (i0 + k))).
Proof.
  induction n as [| m IH]; intros i0 H0 Hr; cbn [read_register_words].
  - split; [reflexivity | intros; lia].
  - destruct (IH (i0 + 1)) as [Hl Hk]; [lia | lia |].
    split; [cbn [length]; rewrite Hl; reflexivity |].
    intros k Hkr.
    rewrite to_u16_small by (unfold u16; lia).
    destruct (Z.eq_dec k 0) as [-> | Hne].
    + unfold byte_at at 1; cbn [Z.to_nat nth].
      f_equal; f_equal; lia.
    + unfold byte_at at 1.
      replace (Z.to_nat k) with (S (Z.to_nat (k - 1))) by lia.
      cbn [nth]; fold (byte_at (read_register_words pdu (i0 + 1) m) (k - 1)).
      rewrite Hk by lia; f_equal; f_equal; lia.
Qed.

(** What a successful register read guarantees.  For the function codes 3
    and 4, a response PDU of bytes and a quantity below 32768: when
    [mb_parse_read_response] succeeds, the quantity is at most 127, the
    byte count of the response is twice the quantity, all the bytes that
    were read lie inside the PDU, exactly [quantity] words are stored, and
    word [i] is the big-endian value of the bytes at the offsets [1 + 2 i]
    and [2 + 2 i]. *)
Theorem read_registers_response_sound (f : Z) (pdu : list Z) (quantity : Z)
  (d : mb_read_data_t) :
  f = MB_FC_READ_HOLDING_REGISTERS \/ f = MB_FC_READ_INPUT_REGISTERS ->
  Forall u8 pdu -> 0 <= quantity < 32768 ->
  mb_parse_read_response f pdu quantity = Ok d ->
  exists words,
    d = read_registers words /\
    quantity <= 127 /\
    byte_at pdu 0 = 2 * quantity /\
    1 + 2 * quantity <= len pdu /\
    len words = quantity /\
    forall i, 0 <= i < quantity ->
      byte_at words i = 256 * byte_at pdu (1 + 2 * i) + byte_at pdu (2 + 2 * i).
Proof.
  intros Hf Hpdu Hq.
  assert (Hbyte : forall i, u8 (byte_at pdu i)).
  { intros i; unfold byte_at.
    destruct (nth_in_or_default (Z.to_nat i) pdu 0) as [Hin | ->];
      [rewrite Forall_forall in Hpdu; apply Hpdu; assumption | unfold u8; lia]. }
  unfold mb_parse_read_response.
  replace (negb (Z.land f 128 =? 0)) with false by (destruct Hf as [-> | ->]; reflexivity).
  replace ((f =? MB_FC_READ_COILS) || (f =? MB_FC_READ_DISCRETE_INPUTS)) with false
    by (destruct Hf as [-> | ->]; reflexivity).
  replace ((f =? MB_FC_READ_HOLDING_REGISTERS) || (f =? MB_FC_READ_INPUT_REGISTERS))
    with true by (destruct Hf as [-> | ->]; reflexivity).
  unfold parse_read_registers_response.
  destruct (len pdu <? 1); [discriminate |].
  rewrite (to_u16_small (quantity * 2)) by (unfold u16; lia).
  destruct (negb (byte_at pdu 0 =? quantity * 2) || (len pdu <? 1 + byte_at pdu 0)) eqn:E;
    [discriminate |].
  apply orb_false_elim in E; destruct E as [E1 E2].
  apply negb_false_iff, Z.eqb_eq in E1; apply Z.ltb_ge in E2.
  pose proof (Hbyte 0) as H0; unfold u8 in H0.
  intros H; injection H as <-.
  destruct (read_register_words_spec pdu (Z.to_nat quantity) 0) as [Hl Hk]; [lia | lia |].
  eexists; split; [reflexivity |].
  repeat split; try lia.
  - unfold len; rewrite Hl; lia.
  - intros i Hi.
    rewrite Hk by lia.
    rewrite be16_value by apply Hbyte.
    rewrite !Z.add_0_l; reflexivity.
Qed.

Lemma read_registers_response_sound_witness :
  exists words,
    read_registers [11; 258] = read_registers words /\
    2 <= 127 /\
    byte_at [4; 0; 11; 1; 2] 0 = 2 * 2 /\
    1 + 2 * 2 <= len [4; 0; 11; 1; 2] /\
    len words = 2 /\
    forall i, 0 <= i < 2 ->
      byte_at words i =
      256 * byte_at [4; 0; 11; 1; 2] (1 + 2 * i) + byte_at [4; 0; 11; 1; 2] (2 + 2 * i).
Proof.
  apply (read_registers_response_sound 3 [4; 0; 11; 1; 2] 2 (read_registers [11; 258])).
  - left; reflexivity.
  - repeat (apply Forall_cons; [unfold u8; lia |]); apply Forall_nil.
  - lia.
  - reflexivity.
Defined.

Lemma read_register_words_encoded (words pre post : list Z) (i : Z) :
  Forall u16 words -> 0 <= i -> len pre = 1 + 2 * i ->
  1 + 2 * (i + len words) < 65536 ->
  read_register_words (pre ++ flat_map hi_lo words ++ post) i (length words) = words.
Proof.
  revert pre i; induction words as [| w ws IH]; intros pre i Hw Hi Hpre Hr;
    cbn [length read_register_words]; [reflexivity |].
  inversion Hw as [| ? ? Hw1 Hws]; subst.
  rewrite len_cons in Hr; pose proof (len_nonneg ws) as H0.
  rewrite to_u16_small by (unfold u16; lia).
  cbn [flat_map]; unfold hi_lo at 1 2; cbn [app].
  rewrite !byte_at_app_r by lia.
  replace (1 + i * 2 - len pre) with 0 by lia.
  replace (1 + i * 2 + 1 - len pre) with 1 by lia.
  unfold byte_at at 1 2; cbn [Z.to_nat Pos.to_nat Pos.iter_op Nat.add nth].
  rewrite be16_bytes by assumption.
  f_equal.
  specialize (IH (pre ++ hi_lo w) (i + 1) Hws).
  unfold hi_lo at 1 in IH; rewrite <- app_assoc in IH; cbn [app] in IH.
  apply IH; [lia | | lia].
  rewrite len_app; change (len [_; _]) with 2; lia.
Qed.

Lemma len_flat_hi_lo (l : list Z) : len (flat_map hi_lo l) = 2 * len l.
Proof.
  induction l as [| x t IHt]; [reflexivity |].
  cbn [flat_map]; rewrite len_app, IHt, len_cons; change (len (hi_lo x)) with 2; lia.
Qed.

Lemma hi_lo_u8 (x : Z) : Forall u8 (hi_lo x).
Proof.
  unfold hi_lo; apply Forall_cons; [apply to_u8_range |].
  apply Forall_cons; [apply to_u8_range | apply Forall_nil].
Qed.

Lemma flat_hi_lo_u8 (l : list Z) : Forall u8 (flat_map hi_lo l).
Proof.
  induction l as [| x t IH]; cbn [flat_map]; [apply Forall_nil |].
  apply Forall_app; split; [apply hi_lo_u8 | assumption].
Qed.

Lemma read_registers_decoded (f : Z) (words extra : list Z) :
  f = MB_FC_READ_HOLDING_REGISTERS \/ f = MB_FC_READ_INPUT_REGISTERS ->
  Forall u16 words -> len words <= 127 ->
  mb_parse_read_response f
    ([2 * len words] ++ flat_map hi_lo words ++ extra) (len words)
  = Ok (read_registers words).
Proof.
  intros Hf Hw Hn; pose proof (len_nonneg words) as H0.
  unfold mb_parse_read_response.
  replace (negb (Z.land f 128 =? 0)) with false by (destruct Hf as [-> | ->]; reflexivity).
  replace ((f =? MB_FC_READ_COILS) || (f =? MB_FC_READ_DISCRETE_INPUTS)) with false
    by (destruct Hf as [-> | ->]; reflexivity).
  replace ((f =? MB_FC_READ_HOLDING_REGISTERS) || (f =? MB_FC_READ_INPUT_REGISTERS))
    with true by (destruct Hf as [-> | ->]; reflexivity).
  unfold parse_read_registers_response.
  assert (Hlen : len ([2 * len words] ++ flat_map hi_lo words ++ extra) =
                 1 + 2 * len words + len extra).
  { rewrite !len_app; change (len [_]) with 1.
    rewrite len_flat_hi_lo; lia. }
  rewrite Hlen; pose proof (len_nonneg extra) as He.
  destruct (1 + 2 * len words + len extra <? 1) eqn:E; [apply Z.ltb_lt in E; lia |].
  replace (byte_at ([2 * len words] ++ flat_map hi_lo words ++ extra) 0)
    with (2 * len words) by reflexivity.
  rewrite to_u16_small by (unfold u16; lia).
  replace (2 * len words =? len words * 2) with true by (symmetry; apply Z.eqb_eq; lia).
  destruct (1 + 2 * len words + len extra <? 1 + 2 * len words) eqn:E2;
    [apply Z.ltb_lt in E2; lia |].
  cbn [negb orb].
  rewrite to_nat_len, read_register_words_encoded; try assumption; try reflexivity; lia.
Qed.

(** ** Validated blocks *)

Lemma validated_data_size (f q : Z) :
  1 <= q <= mb_fc_get_max_quantity f -> data_size_formula f q <= 250.
Proof.
  intros Hq; destruct (in_table_dec f) as [Hin | Hout].
  - cbn [In] in Hin.
    repeat (destruct Hin as [<- | Hin];
            [unfold data_size_formula;
             cbn [mb_fc_get_unit_size Z.eqb Pos.eqb orb];
             change (mb_fc_get_max_quantity _) with 2000 in Hq ||
             change (mb_fc_get_max_quantity _) with 125 in Hq ||
             change (mb_fc_get_max_quantity _) with 1 in Hq ||
             change (mb_fc_get_max_quantity _) with 1968 in Hq ||
             change (mb_fc_get_max_quantity _) with 123 in Hq ||
             change (mb_fc_get_max_quantity _) with 121 in Hq;
             try (Z.to_euclidean_division_equations; lia); lia |]).
    contradiction.
  - unfold mb_fc_get_max_quantity in Hq; rewrite (policy_outside_table f Hout) in Hq; lia.
Qed.

Lemma validated_within_limits (max_pdu_chars : Z) (b : mb_block_t) :
  block_wf b -> 250 <= max_pdu_chars ->
  mb_block_validate b = Ok tt ->
  block_within_limits max_pdu_chars b /\
  1 <= blk_slave_id b <= 247 /\
  mb_fc_is_valid (blk_function_code b) = true /\
  1 <= blk_quantity b /\
  block_end b <= 65536.
Proof.
  intros (Hs & Hf & Ha & Hq) Hmax; unfold u8, u16 in *.
  unfold mb_block_validate.
  destruct ((blk_slave_id b =? 0) || (blk_slave_id b >? 247)) eqn:E1; [discriminate |].
  apply orb_false_elim in E1; destruct E1 as [E1 E1'].
  apply Z.eqb_neq in E1; rewrite Z.gtb_ltb in E1'; apply Z.ltb_ge in E1'.
  destruct (mb_fc_is_valid (blk_function_code b)) eqn:E2; [| discriminate].
  cbn [negb].
  destruct (blk_quantity b =? 0) eqn:E3; [discriminate |]; apply Z.eqb_neq in E3.
  destruct (blk_quantity b >? mb_fc_get_max_quantity (blk_function_code b)) eqn:E4;
    [discriminate |].
  rewrite Z.gtb_ltb in E4; apply Z.ltb_ge in E4.
  destruct (blk_start_address b + blk_quantity b >? 65536) eqn:E5; [discriminate |].
  rewrite Z.gtb_ltb in E5; apply Z.ltb_ge in E5.
  intros _.
  pose proof (validated_data_size (blk_function_code b) (blk_quantity b) ltac:(lia)).
  unfold block_within_limits, within_limits, block_end.
  repeat split; lia.
Qed.

(** Validated blocks always pack into requests that the protocol allows.
    For blocks whose fields fit their C types and that
    [mb_block_validate] accepts (slave id 1 to 247, a function code of the
    policy table, a quantity from 1 to the limit of the function code, no
    address beyond 65535), a byte limit of at least 250 and room for one PDU
    per block: [mb_ffd_pack] succeeds, makes at most one PDU per block, and
    every PDU respects the quantity limit of its function code and the byte
    limit. *)
Theorem validated_blocks_pack (blocks : list mb_block_t) (max_pdu_chars max_pdus : Z) :
  Forall block_wf blocks ->
  Forall (fun b => mb_block_validate b = Ok tt) blocks ->
  250 <= max_pdu_chars -> len blocks <= max_pdus ->
  exists pdus,
    mb_ffd_pack blocks max_pdu_chars max_pdus = Ok pdus /\
    len pdus <= len blocks /\
    Forall (pdu_within_limits max_pdu_chars) pdus.
Proof.
  intros Hwf Hval Hmax Hroom.
  pose proof (ffd_pack_count blocks max_pdu_chars max_pdus) as Hc.
  destruct (mb_ffd_pack blocks max_pdu_chars max_pdus) as [pdus | e] eqn:Hrun;
    [| lia].
  exists pdus; split; [reflexivity |]; split; [tauto |].
  assert (Hlim : Forall (block_within_limits max_pdu_chars) blocks).
  { rewrite Forall_forall in *; intros b Hb.
    apply (validated_within_limits max_pdu_chars b (Hwf b Hb) Hmax (Hval b Hb)). }
  unfold mb_ffd_pack in Hrun.
  destruct (len blocks =? 0).
  - injection Hrun as <-; apply Forall_nil.
  - apply (ffd_place_within_limits max_pdu_chars max_pdus
             (mb_block_sort_by_quantity_desc blocks) []);
      [apply sort_blocks_Forall; assumption | apply Forall_nil | assumption].
Qed.

Lemma validated_blocks_pack_witness :
  exists pdus,
    mb_ffd_pack [mk_block 1 3 0 125 false; mk_block 1 3 200 60 false;
                 mk_block 1 3 300 60 false] 253 3 = Ok pdus /\
    len pdus <= len [mk_block 1 3 0 125 false; mk_block 1 3 200 60 false;
                     mk_block 1 3 300 60 false] /\
    Forall (pdu_within_limits 253) pdus.
Proof.
  apply (validated_blocks_pack
           [mk_block 1 3 0 125 false; mk_block 1 3 200 60 false;
            mk_block 1 3 300 60 false] 253 3).
  - repeat (apply Forall_cons; [wf_solve |]); apply Forall_nil.
  - repeat (apply Forall_cons; [reflexivity |]); apply Forall_nil.
  - lia.
  - vm_compute; discriminate.
Defined.

(** ** Master: single requests *)

Lemma answer_frame_parses (m : mb_mode_t) (tid slave_id f : Z) (pdu : list Z) :
  u16 tid -> u8 slave_id -> u8 f -> Forall u8 pdu -> len pdu <= 253 ->
  mb_calc_frame_length (len pdu) m <= 260 ->
  mb_parse_frame (answer_frame m tid slave_id f pdu) m = Ok (mk_frame slave_id f pdu) /\
  len (answer_frame m tid slave_id f pdu) = mb_calc_frame_length (len pdu) m.
Proof.
  intros Ht Hs Hf Hp Hn Hfit; pose proof (len_nonneg pdu) as H0.
  destruct m; unfold answer_frame, mb_build_frame, mb_parse_frame, mb_calc_frame_length in *.
  - unfold mb_rtu_calc_frame_length in *.
    rewrite to_u16_small in * by (unfold u16; lia).
    destruct (rtu_roundtrip slave_id f pdu 260 Hs Hf Hp Hn) as (fr & -> & Hl & Hparse);
      [lia |].
    split; [assumption | lia].
  - unfold mb_ascii_calc_frame_length in *.
    rewrite to_u16_small in * by (unfold u16; lia).
    destruct (ascii_roundtrip slave_id f pdu 260 Hs Hf Hp Hn) as (fr & -> & Hl & Hparse);
      [lia |].
    split; [assumption | lia].
  - unfold mb_tcp_calc_frame_length in *.
    rewrite to_u16_small in * by (unfold u16; lia).
    destruct (tcp_roundtrip tid slave_id f pdu 260 Ht Hs Hf Hp Hn)
      as (fr & -> & Hl & Hparse); [lia |].
    rewrite Hparse; split; [reflexivity | lia].
Qed.

Lemma exchange_scripted {A : Type} (master : mb_master_t (list (list Z)))
  (slave_id f : Z) (pdu : list Z) (parse : Z -> list Z -> result A)
  (answer : list Z) (later : list (list Z)) (rf : Z) (rpdu : list Z) :
  transport (config master) = scripted_transport ->
  len pdu <= 32763 ->
  mb_calc_frame_length (len pdu) (mode (config master)) <= 260 ->
  mb_parse_frame answer (mode (config master)) = Ok (mk_frame slave_id rf rpdu) ->
  0 < len answer < 65536 ->
  exchange master slave_id f pdu parse (answer :: later) =
    match parse rf rpdu with
    | Ok d =>
        mk_single (Ok d)
          (mk_master (config master) (transaction_id master)
             (answered_stats (stats master)
                (mb_calc_frame_length (len pdu) (mode (config master))) (len answer)))
          later
    | Err e =>
        mk_single (Err e)
          (mk_master (config master) (transaction_id master)
             (bump_total_requests (stats master)))
          later
    end.
Proof.
  intros Htr Hn Hfit Hparse Hlen.
  unfold exchange.
  pose proof (build_frame_len slave_id f pdu (mode (config master)) 260 Hn
                ltac:(intros; right; lia)) as Hb.
  destruct (mb_build_frame slave_id f pdu (mode (config master)) 260)
    as [frame | e]; [| lia].
  destruct Hb as [Hfl _].
  rewrite Htr; cbn [scripted_transport send recv].
  pose proof (len_nonneg frame) as Hf0.
  destruct (len frame <? 0) eqn:E; [apply Z.ltb_lt in E; lia |].
  cbn [Z.ltb Z.compare orb].
  destruct (len answer =? 0) eqn:E0; [apply Z.eqb_eq in E0; lia |].
  rewrite to_u16_small by (unfold u16; lia).
  rewrite to_nat_len, firstn_all, Hparse.
  cbn [frame_slave_id frame_fc frame_pdu]; rewrite Z.eqb_refl; cbn [negb].
  rewrite Hfl; reflexivity.
Qed.

Lemma request_fits (m : mb_mode_t) : mb_calc_frame_length 4 m <= 260.
Proof. destruct m; vm_compute; discriminate. Qed.

(** A register read, end to end.  The master talks over a transport that
    accepts the request and delivers the frame of a slave that reports the
    requested registers: function code 3 or 4, at most 125 words of 16
    bits, framed for the configured mode (RTU, ASCII or TCP; in TCP under
    any transaction id) and short enough for the 260-byte receive buffer.
    Then [mb_master_read_single] succeeds, what it stores through
    [data_buffer] is exactly these words, the request counter has been
    incremented twice and the two character counters have grown by the
    lengths of the two frames. *)
Theorem read_single_registers (master : mb_master_t (list (list Z)))
  (tid slave_id f start_addr : Z) (words : list Z) (later : list (list Z)) :
  transport (config master) = scripted_transport ->
  u16 tid -> u8 slave_id ->
  f = MB_FC_READ_HOLDING_REGISTERS \/ f = MB_FC_READ_INPUT_REGISTERS ->
  Forall u16 words -> len words <= 125 ->
  mb_calc_frame_length (1 + 2 * len words) (mode (config master)) <= 260 ->
  let answer :=
    answer_frame (mode (config master)) tid slave_id f
      ([2 * len words] ++ flat_map hi_lo words) in
  mb_master_read_single master slave_id f start_addr (len words) (answer :: later) =
    mk_single (Ok (read_registers words))
      (mk_master (config master) (transaction_id master)
         (answered_stats (stats master)
            (mb_calc_frame_length 4 (mode (config master)))
            (mb_calc_frame_length (1 + 2 * len words) (mode (config master)))))
      later.
Proof.
  intros Htr Ht Hs Hf Hw Hn Hfit answer.
  pose proof (len_nonneg words) as H0.
  subst answer.
  set (rpdu := [2 * len words] ++ flat_map hi_lo words).
  set (answer := answer_frame (mode (config master)) tid slave_id f rpdu).
  assert (Hrl : len rpdu = 1 + 2 * len words).
  { unfold rpdu; rewrite len_app, len_flat_hi_lo; change (len [_]) with 1; lia. }
  assert (Hru : Forall u8 rpdu).
  { unfold rpdu; apply Forall_app; split; [| apply flat_hi_lo_u8].
    apply Forall_cons; [unfold u8; lia | apply Forall_nil]. }
  assert (Hfu : u8 f)
    by (destruct Hf as [-> | ->];
        unfold u8, MB_FC_READ_HOLDING_REGISTERS, MB_FC_READ_INPUT_REGISTERS; lia).
  destruct (answer_frame_parses (mode (config master)) tid slave_id f rpdu)
    as [Hparse Hal]; try assumption; try (rewrite Hrl; lia).
  fold answer in Hparse, Hal.
  unfold mb_master_read_single.
  replace (negb (f =? MB_FC_READ_COILS) && negb (f =? MB_FC_READ_DISCRETE_INPUTS) &&
           negb (f =? MB_FC_READ_HOLDING_REGISTERS) &&
           negb (f =? MB_FC_READ_INPUT_REGISTERS)) with false
    by (destruct Hf as [-> | ->]; reflexivity).
  assert (Hal' : 0 < len answer < 65536).
  { rewrite Hal, Hrl.
    destruct (mode (config master));
      unfold mb_calc_frame_length, mb_rtu_calc_frame_length,
        mb_ascii_calc_frame_length, mb_tcp_calc_frame_length;
      rewrite to_u16_small by (unfold u16; lia); lia. }
  rewrite (exchange_scripted master slave_id f (hi_lo start_addr ++ hi_lo (len words))
             (fun resp_fc pdu_response =>
                mb_parse_read_response resp_fc pdu_response (len words))
             answer later f rpdu Htr);
    try assumption.
  - unfold rpdu.
    pose proof (read_registers_decoded f words [] Hf Hw ltac:(lia)) as Hd.
    rewrite app_nil_r in Hd; rewrite Hd.
    change (len (hi_lo start_addr ++ hi_lo (len words))) with 4.
    rewrite Hal, Hrl; reflexivity.
  - change (len (hi_lo start_addr ++ hi_lo (len words))) with 4; lia.
  - change (len (hi_lo start_addr ++ hi_lo (len words))) with 4; apply request_fits.
Qed.

Lemma read_single_registers_witness :
  let master :=
    mk_master (mk_config MB_MODE_ASCII 253 4 2 scripted_transport 1000) 0
      (mk_stats 0 0 0 0 0 0) in
  let answer := answer_frame MB_MODE_ASCII 0 17 3 ([2 * len [11; 258]] ++
                  flat_map hi_lo [11; 258]) in
  mb_master_read_single master 17 3 100 (len [11; 258]) (answer :: []) =
    mk_single (Ok (read_registers [11; 258]))
      (mk_master (config master) (transaction_id master)
         (answered_stats (stats master)
            (mb_calc_frame_length 4 (mode (config master)))
            (mb_calc_frame_length (1 + 2 * len [11; 258]) (mode (config master)))))
      [].
Proof.
  intros master.
  apply (read_single_registers master 0 17 3 100 [11; 258] []).
  - reflexivity.
  - unfold u16; lia.
  - unfold u8; lia.
  - left; reflexivity.
  - repeat (apply Forall_cons; [unfold u16; lia |]); apply Forall_nil.
  - vm_compute; discriminate.
  - vm_compute; discriminate.
Defined.

Lemma write_register_echo (addr value : Z) :
  u16 addr -> u16 value ->
  mb_parse_write_response MB_FC_WRITE_SINGLE_REGISTER (hi_lo addr ++ hi_lo value)
    addr 1 (expected_register value) = Ok tt.
Proof.
  intros Ha Hv.
  change (mb_parse_write_response MB_FC_WRITE_SINGLE_REGISTER (hi_lo addr ++ hi_lo value)
            addr 1 (expected_register value))
    with (parse_write_single_register_response (hi_lo addr ++ hi_lo value) addr value).
  unfold parse_write_single_register_response.
  change (len (hi_lo addr ++ hi_lo value) <? 4) with false; cbv iota.
  change (byte_at (hi_lo addr ++ hi_lo value) 0) with (to_u8 (Z.land (Z.shiftr addr 8) 255)).
  change (byte_at (hi_lo addr ++ hi_lo value) 1) with (to_u8 (Z.land addr 255)).
  change (byte_at (hi_lo addr ++ hi_lo value) 2) with (to_u8 (Z.land (Z.shiftr value 8) 255)).
  change (byte_at (hi_lo addr ++ hi_lo value) 3) with (to_u8 (Z.land value 255)).
  rewrite !be16_bytes, !Z.eqb_refl by assumption; reflexivity.
Qed.

Lemma write_coil_echo (addr : Z) (coil : bool) :
  u16 addr ->
  mb_parse_write_response MB_FC_WRITE_SINGLE_COIL
    (hi_lo addr ++ [if coil then 255 else 0; 0]) addr 1 (expected_coil coil) = Ok tt.
Proof.
  intros Ha.
  change (mb_parse_write_response MB_FC_WRITE_SINGLE_COIL
            (hi_lo addr ++ [if coil then 255 else 0; 0]) addr 1 (expected_coil coil))
    with (parse_write_single_coil_response
            (hi_lo addr ++ [if coil then 255 else 0; 0]) addr coil).
  unfold parse_write_single_coil_response.
  change (len (hi_lo addr ++ [if coil then 255 else 0; 0]) <? 4) with false; cbv iota.
  change (byte_at (hi_lo addr ++ [if coil then 255 else 0; 0]) 0)
    with (to_u8 (Z.land (Z.shiftr addr 8) 255)).
  change (byte_at (hi_lo addr ++ [if coil then 255 else 0; 0]) 1)
    with (to_u8 (Z.land addr 255)).
  change (byte_at (hi_lo addr ++ [if coil then 255 else 0; 0]) 2)
    with (if coil then 255 else 0).
  change (byte_at (hi_lo addr ++ [if coil then 255 else 0; 0]) 3) with 0.
  rewrite be16_bytes, Z.eqb_refl by assumption.
  destruct coil; reflexivity.
Qed.

(** The echo of a single write is accepted.  Over a transport that accepts
    the request and delivers the frame of a slave that echoes it (function
    code 6 with the address and the value, function code 5 with the address
    and 0xFF00 or 0x0000), in every mode and in TCP under any transaction
    id: [mb_master_write_single_register] and [mb_master_write_single_coil]
    succeed, with the request counter incremented twice and both character
    counters advanced by the length of the frame. *)
Theorem write_single_echo_accepted (master : mb_master_t (list (list Z)))
  (tid slave_id addr value : Z) (coil : bool) (later : list (list Z)) :
  transport (config master) = scripted_transport ->
  u16 tid -> u8 slave_id -> u16 addr -> u16 value ->
  let m := mode (config master) in
  let done :=
    mk_single (Ok tt)
      (mk_master (config master) (transaction_id master)
         (answered_stats (stats master) (mb_calc_frame_length 4 m)
            (mb_calc_frame_length 4 m)))
      later in
  mb_master_write_single_register master slave_id addr value
    (answer_frame m tid slave_id MB_FC_WRITE_SINGLE_REGISTER
       (hi_lo addr ++ hi_lo value) :: later) = done /\
  mb_master_write_single_coil master slave_id addr coil
    (answer_frame m tid slave_id MB_FC_WRITE_SINGLE_COIL
       (hi_lo addr ++ [if coil then 255 else 0; 0]) :: later) = done.
Proof.
  intros Htr Ht Hs Ha Hv m done.
  assert (Hpos : 0 < mb_calc_frame_length 4 m) by (destruct m; vm_compute; reflexivity).
  pose proof (request_fits m) as Hfit.
  split.
  - assert (Hru : Forall u8 (hi_lo addr ++ hi_lo value))
      by (apply Forall_app; split; apply hi_lo_u8).
    destruct (answer_frame_parses m tid slave_id MB_FC_WRITE_SINGLE_REGISTER
                (hi_lo addr ++ hi_lo value))
      as [Hparse Hal]; try assumption;
      try (unfold u8, MB_FC_WRITE_SINGLE_REGISTER; lia);
      try (change (len (hi_lo addr ++ hi_lo value)) with 4; lia).
    change (len (hi_lo addr ++ hi_lo value)) with 4 in Hal.
    unfold mb_master_write_single_register.
    rewrite (exchange_scripted master slave_id MB_FC_WRITE_SINGLE_REGISTER
               (hi_lo addr ++ hi_lo value) _ _ later MB_FC_WRITE_SINGLE_REGISTER
               (hi_lo addr ++ hi_lo value) Htr);
      try assumption;
      try (change (len (hi_lo addr ++ hi_lo value)) with 4; fold m; lia);
      try (fold m; rewrite Hal; lia).
    rewrite write_register_echo by assumption.
    change (len (hi_lo addr ++ hi_lo value)) with 4.
    fold m; rewrite Hal; reflexivity.
  - assert (Hru : Forall u8 (hi_lo addr ++ [if coil then 255 else 0; 0])).
    { apply Forall_app; split; [apply hi_lo_u8 |].
      apply Forall_cons; [destruct coil; unfold u8; lia |].
      apply Forall_cons; [unfold u8; lia | apply Forall_nil]. }
    destruct (answer_frame_parses m tid slave_id MB_FC_WRITE_SINGLE_COIL
                (hi_lo addr ++ [if coil then 255 else 0; 0]))
      as [Hparse Hal]; try assumption;
      try (unfold u8, MB_FC_WRITE_SINGLE_COIL; lia);
      try (change (len (hi_lo addr ++ [if coil then 255 else 0; 0])) with 4; lia).
    change (len (hi_lo addr ++ [if coil then 255 else 0; 0])) with 4 in Hal.
    unfold mb_master_write_single_coil.
    rewrite (exchange_scripted master slave_id MB_FC_WRITE_SINGLE_COIL
               (hi_lo addr ++ [if coil then 255 else 0; 0]) _ _ later
               MB_FC_WRITE_SINGLE_COIL (hi_lo addr ++ [if coil then 255 else 0; 0]) Htr);
      try assumption;
      try (change (len (hi_lo addr ++ [if coil then 255 else 0; 0])) with 4; fold m; lia);
      try (fold m; rewrite Hal; lia).
    rewrite write_coil_echo by assumption.
    change (len (hi_lo addr ++ [if coil then 255 else 0; 0])) with 4.
    fold m; rewrite Hal; reflexivity.
Qed.

Lemma write_single_echo_accepted_witness :
  let master :=
    mk_master (mk_config MB_MODE_TCP 253 0 1 scripted_transport 1000) 0
      (mk_stats 0 0 0 0 0 0) in
  let done :=
    mk_single (Ok tt)
      (mk_master (config master) (transaction_id master)
         (answered_stats (stats master) (mb_calc_frame_length 4 MB_MODE_TCP)
            (mb_calc_frame_length 4 MB_MODE_TCP)))
      [] in
  mb_master_write_single_register master 17 172 4660
    (answer_frame MB_MODE_TCP 7 17 MB_FC_WRITE_SINGLE_REGISTER
       (hi_lo 172 ++ hi_lo 4660) :: []) = done /\
  mb_master_write_single_coil master 17 172 true
    (answer_frame MB_MODE_TCP 7 17 MB_FC_WRITE_SINGLE_COIL
       (hi_lo 172 ++ [if true then 255 else 0; 0]) :: []) = done.
Proof.
  intros master.
  apply (write_single_echo_accepted master 7 17 172 4660 true []);
    [reflexivity | unfold u16; lia | unfold u8; lia | unfold u16; lia | unfold u16; lia].
Defined.

(** An exception response ends a request with
    [MB_ERROR_EXCEPTION_RESPONSE].  Over a transport that accepts the
    request and delivers a well-formed frame of the addressed slave whose
    function code has bit 7 set and whose PDU is the one-byte exception
    code, in every mode: [mb_master_read_single] (for the function codes 1
    to 4), [mb_master_write_single_register] and
    [mb_master_write_single_coil] return [MB_ERROR_EXCEPTION_RESPONSE],
    count the request once and leave the character counters alone.  The
    outcome is the same for every exception code and for every function
    code with bit 7 set, that of another request included: neither is
    looked at.  The code itself is what [mb_get_exception_code] reads from
    the PDU of the parsed answer. *)
Theorem single_request_exception (master : mb_master_t (list (list Z)))
  (tid slave_id f start_addr quantity rf code value : Z) (coil : bool)
  (later : list (list Z)) :
  transport (config master) = scripted_transport ->
  u16 tid -> u8 slave_id -> u8 rf -> Z.land rf 128 <> 0 -> u8 code ->
  1 <= f <= 4 ->
  let answer := answer_frame (mode (config master)) tid slave_id rf [code] in
  let counted :=
    mk_master (config master) (transaction_id master)
      (bump_total_requests (stats master)) in
  mb_master_read_single master slave_id f start_addr quantity (answer :: later) =
    mk_single (Err MB_ERROR_EXCEPTION_RESPONSE) counted later /\
  mb_master_write_single_register master slave_id start_addr value (answer :: later) =
    mk_single (Err MB_ERROR_EXCEPTION_RESPONSE) counted later /\
  mb_master_write_single_coil master slave_id start_addr coil (answer :: later) =
    mk_single (Err MB_ERROR_EXCEPTION_RESPONSE) counted later /\
  exists resp,
    mb_parse_frame answer (mode (config master)) = Ok resp /\
    mb_get_exception_code (frame_pdu resp) = code.
Proof.
  intros Htr Ht Hs Hrf Hbit Hc Hf answer counted.
  set (m := mode (config master)) in *.
  assert (Hpos : 0 < mb_calc_frame_length 1 m <= 260)
    by (destruct m; (split; [reflexivity | vm_compute; discriminate])).
  pose proof (request_fits m) as Hfit.
  destruct (answer_frame_parses m tid slave_id rf [code]) as [Hparse Hal];
    try assumption;
    try (apply Forall_cons; [assumption | apply Forall_nil]);
    try (change (len [code]) with 1; lia).
  change (len [code]) with 1 in Hal; fold answer in Hparse, Hal.
  assert (Hex : negb (Z.land rf 128 =? 0) = true)
    by (apply negb_true_iff, Z.eqb_neq; assumption).
  split; [| split; [| split]].
  4: { eexists; split; [exact Hparse | reflexivity]. }
  - unfold mb_master_read_single.
    replace (negb (f =? MB_FC_READ_COILS) && negb (f =? MB_FC_READ_DISCRETE_INPUTS) &&
             negb (f =? MB_FC_READ_HOLDING_REGISTERS) &&
             negb (f =? MB_FC_READ_INPUT_REGISTERS)) with false.
    2: { assert (f = 1 \/ f = 2 \/ f = 3 \/ f = 4) as [-> | [-> | [-> | ->]]] by lia;
           reflexivity. }
    rewrite (exchange_scripted master slave_id f _ _ answer later rf [code] Htr);
      try assumption;
      try (change (len (hi_lo start_addr ++ hi_lo quantity)) with 4; fold m; lia);
      try (rewrite Hal; lia).
    unfold mb_parse_read_response; rewrite Hex; reflexivity.
  - unfold mb_master_write_single_register.
    rewrite (exchange_scripted master slave_id _ _ _ answer later rf [code] Htr);
      try assumption;
      try (change (len (hi_lo start_addr ++ hi_lo value)) with 4; fold m; lia);
      try (rewrite Hal; lia).
    unfold mb_parse_write_response; rewrite Hex; reflexivity.
  - unfold mb_master_write_single_coil.
    rewrite (exchange_scripted master slave_id _ _ _ answer later rf [code] Htr);
      try assumption;
      try (change (len (hi_lo start_addr ++ [if coil then 255 else 0; 0])) with 4;
           fold m; lia);
      try (rewrite Hal; lia).
    unfold mb_parse_write_response; rewrite Hex; reflexivity.
Qed.

Lemma single_request_exception_witness :
  let master :=
    mk_master (mk_config MB_MODE_RTU 253 4 2 scripted_transport 1000) 0
      (mk_stats 0 0 0 0 0 0) in
  let answer := answer_frame MB_MODE_RTU 0 17 131 [2] in
  let counted :=
    mk_master (config master) (transaction_id master)
      (bump_total_requests (stats master)) in
  mb_master_read_single master 17 3 100 2 (answer :: []) =
    mk_single (Err MB_ERROR_EXCEPTION_RESPONSE) counted [] /\
  mb_master_write_single_register master 17 100 5 (answer :: []) =
    mk_single (Err MB_ERROR_EXCEPTION_RESPONSE) counted [] /\
  mb_master_write_single_coil master 17 100 true (answer :: []) =
    mk_single (Err MB_ERROR_EXCEPTION_RESPONSE) counted [] /\
  exists resp,
    mb_parse_frame answer (mode (config master)) = Ok resp /\
    mb_get_exception_code (frame_pdu resp) = 2.
Proof.
  intros master.
  apply (single_request_exception master 0 17 3 100 2 131 2 5 true []);
    try reflexivity; try (unfold u8, u16; lia).
  vm_compute; discriminate.
Defined.

Section SingleRequests.

Variable world : Type.

Lemma exchange_accounting {A : Type} (master : mb_master_t world) (slave_id f : Z)
  (pdu : list Z) (parse : Z -> list Z -> result A) (w : world) :
  single_accounting master (exchange master slave_id f pdu parse w).
Proof.
  unfold exchange, single_accounting.
  destruct (mb_build_frame slave_id f pdu (mode (config master)) 260)
    as [frame | e0]; [| cbn; repeat split; left; reflexivity].
  destruct (send (transport (config master))) as [send_fn |];
    [| cbn; repeat split; left; reflexivity].
  destruct (send_fn w frame) as [sent w1].
  destruct (sent <? 0); [cbn; repeat split; right; reflexivity |].
  destruct (recv (transport (config master))) as [recv_fn |];
    [| cbn; repeat split; left; reflexivity].
  destruct (recv_fn w1 260) as [[recv_result response] w2].
  destruct ((recv_result <? 0) || (len response =? 0));
    [cbn; repeat split; right; reflexivity |].
  destruct (mb_parse_frame _ _) as [resp | e];
    [| cbn; repeat split; right; reflexivity].
  destruct (negb (frame_slave_id resp =? slave_id));
    [cbn; repeat split; right; reflexivity |].
  destruct (parse (frame_fc resp) (frame_pdu resp));
    [cbn; repeat split | cbn; repeat split; right; reflexivity].
Qed.

(** The bookkeeping of the single requests, for every transport and every
    answer.  Each of [mb_master_read_single], [mb_master_write_single_coil],
    [mb_master_write_single_register] and
    [mb_master_write_multiple_registers] leaves the configuration, the
    transaction id (so every TCP request carries the same one) and the
    counters [optimized_requests], [rounds_saved] and [blocks_merged] as
    they were; a successful call increments [total_requests] twice; a failed
    call leaves the two character counters as they were and increments
    [total_requests] once or not at all. *)
Theorem single_requests_accounting (master : mb_master_t world)
  (slave_id f addr quantity value : Z) (coil : bool) (values : list Z) (w : world) :
  single_accounting master (mb_master_read_single master slave_id f addr quantity w) /\
  single_accounting master (mb_master_write_single_coil master slave_id addr coil w) /\
  single_accounting master (mb_master_write_single_register master slave_id addr value w) /\
  single_accounting master
    (mb_master_write_multiple_registers master slave_id addr quantity values w).
Proof.
  split; [| split; [| split]].
  - unfold mb_master_read_single.
    destruct (negb (f =? MB_FC_READ_COILS) && negb (f =? MB_FC_READ_DISCRETE_INPUTS) &&
              negb (f =? MB_FC_READ_HOLDING_REGISTERS) &&
              negb (f =? MB_FC_READ_INPUT_REGISTERS));
      [cbn; repeat split; left; reflexivity | apply exchange_accounting].
  - apply exchange_accounting.
  - apply exchange_accounting.
  - unfold mb_master_write_multiple_registers.
    destruct ((quantity =? 0) || (quantity >? 123));
      [cbn; repeat split; left; reflexivity | apply exchange_accounting].
Qed.

(** In ASCII mode a write of more than 60 registers cannot be sent.  The
    request PDU of [mb_master_write_multiple_registers] has [5 + 2 quantity]
    bytes, its ASCII frame [19 + 4 quantity] characters, and the frame
    buffer of the function has 260 bytes: for a quantity from 61 to the
    documented maximum of 123 the call returns [MB_ERROR_BUFFER_TOO_SMALL]
    without using the transport and without touching the statistics,
    whatever the register values. *)
Theorem write_multiple_ascii_limit (master : mb_master_t world)
  (slave_id start_addr quantity : Z) (values : list Z) (w : world) :
  mode (config master) = MB_MODE_ASCII ->
  60 < quantity <= 123 ->
  mb_master_write_multiple_registers master slave_id start_addr quantity values w =
    mk_single (Err MB_ERROR_BUFFER_TOO_SMALL) master w.
Proof.
  intros Hm Hq.
  unfold mb_master_write_multiple_registers.
  replace ((quantity =? 0) || (quantity >? 123)) with false.
  2: { symmetry; apply orb_false_intro; [apply Z.eqb_neq; lia |].
       rewrite Z.gtb_ltb; apply Z.ltb_ge; lia. }
  set (pdu := hi_lo start_addr ++ hi_lo quantity ++ [to_u8 (quantity * 2)] ++
              flat_map hi_lo (register_values values quantity)).
  assert (Hl : len pdu = 5 + 2 * quantity).
  { unfold pdu; rewrite !len_app, len_flat_hi_lo.
    change (len (hi_lo start_addr)) with 2; change (len (hi_lo quantity)) with 2.
    change (len [_]) with 1.
    unfold register_values; rewrite len_map.
    unfold len; rewrite length_seq; lia. }
  unfold exchange; rewrite Hm.
  pose proof (build_frame_len slave_id MB_FC_WRITE_MULTIPLE_REGISTERS pdu
                MB_MODE_ASCII 260 ltac:(lia) ltac:(intros; right; lia)) as Hb.
  destruct (mb_build_frame slave_id MB_FC_WRITE_MULTIPLE_REGISTERS pdu MB_MODE_ASCII 260)
    as [frame | e].
  - exfalso; destruct Hb as [Hb1 Hb2]; rewrite Hb1, Hl in Hb2.
    unfold mb_calc_frame_length, mb_ascii_calc_frame_length in Hb2.
    rewrite to_u16_small in Hb2 by (unfold u16; lia); lia.
  - destruct Hb as [-> _]; reflexivity.
Qed.

(** A master made from the default configuration has no transport.  For
    every mode, [mb_config_default] leaves both callbacks [NULL], so on the
    master that [mb_master_init] makes from it every single request (a read
    with one of the function codes 1 to 4, a write of a coil or of a
    register) returns [MB_ERROR_TRANSPORT] and changes neither the master
    nor the state behind the transport. *)
Theorem default_config_has_no_transport (m : mb_mode_t)
  (slave_id f addr quantity value : Z) (coil : bool) (w : world) :
  1 <= f <= 4 ->
  let master := mb_master_init (@mb_config_default world m) in
  mb_master_read_single master slave_id f addr quantity w =
    mk_single (Err MB_ERROR_TRANSPORT) master w /\
  mb_master_write_single_coil master slave_id addr coil w =
    mk_single (Err MB_ERROR_TRANSPORT) master w /\
  mb_master_write_single_register master slave_id addr value w =
    mk_single (Err MB_ERROR_TRANSPORT) master w.
Proof.
  intros Hf master.
  assert (Hex : forall (A : Type) g (pdu : list Z) (parse : Z -> list Z -> result A),
            len pdu = 4 ->
            exchange master slave_id g pdu parse w =
              mk_single (Err MB_ERROR_TRANSPORT) master w).
  { intros A g pdu parse Hl; unfold exchange.
    pose proof (build_frame_len slave_id g pdu (mode (config master)) 260 ltac:(lia)
                  ltac:(intros; right; lia)) as Hb.
    destruct (mb_build_frame slave_id g pdu (mode (config master)) 260) as [frame | e].
    - destruct m; reflexivity.
    - exfalso; destruct Hb as [_ Hb]; rewrite Hl in Hb.
      pose proof (request_fits (mode (config master))); lia. }
  split; [| split].
  - unfold mb_master_read_single.
    replace (negb (f =? MB_FC_READ_COILS) && negb (f =? MB_FC_READ_DISCRETE_INPUTS) &&
             negb (f =? MB_FC_READ_HOLDING_REGISTERS) &&
             negb (f =? MB_FC_READ_INPUT_REGISTERS)) with false.
    2: { assert (f = 1 \/ f = 2 \/ f = 3 \/ f = 4) as [-> | [-> | [-> | ->]]] by lia;
           reflexivity. }
    apply Hex; reflexivity.
  - apply Hex; reflexivity.
  - apply Hex; reflexivity.
Qed.

End SingleRequests.

Lemma write_multiple_ascii_limit_witness :
  let master :=
    mk_master (mk_config MB_MODE_ASCII 253 4 2 scripted_transport 1000) 0
      (mk_stats 0 0 0 0 0 0) in
  mb_master_write_multiple_registers master 17 0 61 (repeat 7 61) [] =
    mk_single (Err MB_ERROR_BUFFER_TOO_SMALL) master [].
Proof.
  intros master.
  apply (write_multiple_ascii_limit (list (list Z)) master 17 0 61 (repeat 7 61) []).
  - reflexivity.
  - lia.
Defined.

Lemma default_config_has_no_transport_witness :
  let master := mb_master_init (@mb_config_default unit MB_MODE_TCP) in
  mb_master_read_single master 17 3 100 2 tt =
    mk_single (Err MB_ERROR_TRANSPORT) master tt /\
  mb_master_write_single_coil master 17 100 true tt =
    mk_single (Err MB_ERROR_TRANSPORT) master tt /\
  mb_master_write_single_register master 17 100 5 tt =
    mk_single (Err MB_ERROR_TRANSPORT) master tt.
Proof.
  apply (default_config_has_no_transport unit MB_MODE_TCP 17 3 100 2 5 true tt); lia.
Defined.

(** ** Static memory pools *)

Lemma set_cell_length {A : Type} (l : list A) (i : nat) (v : A) :
  length (set_cell l i v) = length l.
Proof.
  revert i; induction l as [| x t IH]; intros i; [reflexivity |].
  destruct i; cbn [set_cell length]; [reflexivity | rewrite IH; reflexivity].
Qed.

Lemma len_set_cell {A : Type} (l : list A) (i : nat) (v : A) :
  len (set_cell l i v) = len l.
Proof. unfold len; rewrite set_cell_length; reflexivity. Qed.

Lemma set_cell_same {A : Type} (l : list A) (i : nat) (v d : A) :
  (i < length l)%nat -> nth i (set_cell l i v) d = v.
Proof.
  revert i; induction l as [| x t IH]; intros i Hi; cbn [length] in Hi; [lia |].
  destruct i; cbn [set_cell nth]; [reflexivity | apply IH; lia].
Qed.

Lemma set_cell_other {A : Type} (l : list A) (i j : nat) (v d : A) :
  i <> j -> nth j (set_cell l i v) d = nth j l d.
Proof.
  revert i j; induction l as [| x t IH]; intros i j Hij; [destruct i; reflexivity |].
  destruct i, j; cbn [set_cell nth]; try reflexivity; [congruence | apply IH; congruence].
Qed.

Lemma cells_in_use_cons (u : bool) (used : list bool) :
  cells_in_use (u :: used) = (if u then 1 else 0) + cells_in_use used.
Proof.
  unfold cells_in_use; cbn [filter]; destruct u; [rewrite len_cons |]; lia.
Qed.

Lemma cells_in_use_bound (used : list bool) : 0 <= cells_in_use used <= len used.
Proof.
  induction used as [| u t IH]; [unfold cells_in_use, len; cbn; lia |].
  rewrite cells_in_use_cons, len_cons; destruct u; lia.
Qed.

Lemma cells_in_use_set (used : list bool) (i : nat) (v : bool) :
  (i < length used)%nat ->
  cells_in_use (set_cell used i v) =
  cells_in_use used - (if nth i used false then 1 else 0) + (if v then 1 else 0).
Proof.
  revert i; induction used as [| u t IH]; intros i Hi; cbn [length] in Hi; [lia |].
  destruct i; cbn [set_cell nth]; rewrite !cells_in_use_cons.
  - destruct u, v; lia.
  - rewrite IH by lia; lia.
Qed.

Lemma first_free_spec (used : list bool) :
  forall i0,
    match first_free used i0 with
    | Some i =>
        (i0 <= i < i0 + length used)%nat /\
        nth (i - i0) used true = false /\
        forall j, (j < i - i0)%nat -> nth j used false = true
    | None => cells_in_use used = len used
    end.
Proof.
  induction used as [| u t IH]; intros i0; cbn [first_free]; [reflexivity |].
  destruct u; cbn [negb].
  - specialize (IH (S i0)).
    destruct (first_free t (S i0)) as [i |].
    + destruct IH as (Hr & Hfree & Hbefore); cbn [length].
      split; [lia |].
      replace (i - i0)%nat with (S (i - S i0)) by lia; cbn [nth].
      split; [assumption |].
      intros [| j] Hj; [reflexivity | apply Hbefore; lia].
    + rewrite cells_in_use_cons, len_cons, IH; reflexivity.
  - cbn [length]; rewrite Nat.sub_diag; cbn [nth].
    split; [lia | split; [reflexivity | intros j Hj; lia]].
Qed.

Lemma pool_alloc_cases {A : Type} (zero : A) (pool : mb_pool_t A) :
  pool_consistent pool ->
  match mb_pool_alloc zero pool with
  | (Some i, pool') =>
      (i < length (pool_used pool))%nat /\
      nth i (pool_used pool) false = false /\
      pool_used pool' = set_cell (pool_used pool) i true /\
      pool_count pool' = to_u16 (pool_count pool + 1)
  | (None, pool') => pool' = pool
  end.
Proof.
  intros _; unfold mb_pool_alloc.
  pose proof (first_free_spec (pool_used pool) 0) as Hff.
  destruct (first_free (pool_used pool) 0) as [i |]; [| reflexivity].
  destruct Hff as (Hr & Hfree & _).
  rewrite Nat.sub_0_r in *; cbn [Nat.add] in Hr.
  cbn [pool_used pool_count].
  split; [lia |]; split; [| split; reflexivity].
  rewrite (nth_indep _ false true) by lia; assumption.
Qed.

(** The allocator hands out the first free cell and keeps the count right.
    On a pool whose counter agrees with its marks, [mb_block_pool_alloc]
    (and its two copies for PDUs and plans) either returns the cell with
    the lowest index that is not in use, marks it, clears it, leaves every
    other cell and mark as it was and has one cell less available, the pool
    staying consistent; or, exactly when no cell is available, returns
    [NULL] and changes nothing. *)
Theorem pool_alloc_first_free {A : Type} (zero : A) (pool : mb_pool_t A) :
  pool_consistent pool ->
  match mb_pool_alloc zero pool with
  | (Some i, pool') =>
      (i < length (pool_used pool))%nat /\
      nth i (pool_used pool) true = false /\
      (forall j, (j < i)%nat -> nth j (pool_used pool) false = true) /\
      nth i (pool_used pool') false = true /\
      nth i (pool_cells pool') zero = zero /\
      (forall j d, j <> i ->
         nth j (pool_used pool') d = nth j (pool_used pool) d /\
         forall c, nth j (pool_cells pool') c = nth j (pool_cells pool) c) /\
      pool_consistent pool' /\
      mb_pool_available pool' = mb_pool_available pool - 1
  | (None, pool') =>
      pool' = pool /\ mb_pool_available pool = 0
  end.
Proof.
  intros (Hlen & Hcount & Hmax).
  pose proof (cells_in_use_bound (pool_used pool)) as Hb.
  unfold mb_pool_alloc.
  pose proof (first_free_spec (pool_used pool) 0) as Hff.
  destruct (first_free (pool_used pool) 0) as [i |].
  - destruct Hff as (Hr & Hfree & Hbefore).
    rewrite Nat.sub_0_r in *; cbn [Nat.add] in Hr.
    assert (Hfree' : nth i (pool_used pool) false = false).
    { rewrite (nth_indep _ false true) by lia; assumption. }
    cbn [pool_used pool_cells pool_count].
    split; [lia |]; split; [assumption |]; split; [assumption |].
    split; [apply set_cell_same; lia |].
    split; [apply set_cell_same; lia |].
    split; [intros j d Hj; split; [| intros c]; apply set_cell_other; congruence |].
    assert (Hin : cells_in_use (set_cell (pool_used pool) i true) =
                  cells_in_use (pool_used pool) + 1)
      by (rewrite cells_in_use_set, Hfree' by lia; lia).
    assert (Hlt : cells_in_use (pool_used pool) < len (pool_used pool)).
    { pose proof (cells_in_use_bound (set_cell (pool_used pool) i true)) as Hb'.
      rewrite len_set_cell in Hb'; lia. }
    split.
    + unfold pool_consistent; cbn [pool_used pool_cells pool_count].
      rewrite !set_cell_length, len_set_cell, Hin, Hcount.
      rewrite to_u16_small by (unfold u16; lia).
      repeat split; [assumption | assumption].
    + unfold mb_pool_available; cbn [pool_used pool_count].
      rewrite len_set_cell, Hcount.
      rewrite (to_u16_small (cells_in_use (pool_used pool) + 1)) by (unfold u16; lia).
      rewrite !to_u16_small by (unfold u16; lia); lia.
  - split; [reflexivity |].
    unfold mb_pool_available; rewrite Hcount, Hff, Z.sub_diag; reflexivity.
Qed.

Lemma pool_alloc_first_free_witness :
  match mb_block_pool_alloc
          (mk_pool [mk_block 1 3 0 1 false; mk_block 1 3 9 9 false; mk_block 0 0 0 0 false]
             [true; false; false] 1) with
  | (Some i, pool') =>
      (i < 3)%nat /\
      nth i [true; false; false] true = false /\
      (forall j, (j < i)%nat -> nth j [true; false; false] false = true) /\
      nth i (pool_used pool') false = true /\
      nth i (pool_cells pool') (mk_block 0 0 0 0 false) = mk_block 0 0 0 0 false /\
      (forall j d, j <> i ->
         nth j (pool_used pool') d = nth j [true; false; false] d /\
         forall c, nth j (pool_cells pool') c =
                   nth j [mk_block 1 3 0 1 false; mk_block 1 3 9 9 false;
                          mk_block 0 0 0 0 false] c) /\
      pool_consistent pool' /\
      mb_pool_available pool' =
        mb_pool_available
          (mk_pool [mk_block 1 3 0 1 false; mk_block 1 3 9 9 false;
                    mk_block 0 0 0 0 false] [true; false; false] 1) - 1
  | (None, pool') =>
      pool' = mk_pool [mk_block 1 3 0 1 false; mk_block 1 3 9 9 false;
                       mk_block 0 0 0 0 false] [true; false; false] 1 /\
      mb_pool_available
        (mk_pool [mk_block 1 3 0 1 false; mk_block 1 3 9 9 false;
                  mk_block 0 0 0 0 false] [true; false; false] 1) = 0
  end.
Proof.
  apply (pool_alloc_first_free (mk_block 0 0 0 0 false)
           (mk_pool [mk_block 1 3 0 1 false; mk_block 1 3 9 9 false;
                     mk_block 0 0 0 0 false] [true; false; false] 1)).
  unfold pool_consistent; cbn; repeat split; lia.
Defined.

Lemma set_cell_twice {A : Type} (l : list A) (i : nat) (v v' : A) :
  set_cell (set_cell l i v) i v' = set_cell l i v'.
Proof.
  revert i; induction l as [| x t IH]; intros i; [destruct i; reflexivity |].
  destruct i; cbn [set_cell]; [reflexivity | rewrite IH; reflexivity].
Qed.

Lemma set_cell_id {A : Type} (l : list A) (i : nat) (d : A) :
  set_cell l i (nth i l d) = l.
Proof.
  revert i; induction l as [| x t IH]; intros i; [destruct i; reflexivity |].
  destruct i; cbn [set_cell nth]; [reflexivity | rewrite IH; reflexivity].
Qed.

(** Releasing a cell, and releasing it twice.  On a pool whose counter
    agrees with its marks, [mb_block_pool_free] (and its two copies) with a
    pointer to a cell that is in use clears the mark of that cell, leaves
    the cells and the other marks as they were, makes one more cell
    available and keeps the pool consistent.  With a pointer to a cell that
    is not in use (a second release), the function still decrements a
    counter that is above zero: the pool then reports one available cell
    too many and its counter no longer agrees with its marks. *)
Theorem pool_free_releases {A : Type} (pool : mb_pool_t A) (i : nat) :
  pool_consistent pool ->
  (i < length (pool_used pool))%nat ->
  let pool' := mb_pool_free pool (Some i) in
  pool_cells pool' = pool_cells pool /\
  nth i (pool_used pool') true = false /\
  (forall j d, j <> i -> nth j (pool_used pool') d = nth j (pool_used pool) d) /\
  if nth i (pool_used pool) false
  then pool_consistent pool' /\
       mb_pool_available pool' = mb_pool_available pool + 1
  else 0 < pool_count pool ->
       ~ pool_consistent pool' /\
       mb_pool_available pool' = mb_pool_available pool + 1.
Proof.
  intros (Hlen & Hcount & Hmax) Hi pool'.
  pose proof (cells_in_use_bound (pool_used pool)) as Hb.
  unfold pool', mb_pool_free.
  replace (i <? length (pool_used pool))%nat with true
    by (symmetry; apply Nat.ltb_lt; assumption).
  cbn [pool_cells pool_used pool_count].
  split; [reflexivity |].
  split; [apply set_cell_same; assumption |].
  split; [intros j d Hj; apply set_cell_other; congruence |].
  pose proof (cells_in_use_set (pool_used pool) i false Hi) as Hset.
  destruct (nth i (pool_used pool) false) eqn:Hu.
  - assert (Hpos : 0 < cells_in_use (pool_used pool)).
    { pose proof (cells_in_use_bound (set_cell (pool_used pool) i false)); lia. }
    replace (pool_count pool >? 0) with true
      by (symmetry; apply Z.gtb_lt; lia).
    split.
    + unfold pool_consistent; cbn [pool_cells pool_used pool_count].
      rewrite set_cell_length, len_set_cell, Hset, Hcount.
      rewrite to_u16_small by (unfold u16; lia).
      repeat split; [assumption | lia | assumption].
    + unfold mb_pool_available; cbn [pool_used pool_count].
      rewrite len_set_cell, Hcount.
      rewrite (to_u16_small (cells_in_use (pool_used pool) - 1)) by (unfold u16; lia).
      rewrite !to_u16_small by (unfold u16; lia); lia.
  - intros Hpos.
    replace (pool_count pool >? 0) with true
      by (symmetry; apply Z.gtb_lt; lia).
    split.
    + unfold pool_consistent; cbn [pool_cells pool_used pool_count].
      rewrite Hset, Hcount.
      rewrite to_u16_small by (unfold u16; lia).
      intros (_ & Hbad & _); lia.
    + unfold mb_pool_available; cbn [pool_used pool_count].
      rewrite len_set_cell, Hcount.
      rewrite (to_u16_small (cells_in_use (pool_used pool) - 1)) by (unfold u16; lia).
      rewrite !to_u16_small by (unfold u16; lia); lia.
Qed.

Lemma pool_free_releases_witness :
  let pool := mk_pool [mk_pdu 1 3 0 1 2; mk_pdu 0 0 0 0 0] [true; false] 1 in
  let pool' := mb_pdu_pool_free pool (Some 1%nat) in
  pool_cells pool' = pool_cells pool /\
  nth 1 (pool_used pool') true = false /\
  (forall j d, j <> 1%nat -> nth j (pool_used pool') d = nth j (pool_used pool) d) /\
  if nth 1 (pool_used pool) false
  then pool_consistent pool' /\
       mb_pool_available pool' = mb_pool_available pool + 1
  else 0 < pool_count pool ->
       ~ pool_consistent pool' /\
       mb_pool_available pool' = mb_pool_available pool + 1.
Proof.
  intros pool.
  apply (pool_free_releases pool 1%nat).
  - unfold pool_consistent; cbn; repeat split; lia.
  - cbn; lia.
Defined.

(** A pool from initialisation to reuse.  [mb_block_pool_init] (and its two
    copies), on a pool of at most 65535 cells, leaves a consistent pool with
    every cell available; and on any consistent pool, releasing the cell
    that [mb_block_pool_alloc] has just returned restores the marks and the
    counter of the pool as they were before the allocation. *)
Theorem pool_init_alloc_free {A : Type} (zero : A) (pool : mb_pool_t A) :
  length (pool_cells pool) = length (pool_used pool) ->
  len (pool_used pool) <= 65535 ->
  pool_consistent (mb_pool_init pool) /\
  mb_pool_available (mb_pool_init pool) = len (pool_used pool) /\
  forall p i p',
    pool_consistent p ->
    mb_pool_alloc zero p = (Some i, p') ->
    pool_used (mb_pool_free p' (Some i)) = pool_used p /\
    pool_count (mb_pool_free p' (Some i)) = pool_count p.
Proof.
  intros Hlen Hmax; pose proof (len_nonneg (pool_used pool)) as H0.
  assert (Hclear : forall l : list bool, cells_in_use (map (fun _ => false) l) = 0).
  { induction l as [| u t IH]; [reflexivity |].
    cbn [map]; rewrite cells_in_use_cons, IH; reflexivity. }
  split; [| split].
  - unfold pool_consistent, mb_pool_init; cbn [pool_cells pool_used pool_count].
    rewrite length_map, len_map, Hclear; repeat split; assumption.
  - unfold mb_pool_available, mb_pool_init; cbn [pool_used pool_count].
    rewrite len_map, Z.sub_0_r; apply to_u16_small; unfold u16; lia.
  - intros p i p' Hp Halloc.
    pose proof (pool_alloc_cases zero p Hp) as Hc; rewrite Halloc in Hc.
    destruct Hc as (Hi & Hfree & Hused & Hcnt).
    destruct Hp as (_ & Hcount & Hpmax).
    pose proof (cells_in_use_bound (pool_used p)) as Hb.
    destruct p' as [cells' used' count']; cbn [pool_used pool_count] in Hused, Hcnt.
    subst used' count'.
    unfold mb_pool_free; cbn [pool_used pool_count pool_cells].
    rewrite set_cell_length.
    replace (i <? length (pool_used p))%nat with true
      by (symmetry; apply Nat.ltb_lt; assumption).
    cbn [pool_used pool_count].
    rewrite set_cell_twice.
    split.
    + rewrite <- Hfree at 1; apply set_cell_id.
    + assert (Hlt : cells_in_use (pool_used p) < len (pool_used p)).
      { pose proof (cells_in_use_bound (set_cell (pool_used p) i true)) as Hb'.
        rewrite len_set_cell, cells_in_use_set, Hfree in Hb' by assumption; lia. }
      rewrite Hcount.
      rewrite (to_u16_small (cells_in_use (pool_used p) + 1)) by (unfold u16; lia).
      replace (cells_in_use (pool_used p) + 1 >? 0) with true
        by (symmetry; apply Z.gtb_lt; lia).
      rewrite to_u16_small by (unfold u16; lia); lia.
Qed.

Lemma pool_init_alloc_free_witness :
  let pool := mk_pool [mk_plan 1 3 0 1; mk_plan 9 9 9 9] [true; true] 7 in
  pool_consistent (mb_plan_pool_init pool) /\
  mb_pool_available (mb_plan_pool_init pool) = len (pool_used pool) /\
  forall p i p',
    pool_consistent p ->
    mb_plan_pool_alloc p = (Some i, p') ->
    pool_used (mb_pool_free p' (Some i)) = pool_used p /\
    pool_count (mb_pool_free p' (Some i)) = pool_count p.
Proof.
  intros pool.
  apply (pool_init_alloc_free (mk_plan 0 0 0 0) pool).
  - reflexivity.
  - vm_compute; discriminate.
Defined.

(** ** Master: writing several registers *)

Lemma write_multiple_echo (addr quantity : Z) :
  u16 addr -> u16 quantity ->
  mb_parse_write_response MB_FC_WRITE_MULTIPLE_REGISTERS (hi_lo addr ++ hi_lo quantity)
    addr quantity expected_null = Ok tt.
Proof.
  intros Ha Hq.
  change (mb_parse_write_response MB_FC_WRITE_MULTIPLE_REGISTERS
            (hi_lo addr ++ hi_lo quantity) addr quantity expected_null)
    with (parse_write_multiple_response (hi_lo addr ++ hi_lo quantity) addr quantity).
  unfold parse_write_multiple_response.
  change (len (hi_lo addr ++ hi_lo quantity) <? 4) with false; cbv iota.
  change (byte_at (hi_lo addr ++ hi_lo quantity) 0)
    with (to_u8 (Z.land (Z.shiftr addr 8) 255)).
  change (byte_at (hi_lo addr ++ hi_lo quantity) 1) with (to_u8 (Z.land addr 255)).
  change (byte_at (hi_lo addr ++ hi_lo quantity) 2)
    with (to_u8 (Z.land (Z.shiftr quantity 8) 255)).
  change (byte_at (hi_lo addr ++ hi_lo quantity) 3) with (to_u8 (Z.land quantity 255)).
  rewrite !be16_bytes, !Z.eqb_refl by assumption; reflexivity.
Qed.

(** A write of several registers, end to end.  For 1 to 123 registers whose
    request frame fits the 260-byte frame buffer (every such quantity in RTU
    and TCP mode, up to 60 in ASCII mode), over a transport that accepts the
    request and delivers the frame of a slave that confirms the start
    address and the quantity (in TCP under any transaction id):
    [mb_master_write_multiple_registers] succeeds, the request counter is
    incremented twice, and the character counters grow by the length of the
    request frame, which is that of a PDU of [5 + 2 quantity] bytes, and by
    the length of the answer. *)
Theorem write_multiple_registers_accepted (master : mb_master_t (list (list Z)))
  (tid slave_id start_addr quantity : Z) (values : list Z) (later : list (list Z)) :
  transport (config master) = scripted_transport ->
  u16 tid -> u8 slave_id -> u16 start_addr ->
  1 <= quantity <= 123 -> quantity <= len values ->
  let m := mode (config master) in
  mb_calc_frame_length (5 + 2 * quantity) m <= 260 ->
  mb_master_write_multiple_registers master slave_id start_addr quantity values
    (answer_frame m tid slave_id MB_FC_WRITE_MULTIPLE_REGISTERS
       (hi_lo start_addr ++ hi_lo quantity) :: later) =
    mk_single (Ok tt)
      (mk_master (config master) (transaction_id master)
         (answered_stats (stats master)
            (mb_calc_frame_length (5 + 2 * quantity) m)
            (mb_calc_frame_length 4 m)))
      later.
Proof.
  intros Htr Ht Hs Ha Hq Hv m Hfit.
  assert (Hpos : 0 < mb_calc_frame_length 4 m) by (destruct m; vm_compute; reflexivity).
  pose proof (request_fits m) as Hfit4.
  assert (Hru : Forall u8 (hi_lo start_addr ++ hi_lo quantity))
    by (apply Forall_app; split; apply hi_lo_u8).
  destruct (answer_frame_parses m tid slave_id MB_FC_WRITE_MULTIPLE_REGISTERS
              (hi_lo start_addr ++ hi_lo quantity))
    as [Hparse Hal]; try assumption;
    try (unfold u8, MB_FC_WRITE_MULTIPLE_REGISTERS; lia);
    try (change (len (hi_lo start_addr ++ hi_lo quantity)) with 4; lia).
  change (len (hi_lo start_addr ++ hi_lo quantity)) with 4 in Hal.
  unfold mb_master_write_multiple_registers.
  replace ((quantity =? 0) || (quantity >? 123)) with false.
  2: { symmetry; apply orb_false_intro; [apply Z.eqb_neq; lia |].
       rewrite Z.gtb_ltb; apply Z.ltb_ge; lia. }
  set (pdu := hi_lo start_addr ++ hi_lo quantity ++ [to_u8 (quantity * 2)] ++
              flat_map hi_lo (register_values values quantity)).
  assert (Hl : len pdu = 5 + 2 * quantity).
  { unfold pdu; rewrite !len_app, len_flat_hi_lo.
    change (len (hi_lo start_addr)) with 2; change (len (hi_lo quantity)) with 2.
    change (len [_]) with 1.
    unfold register_values; rewrite len_map.
    unfold len; rewrite length_seq; lia. }
  rewrite (exchange_scripted master slave_id MB_FC_WRITE_MULTIPLE_REGISTERS pdu _ _ later
             MB_FC_WRITE_MULTIPLE_REGISTERS (hi_lo start_addr ++ hi_lo quantity) Htr);
    try assumption;
    try (rewrite Hl; fold m; lia);
    try (fold m; rewrite Hal; lia).
  rewrite write_multiple_echo by (try assumption; unfold u16; lia).
  rewrite Hl; fold m; rewrite Hal; reflexivity.
Qed.

Lemma write_multiple_registers_accepted_witness :
  let master :=
    mk_master (mk_config MB_MODE_ASCII 253 4 2 scripted_transport 1000) 0
      (mk_stats 0 0 0 0 0 0) in
  mb_master_write_multiple_registers master 17 256 60 (repeat 7 60)
    (answer_frame MB_MODE_ASCII 0 17 MB_FC_WRITE_MULTIPLE_REGISTERS
       (hi_lo 256 ++ hi_lo 60) :: []) =
    mk_single (Ok tt)
      (mk_master (config master) (transaction_id master)
         (answered_stats (stats master)
            (mb_calc_frame_length (5 + 2 * 60) MB_MODE_ASCII)
            (mb_calc_frame_length 4 MB_MODE_ASCII)))
      [].
Proof.
  intros master.
  apply (write_multiple_registers_accepted master 0 17 256 60 (repeat 7 60) []);
    try reflexivity; try (unfold u8, u16; lia); vm_compute; discriminate.
Defined.

(** ** Frames are canonical *)

Lemma lor_shiftl8 (hi lo : Z) :
  u8 lo -> Z.lor (Z.shiftl hi 8) lo = 256 * hi + lo.
Proof.
  intros Hlo.
  rewrite <- Z.lxor_lor, <- Z.add_nocarry_lxor by (apply land_shiftl8_u8; assumption).
  rewrite Z.shiftl_mul_pow2 by lia; change (2 ^ 8) with 256; lia.
Qed.

Lemma split_pair (hi lo : Z) :
  u8 hi -> u8 lo ->
  to_u8 (Z.land (Z.shiftr (256 * hi + lo) 8) 255) = hi /\
  to_u8 (Z.land (256 * hi + lo) 255) = lo.
Proof.
  intros Hhi Hlo; unfold u8, to_u8 in *.
  change 255 with (Z.ones 8); rewrite !Z.land_ones by lia.
  rewrite Z.shiftr_div_pow2 by lia; change (2 ^ 8) with 256.
  split; Z.to_euclidean_division_equations; lia.
Qed.

Lemma list_last_two (rest : list Z) :
  forall n, length rest = (n + 2)%nat ->
    rest = firstn n rest ++ [nth n rest 0; nth (S n) rest 0].
Proof.
  induction rest as [| x t IH]; intros n Hn; cbn [length] in Hn; [lia |].
  destruct n as [| n].
  - destruct t as [| y [| z t']]; cbn [length] in Hn; try lia; reflexivity.
  - cbn [firstn nth app]; f_equal; apply IH; cbn [Nat.add] in Hn; lia.
Qed.

Lemma byte_at_u8 (frame : list Z) (i : Z) : Forall u8 frame -> u8 (byte_at frame i).
Proof.
  intros H; unfold byte_at.
  destruct (nth_in_or_default (Z.to_nat i) frame 0) as [Hin | ->];
    [rewrite Forall_forall in H; apply H; assumption | unfold u8; lia].
Qed.

(** The binary parsers accept the canonical encoding only.  For a frame of
    bytes (at most 65535 of them): when [mb_rtu_parse_frame] accepts it,
    [mb_rtu_build_frame] applied to the slave id, function code and PDU it
    returns, with a buffer of the length of the frame, rebuilds the frame
    byte for byte; likewise [mb_tcp_build_frame] rebuilds what
    [mb_tcp_parse_frame] accepts, from the transaction id and the fields
    returned.  So two different RTU frames, or two different TCP frames,
    never decode to the same fields. *)
Theorem binary_frames_canonical (frame : list Z) :
  Forall u8 frame -> len frame <= 65535 ->
  (forall fr,
     mb_rtu_parse_frame frame = Ok fr ->
     mb_rtu_build_frame (frame_slave_id fr) (frame_fc fr) (frame_pdu fr) (len frame)
       = Ok frame) /\
  (forall tid fr,
     mb_tcp_parse_frame frame = Ok (tid, fr) ->
     mb_tcp_build_frame tid (frame_slave_id fr) (frame_fc fr) (frame_pdu fr) (len frame)
       = Ok frame).
Proof.
  intros Hu Hmax; split.
  - intros fr; unfold mb_rtu_parse_frame.
    destruct (len frame <? 4) eqn:E4; [discriminate | apply Z.ltb_ge in E4].
    destruct (mb_crc16_verify frame) eqn:Hv; [| discriminate].
    cbn [negb]; intros H; injection H as <-.
    cbn [frame_slave_id frame_fc frame_pdu].
    rewrite to_u16_small by (unfold u16; lia).
    destruct frame as [| a [| b rest]];
      try (unfold len in E4; cbn [length] in E4; lia).
    rewrite !len_cons in *; pose proof (len_nonneg rest) as H0.
    replace (1 + (1 + len rest) - 4) with (len rest - 2) by lia.
    cbn [skipn]; change (byte_at (a :: b :: rest) 0) with a;
      change (byte_at (a :: b :: rest) 1) with b.
    set (n := Z.to_nat (len rest - 2)).
    assert (Hn : length rest = (n + 2)%nat) by (unfold n, len in *; lia).
    pose proof (list_last_two rest n Hn) as Hsplit.
    unfold mb_crc16_verify in Hv.
    rewrite !len_cons in Hv.
    destruct (1 + (1 + len rest) <? 3) eqn:E3; [discriminate |].
    cbn [length] in Hv.
    replace (S (S (length rest)) - 2)%nat with (S (S n)) in Hv by lia.
    cbn [firstn nth] in Hv.
    apply Z.eqb_eq in Hv.
    unfold mb_rtu_build_frame.
    assert (Hpl : len (firstn n rest) = len rest - 2).
    { unfold len; rewrite length_firstn; lia. }
    rewrite Hpl, to_u16_small by (unfold u16; lia).
    destruct (1 + (1 + len rest) <? 1 + 1 + (len rest - 2) + 2) eqn:Eb;
      [apply Z.ltb_lt in Eb; lia |].
    rewrite Hv.
    assert (Hlo : u8 (nth n rest 0)).
    { rewrite Forall_forall in Hu; apply Hu; right; right; apply nth_In; lia. }
    assert (Hhi : u8 (nth (S n) rest 0)).
    { rewrite Forall_forall in Hu; apply Hu; right; right; apply nth_In; lia. }
    rewrite Z.lor_comm, lor_shiftl8 by assumption.
    destruct (split_pair (nth (S n) rest 0) (nth n rest 0) Hhi Hlo) as [-> ->].
    cbn [app]; do 3 f_equal; symmetry; exact Hsplit.
  - intros tid fr; unfold mb_tcp_parse_frame.
    destruct (len frame <? 8) eqn:E8; [discriminate | apply Z.ltb_ge in E8].
    pose proof (byte_at_u8 frame) as Hb.
    destruct (be16 (byte_at frame 2) (byte_at frame 3) =? 0) eqn:Ep; [| discriminate].
    apply Z.eqb_eq in Ep; cbn [negb].
    destruct (6 + be16 (byte_at frame 4) (byte_at frame 5) =? len frame) eqn:El;
      [| discriminate].
    apply Z.eqb_eq in El; cbn [negb].
    intros H; injection H as <- <-.
    cbn [frame_slave_id frame_fc frame_pdu].
    rewrite be16_value in Ep, El by (apply Hb; assumption).
    rewrite !be16_value by (apply Hb; assumption).
    rewrite to_u16_small by (unfold u16; lia).
    destruct frame as [| t1 [| t0 [| p1 [| p0 [| l1 [| l0 [| un [| fc0 pdu]]]]]]]];
      try (unfold len in E8; cbn [length] in E8; lia).
    change (byte_at _ 0) with t1 in *; change (byte_at _ 1) with t0 in *.
    change (byte_at _ 2) with p1 in *; change (byte_at _ 3) with p0 in *.
    change (byte_at _ 4) with l1 in *; change (byte_at _ 5) with l0 in *.
    change (byte_at _ 6) with un in *; change (byte_at _ 7) with fc0 in *.
    repeat match goal with
           | H : Forall u8 (_ :: _) |- _ =>
               let Hx := fresh "Hx" in
               inversion H as [| ? ? Hx ?]; subst; clear H
           end.
    rewrite !len_cons in *; pose proof (len_nonneg pdu) as Hpdu0.
    cbn [skipn].
    replace (256 * l1 + l0 - 2) with (len pdu) by lia.
    rewrite to_nat_len, firstn_all.
    unfold mb_tcp_build_frame.
    rewrite !to_u16_small by (unfold u16; lia).
    destruct (1 + (1 + (1 + (1 + (1 + (1 + (1 + (1 + len pdu))))))) <? 7 + 1 + len pdu)
      eqn:Eb; [apply Z.ltb_lt in Eb; lia |].
    replace (1 + 1 + len pdu) with (256 * l1 + l0) by lia.
    unfold u8 in *.
    assert (p1 = 0 /\ p0 = 0) as [-> ->] by lia.
    destruct (split_pair t1 t0) as [-> ->]; [unfold u8; lia | unfold u8; lia |].
    destruct (split_pair l1 l0) as [-> ->]; [unfold u8; lia | unfold u8; lia |].
    reflexivity.
Qed.

Lemma binary_frames_canonical_witness :
  (forall fr,
     mb_rtu_parse_frame [1; 3; 0; 0; 0; 2; 196; 11] = Ok fr ->
     mb_rtu_build_frame (frame_slave_id fr) (frame_fc fr) (frame_pdu fr)
       (len [1; 3; 0; 0; 0; 2; 196; 11]) = Ok [1; 3; 0; 0; 0; 2; 196; 11]) /\
  (forall tid fr,
     mb_tcp_parse_frame [1; 3; 0; 0; 0; 2; 196; 11] = Ok (tid, fr) ->
     mb_tcp_build_frame tid (frame_slave_id fr) (frame_fc fr) (frame_pdu fr)
       (len [1; 3; 0; 0; 0; 2; 196; 11]) = Ok [1; 3; 0; 0; 0; 2; 196; 11]).
Proof.
  apply (binary_frames_canonical [1; 3; 0; 0; 0; 2; 196; 11]).
  - repeat (apply Forall_cons; [unfold u8; lia |]); apply Forall_nil.
  - vm_compute; discriminate.
Defined.
